(** * Locus-MQ: the queue engine of [src/core/MessageQueue.ts]

    A shallow embedding of the message store operations of the
    [MessageQueue] class (send, fetchMessages, processMessage,
    handleMessageError, markMessageCompleted, markMessageFailed,
    retryMessage, moveToDeadLetter, requeueDeadLetterMessage,
    cleanupExpiredMessages) over a model of the SQLite tables created by
    [DatabaseManager.createTables], followed by the properties of the
    claim protocol, the retry / dead-letter pipeline and the producer.

    Conventions.
    - A table is the list of its rows in insertion (rowid) order.
    - [now] is the reading of the wall clock in milliseconds ([Date.now()]);
      SQLite's [strftime('%s','now')] is [now / 1000], the same instant in
      whole seconds. A transaction callback is synchronous: every reading
      of the clock it makes is [now].
    - [uuidv4()] is an input of the operation that calls it; in a run of
      the engine it returns an id that is not in use.
    - [ORDER BY] is modelled by a stable sort. SQLite leaves the order of
      rows with equal keys open; no property below depends on it.
    - A statement that violates a constraint, and a [throw] inside a
      transaction callback, abort the transaction: better-sqlite3 rolls the
      database back and rethrows.
    - The [message_stats], [consumers] and [events] tables are left out of
      [DB]: the triggers only write [message_stats], which [getQueueStats]
      alone reads and which [Stats] models on its own; no operation reads
      the other two. *)

From Stdlib Require Import ZArith List String Bool Lia.
From Stdlib Require Import Sorting.Sorted Sorting.Permutation.
Import ListNotations.

Local Open Scope Z_scope.
Local Open Scope string_scope.
Local Open Scope list_scope.

Set Implicit Arguments.

(** ** JavaScript values the engine handles *)

Module Js.

(** A payload or metadata value as the engine sees it: [null], or data
    that the engine never inspects, carried as its JSON text. These are
    the values that [JSON.stringify] turns into a text; [undefined] and
    the values it refuses are arguments of a call, in [Call.Payload]. *)
Inductive Value : Type :=
| Null
| Data (json : string).

Definition JSON_stringify (v : Value) : string :=
  match v with
  | Null => "null"
  | Data json => json
  end.

Definition JSON_parse (text : string) : Value :=
  if String.eqb text "null" then Null else Data text.

(** [s || null] and [if (s)] on an optional string: the empty string is
    falsy. *)
Definition truthy_string (s : option string) : option string :=
  match s with
  | Some v => if String.eqb v "" then None else Some v
  | None => None
  end.

(** [n ? f(n) : undefined] on an optional number: zero is falsy. *)
Definition truthy_number (n : option Z) : option Z :=
  match n with
  | Some v => if Z.eqb v 0 then None else Some v
  | None => None
  end.

(** [a ?? b]. *)
Definition nullish {A : Type} (a : option A) (b : A) : A :=
  match a with
  | Some v => v
  | None => b
  end.

(** [Math.floor(ms / 1000)]. *)
Definition seconds (ms : Z) : Z := ms / 1000.

(** [new Date(s * 1000)], as its [getTime()]. *)
Definition date_of_seconds (s : Z) : Z := s * 1000.

(** What a [throw], or a failing statement, carries. *)
Inductive Thrown : Type :=
| SqliteConstraintPrimaryKey
| SqliteConstraintForeignKey
| SqliteSyntaxError
| Error (message : string).

Inductive Result (T : Type) : Type :=
| Ok (v : T)
| Throw (e : Thrown).

Arguments Ok {T} v.
Arguments Throw {T} e.

End Js.

Import Js.

(** ** The tables of [DatabaseManager.createTables] *)

Inductive Status : Type :=
| pending
| processing
| completed
| failed.

Definition Status_eqb (a b : Status) : bool :=
  match a, b with
  | pending, pending => true
  | processing, processing => true
  | completed, completed => true
  | failed, failed => true
  | _, _ => false
  end.

(** A row of [messages]. *)
Module Row.
Record t : Type := mk {
  id : string;
  queue_name : string;
  payload : string;
  status : Status;
  priority : Z;
  retries : Z;
  max_retries : Z;
  created_at : Z;
  available_at : Z;
  processed_at : option Z;
  failed_at : option Z;
  error_message : option string;
  processing_time : option Z;
  metadata : option string;
  deduplication_id : option string;
  expires_at : option Z
}.
End Row.

(** A row of [dead_letter_messages]. *)
Module DeadRow.
Record t : Type := mk {
  id : string;
  original_id : string;
  queue_name : string;
  payload : string;
  error_message : string;
  retries : Z;
  created_at : Z;
  original_created_at : Z;
  metadata : option string
}.
End DeadRow.

(** The [Message] object handed to a handler. *)
Module Message.
Record t : Type := mk {
  id : string;
  queueName : string;
  payload : Value;
  retries : Z;
  maxRetries : Z;
  priority : Z;
  createdAt : Z;
  availableAt : Z;
  processedAt : option Z;
  failedAt : option Z;
  errorMessage : option string;
  processingTime : option Z;
  metadata : option Value
}.
End Message.

Record DB : Type := mkDB {
  queues : list string;
  messages : list Row.t;
  dead_letter_messages : list DeadRow.t
}.

(** ** Statements and transactions *)

Module Tx.

(** A transaction callback: it reads and writes the database, and
    returns or throws. *)
Definition t (T : Type) : Type := DB -> Result (DB * T).

Definition ret {T : Type} (v : T) : t T := fun db => Ok (db, v).

Definition throw {T : Type} (e : Thrown) : t T := fun _ => Throw e.

Definition bind {A B : Type} (c : t A) (k : A -> t B) : t B :=
  fun db =>
    match c db with
    | Ok (db', a) => k a db'
    | Throw e => Throw e
    end.

Definition read {T : Type} (q : DB -> T) : t T := fun db => Ok (db, q db).

(** [DatabaseManager.executeTransaction]: commit when the callback
    returns, roll back and rethrow when it throws. *)
Definition executeTransaction {T : Type} (callback : t T) (db : DB)
  : DB * Result T :=
  match callback db with
  | Ok (db', v) => (db', Ok v)
  | Throw e => (db, Throw e)
  end.

End Tx.

Declare Scope tx_scope.
Delimit Scope tx_scope with tx.
Notation "x <- c ;; k" := (Tx.bind c (fun x => k))
  (at level 61, c at next level, right associativity) : tx_scope.
Notation "c ;;; k" := (Tx.bind c (fun _ => k))
  (at level 61, right associativity) : tx_scope.

Module Sql.

Definition has_message (i : string) (db : DB) : bool :=
  existsb (fun r => String.eqb (Row.id r) i) (messages db).

Definition has_dead_letter (i : string) (db : DB) : bool :=
  existsb (fun r => String.eqb (DeadRow.id r) i) (dead_letter_messages db).

Definition has_queue (name : string) (db : DB) : bool :=
  existsb (String.eqb name) (queues db).

(** [INSERT INTO messages]: [id] is the primary key, [queue_name]
    references [queues(name)] and foreign keys are enforced. *)
Definition insert_message (r : Row.t) : Tx.t unit :=
  fun db =>
    if has_message (Row.id r) db then Throw SqliteConstraintPrimaryKey
    else if negb (has_queue (Row.queue_name r) db)
         then Throw SqliteConstraintForeignKey
    else Ok (mkDB (queues db) (messages db ++ [r]) (dead_letter_messages db),
             tt).

(** [INSERT INTO dead_letter_messages], with the same two constraints. *)
Definition insert_dead_letter (r : DeadRow.t) : Tx.t unit :=
  fun db =>
    if has_dead_letter (DeadRow.id r) db then Throw SqliteConstraintPrimaryKey
    else if negb (has_queue (DeadRow.queue_name r) db)
         then Throw SqliteConstraintForeignKey
    else Ok (mkDB (queues db) (messages db) (dead_letter_messages db ++ [r]),
             tt).

(** [UPDATE messages SET ... WHERE id = ?]: the right-hand sides of [SET]
    are evaluated on the row as it is before the update. *)
Definition update_message (i : string) (set : Row.t -> Row.t) : Tx.t unit :=
  fun db =>
    Ok (mkDB (queues db)
             (map (fun r => if String.eqb (Row.id r) i then set r else r)
                  (messages db))
             (dead_letter_messages db),
        tt).

(** [DELETE FROM messages WHERE ...], returning [changes]. *)
Definition delete_messages (where_ : Row.t -> bool) : Tx.t Z :=
  fun db =>
    Ok (mkDB (queues db)
             (filter (fun r => negb (where_ r)) (messages db))
             (dead_letter_messages db),
        Z.of_nat (List.length (filter where_ (messages db)))).

(** [DELETE FROM dead_letter_messages WHERE id = ?]. *)
Definition delete_dead_letter (i : string) : Tx.t unit :=
  fun db =>
    Ok (mkDB (queues db) (messages db)
             (filter (fun r => negb (String.eqb (DeadRow.id r) i))
                     (dead_letter_messages db)),
        tt).

(** [ORDER BY]: a stable insertion sort of the rows by [leb]; rows that
    [leb] does not separate keep their table order. *)
Fixpoint insert_by {A : Type} (leb : A -> A -> bool) (x : A) (l : list A)
  : list A :=
  match l with
  | [] => [x]
  | y :: l' => if leb x y then x :: l else y :: insert_by leb x l'
  end.

Fixpoint order_by {A : Type} (leb : A -> A -> bool) (l : list A) : list A :=
  match l with
  | [] => []
  | x :: l' => insert_by leb x (order_by leb l')
  end.

(** [LIMIT n]: a negative [n] means no limit. *)
Definition limit {A : Type} (n : Z) (l : list A) : list A :=
  if Z.ltb n 0 then l else firstn (Z.to_nat n) l.

End Sql.

(** ** The operations of [MessageQueue] *)

Module QueueOptions.
(** [MessageQueueOptions], with the defaults of the constructor. *)
Record t : Type := mk {
  enableMetrics : bool;
  enableDeadLetter : bool;
  maxRetries : Z
}.
Definition default : t := mk true true 3.
End QueueOptions.

Module SendOptions.
(** [SendMessageOptions]; [None] is an absent field. [delay] is in
    milliseconds, [expiresAt] is a [Date], as its [getTime()], and
    [metadata] is an object, as its JSON text. *)
Record t : Type := mk {
  delay : option Z;
  priority : option Z;
  maxRetries : option Z;
  metadata : option string;
  deduplicationId : option string;
  expiresAt : option Z
}.
Definition none : t := mk None None None None None None.
End SendOptions.

Module DeadLetterConfig.
(** The [deadLetterConfig] argument of [handleMessageError]. *)
Record t : Type := mk {
  enabled : bool;
  maxRetries : Z
}.
(** The default of [consume]: [{ enabled: true, maxRetries: 3 }]. *)
Definition default : t := mk true 3.
End DeadLetterConfig.

(** How the race between [handler(message)] and the timeout timer ends. *)
Inductive HandlerOutcome : Type :=
| Resolved
| Rejected (message : string)
| TimedOut.

(** The store operations a consumer calls, as they appear at call sites. *)
Inductive StoreCall : Type :=
| Call_markMessageCompleted (messageId : string)
| Call_markMessageFailed (messageId : string)
| Call_retryMessage (messageId : string)
| Call_moveToDeadLetter (messageId : string).

Module MessageQueue.

Local Open Scope tx_scope.

Definition error_message (e : Thrown) : string :=
  match e with
  | SqliteConstraintPrimaryKey => "UNIQUE constraint failed"
  | SqliteConstraintForeignKey => "FOREIGN KEY constraint failed"
  | SqliteSyntaxError => "syntax error"
  | Error message => message
  end.

(** [SELECT id FROM messages WHERE queue_name = ? AND deduplication_id = ?
    AND status != 'failed' ORDER BY created_at DESC LIMIT 1]. *)
Definition select_duplicate (queueName dedup : string) (db : DB)
  : option Row.t :=
  hd_error
    (Sql.limit 1
       (Sql.order_by
          (fun a b => Z.leb (Row.created_at b) (Row.created_at a))
          (filter
             (fun r =>
                String.eqb (Row.queue_name r) queueName
                && match Row.deduplication_id r with
                   | Some d => String.eqb d dedup
                   | None => false
                   end
                && negb (Status_eqb (Row.status r) failed))
             (messages db)))).

(** [send]: the row is inserted first and the duplicate check follows in
    the same transaction; a duplicate throws, which undoes the insert.
    This is the call for a payload that [JSON.stringify] turns into a
    text and for times that are dates: [new Date(now + delay)] is a date
    as long as [now + delay] is within 8.64e15 ms of the epoch
    ([Call.valid_Date]), and outside that range the code binds
    [available_at] to NULL, which [Row.t] does not hold. [Call.send] is
    the call on any payload. *)
Definition send (self : QueueOptions.t) (messageId : string) (now : Z)
    (queueName : string) (payload : Value) (options : SendOptions.t)
    (db : DB) : DB * Result string :=
  let message_retries := 0%Z in
  let message_maxRetries :=
    nullish (SendOptions.maxRetries options) (QueueOptions.maxRetries self) in
  let message_priority := nullish (SendOptions.priority options) 5%Z in
  let message_createdAt := now in
  let message_availableAt :=
    (now + nullish (SendOptions.delay options) 0)%Z in
  Tx.executeTransaction
    (Sql.insert_message
       (Row.mk messageId queueName (JSON_stringify payload) pending
          message_priority message_retries message_maxRetries
          (seconds message_createdAt) (seconds message_availableAt)
          None None None None
          (SendOptions.metadata options)
          (truthy_string (SendOptions.deduplicationId options))
          (option_map seconds (SendOptions.expiresAt options))) ;;;
     match truthy_string (SendOptions.deduplicationId options) with
     | Some dedup =>
         existing <- Tx.read (select_duplicate queueName dedup) ;;
         match existing with
         | Some e =>
             if negb (String.eqb (Row.id e) messageId)
             then Tx.throw
                    (Error ("Duplicate message with deduplication ID: "
                            ++ dedup))
             else Tx.ret messageId
         | None => Tx.ret messageId
         end
     | None => Tx.ret messageId
     end)
    db.

(** The [WHERE] clause of the claim query. *)
Definition fetch_where (queueName : string) (now : Z) (r : Row.t) : bool :=
  String.eqb (Row.queue_name r) queueName
  && Status_eqb (Row.status r) pending
  && Z.leb (Row.available_at r) (seconds now).

(** [ORDER BY priority DESC, created_at ASC]: [a] is served no later
    than [b]. *)
Definition fetch_order (a b : Row.t) : bool :=
  Z.ltb (Row.priority b) (Row.priority a)
  || (Z.eqb (Row.priority a) (Row.priority b)
      && Z.leb (Row.created_at a) (Row.created_at b)).

Definition fetch_select (queueName : string) (limit now : Z) (db : DB)
  : list Row.t :=
  Sql.limit limit
    (Sql.order_by fetch_order
       (filter (fetch_where queueName now) (messages db))).

(** The object built from a selected row. *)
Definition rowToMessage (row : Row.t) : Message.t :=
  Message.mk (Row.id row) (Row.queue_name row)
    (JSON_parse (Row.payload row))
    (Row.retries row) (Row.max_retries row) (Row.priority row)
    (date_of_seconds (Row.created_at row))
    (date_of_seconds (Row.available_at row))
    (option_map date_of_seconds (truthy_number (Row.processed_at row)))
    (option_map date_of_seconds (truthy_number (Row.failed_at row)))
    (Row.error_message row)
    (Row.processing_time row)
    (option_map JSON_parse (truthy_string (Row.metadata row))).

Definition set_processing (now : Z) (r : Row.t) : Row.t :=
  Row.mk (Row.id r) (Row.queue_name r) (Row.payload r) processing
    (Row.priority r) (Row.retries r) (Row.max_retries r)
    (Row.created_at r) (Row.available_at r) (Row.processed_at r)
    (Row.failed_at r) (Row.error_message r) (Some (seconds now))
    (Row.metadata r) (Row.deduplication_id r) (Row.expires_at r).

(** [UPDATE messages SET status = 'processing', processing_time =
    strftime('%s','now') WHERE id = ?]. *)
Definition updateStmt_run (now : Z) (messageId : string) : Tx.t unit :=
  Sql.update_message messageId (set_processing now).

(** [messages.forEach(msg => updateStmt.run(msg.id))]. *)
Fixpoint forEach_update (now : Z) (msgs : list Message.t) : Tx.t unit :=
  match msgs with
  | [] => Tx.ret tt
  | msg :: rest =>
      updateStmt_run now (Message.id msg) ;;; forEach_update now rest
  end.

(** What the callback of [fetchMessages] does with the selected rows:
    build the batch, run the update on every message of it, return it. *)
Definition fetch_claim (now : Z) (rows : list Row.t)
  : Tx.t (list Message.t) :=
  let messages := map rowToMessage rows in
  forEach_update now messages ;;;
  Tx.ret messages.

Definition fetchMessages (now : Z) (queueName : string) (limit : Z)
    (db : DB) : DB * Result (list Message.t) :=
  Tx.executeTransaction
    (rows <- Tx.read (fetch_select queueName limit now) ;;
     fetch_claim now rows)
    db.

Definition set_completed (now processingTime : Z) (r : Row.t) : Row.t :=
  Row.mk (Row.id r) (Row.queue_name r) (Row.payload r) completed
    (Row.priority r) (Row.retries r) (Row.max_retries r)
    (Row.created_at r) (Row.available_at r) (Some (seconds now))
    (Row.failed_at r) (Row.error_message r) (Some processingTime)
    (Row.metadata r) (Row.deduplication_id r) (Row.expires_at r).

Definition markMessageCompleted (now : Z) (messageId : string)
    (processingTime : Z) (db : DB) : DB * Result unit :=
  Tx.executeTransaction
    (Sql.update_message messageId (set_completed now processingTime)) db.

Definition set_failed (now : Z) (message : string) (r : Row.t) : Row.t :=
  Row.mk (Row.id r) (Row.queue_name r) (Row.payload r) failed
    (Row.priority r) (Row.retries r) (Row.max_retries r)
    (Row.created_at r) (Row.available_at r) (Row.processed_at r)
    (Some (seconds now)) (Some message) (Row.processing_time r)
    (Row.metadata r) (Row.deduplication_id r) (Row.expires_at r).

Definition markMessageFailed (now : Z) (messageId : string) (error : Thrown)
    (db : DB) : DB * Result unit :=
  Tx.executeTransaction
    (Sql.update_message messageId (set_failed now (error_message error))) db.

(** [SET status = 'pending', retries = retries + 1, available_at =
    strftime('%s','now') + (retries * 60)]: both right-hand sides read
    the [retries] of the row before the update. *)
Definition set_retry (now : Z) (r : Row.t) : Row.t :=
  Row.mk (Row.id r) (Row.queue_name r) (Row.payload r) pending
    (Row.priority r) (Row.retries r + 1)%Z (Row.max_retries r)
    (Row.created_at r) (seconds now + Row.retries r * 60)%Z
    (Row.processed_at r) (Row.failed_at r) (Row.error_message r)
    (Row.processing_time r) (Row.metadata r) (Row.deduplication_id r)
    (Row.expires_at r).

Definition retryMessage (now : Z) (messageId : string) (error : Thrown)
    (db : DB) : DB * Result unit :=
  Tx.executeTransaction (Sql.update_message messageId (set_retry now)) db.

(** [message.metadata ? JSON.stringify(message.metadata) : null]. *)
Definition metadata_text (m : option Value) : option string :=
  match m with
  | Some (Data json) => Some json
  | Some Null => None
  | None => None
  end.

Definition moveToDeadLetter (dlqId : string) (now : Z) (message : Message.t)
    (error : Thrown) (db : DB) : DB * Result unit :=
  Tx.executeTransaction
    (Sql.insert_dead_letter
       (DeadRow.mk dlqId (Message.id message) (Message.queueName message)
          (JSON_stringify (Message.payload message))
          (error_message error) (Message.retries message)
          (seconds now) (seconds (Message.createdAt message))
          (metadata_text (Message.metadata message))) ;;;
     _ <- Sql.delete_messages
            (fun r => String.eqb (Row.id r) (Message.id message)) ;;
     Tx.ret tt)
    db.

(** [SELECT * FROM dead_letter_messages WHERE id = ?]. *)
Definition get_dead_letter (messageId : string) (db : DB)
  : option DeadRow.t :=
  find (fun r => String.eqb (DeadRow.id r) messageId)
       (dead_letter_messages db).

Definition requeueDeadLetterMessage (newMessageId : string) (now : Z)
    (messageId : string) (db : DB) : DB * Result unit :=
  Tx.executeTransaction
    (dlqMessage <- Tx.read (get_dead_letter messageId) ;;
     match dlqMessage with
     | None =>
         Tx.throw (Error ("Dead letter message not found: " ++ messageId))
     | Some dlq =>
         Sql.insert_message
           (Row.mk newMessageId (DeadRow.queue_name dlq)
              (DeadRow.payload dlq) pending 5 0 3
              (seconds now) (seconds now)
              None None None None (DeadRow.metadata dlq) None None) ;;;
         Sql.delete_dead_letter messageId
     end)
    db.

(** [cleanupExpiredMessages]: with a queue name the statement text has
    two [WHERE] keywords, and [prepare] rejects it. *)
Definition cleanupExpiredMessages (now : Z) (queueName : option string)
    (db : DB) : DB * Result Z :=
  Tx.executeTransaction
    (match truthy_string queueName with
     | Some _ => Tx.throw SqliteSyntaxError
     | None =>
         Sql.delete_messages
           (fun r =>
              match Row.expires_at r with
              | Some e => Z.ltb e (seconds now)
              | None => false
              end)
     end)
    db.

(** *** The consumer side: [processMessage], [handleMessageError] and the
    per-message body of [consume] *)

(** The database together with the log of the store operations called
    on it by a consumer, oldest first. *)
Record Store : Type := mkStore {
  db : DB;
  calls : list StoreCall
}.

Definition call {T : Type} (c : StoreCall) (op : DB -> DB * Result T)
    (s : Store) : Store * Result T :=
  let (db', r) := op (db s) in
  (mkStore db' (calls s ++ [c]), r).

(** [await Promise.race([handler(message), timeoutPromise])]. *)
Definition race (outcome : HandlerOutcome) : Result unit :=
  match outcome with
  | Resolved => Ok tt
  | Rejected message => Throw (Error message)
  | TimedOut => Throw (Error "Message processing timeout")
  end.

(** [processMessage]: [startTime] is read before the handler runs, [now]
    once the race has settled. The [catch] marks the message failed and
    rethrows. *)
Definition processMessage (startTime now : Z) (message : Message.t)
    (outcome : HandlerOutcome) (s : Store) : Store * Result unit :=
  let '(s1, r) :=
    match race outcome with
    | Ok _ =>
        call (Call_markMessageCompleted (Message.id message))
             (markMessageCompleted now (Message.id message)
                                   (now - startTime)%Z)
             s
    | Throw error => (s, Throw error)
    end in
  match r with
  | Ok _ => (s1, Ok tt)
  | Throw error =>
      let '(s2, r2) :=
        call (Call_markMessageFailed (Message.id message))
             (markMessageFailed now (Message.id message) error)
             s1 in
      match r2 with
      | Ok _ => (s2, Throw error)
      | Throw error2 => (s2, Throw error2)
      end
  end.

Definition handleMessageError (dlqId : string) (now : Z)
    (message : Message.t) (error : Thrown) (deadLetterConfig : DeadLetterConfig.t)
    (s : Store) : Store * Result unit :=
  let maxRetries :=
    Z.min (Message.maxRetries message)
          (DeadLetterConfig.maxRetries deadLetterConfig) in
  if Z.ltb (Message.retries message) maxRetries then
    call (Call_retryMessage (Message.id message))
         (retryMessage now (Message.id message) error) s
  else if DeadLetterConfig.enabled deadLetterConfig then
    call (Call_moveToDeadLetter (Message.id message))
         (moveToDeadLetter dlqId now message error) s
  else
    call (Call_markMessageFailed (Message.id message))
         (markMessageFailed now (Message.id message) error) s.

(** The body that [consume] maps over a claimed batch:
    [try { await processMessage(...) } catch (error)
     { await handleMessageError(message, error, deadLetterQueue) }].
    [now] is the clock when the race settles and [now'] when the
    [catch] of [consume] runs. *)
Definition attempt (startTime now now' : Z) (dlqId : string)
    (message : Message.t) (outcome : HandlerOutcome)
    (deadLetterQueue : DeadLetterConfig.t) (s : Store) : Store :=
  let '(s1, r) := processMessage startTime now message outcome s in
  match r with
  | Ok _ => s1
  | Throw error =>
      fst (handleMessageError dlqId now' message error deadLetterQueue s1)
  end.

End MessageQueue.

(** ** Consumers running side by side

    The runtime is single-threaded and every transaction callback is
    synchronous, so a run of the engine is an interleaving of whole
    transactions. An [Event] is one such transaction together with the
    call that issues it; [step] is its effect on the database and on the
    bookkeeping of which handler owns which message. *)

Module System.

Import MessageQueue.

(** Where a claimed message is in the body of [consume]: its handler has
    been invoked and the race has not settled, or [processMessage] has
    thrown and [handleMessageError] has not run yet. A flight is an
    attempt of the engine, not a handler: [Promise.race] does not stop a
    handler that the timeout has beaten, and such a handler runs on
    with no flight; whatever it does later, no store operation follows
    from it. *)
Inductive Phase : Type :=
| Running
| Failing (error : Thrown).

Record Flight : Type := mkFlight {
  consumer : string;
  message : Message.t;
  phase : Phase
}.

Record t : Type := mk {
  store : Store;
  inflight : list Flight;
  (** one entry [(consumerId, messageId)] per handler invocation *)
  handled : list (string * string)
}.

Inductive Event : Type :=
| Send (self : QueueOptions.t) (messageId : string) (now : Z)
       (queueName : string) (payload : Value) (options : SendOptions.t)
| Poll (consumerId : string) (now : Z) (queueName : string) (batchSize : Z)
| Settle (consumerId messageId : string) (startTime now : Z)
         (outcome : HandlerOutcome)
| HandleError (consumerId messageId dlqId : string) (now : Z)
              (deadLetterQueue : DeadLetterConfig.t)
| Requeue (newMessageId : string) (now : Z) (messageId : string)
| Cleanup (now : Z) (queueName : option string).

Definition flight_id (f : Flight) : string := Message.id (message f).

Definition message_ids (d : DB) : list string := map Row.id (messages d).

Definition dead_letter_original_ids (d : DB) : list string :=
  map DeadRow.original_id (dead_letter_messages d).

(** The message ids in use: [uuidv4()] returns none of them. *)
Definition used_ids (s : t) : list string :=
  message_ids (db (store s))
  ++ dead_letter_original_ids (db (store s))
  ++ map flight_id (inflight s).

Definition fresh (i : string) (s : t) : bool :=
  negb (existsb (String.eqb i) (used_ids s)).

Definition is_running (f : Flight) : bool :=
  match phase f with
  | Running => true
  | Failing _ => false
  end.

(** The first flight of [consumerId] on [messageId] that [sel] accepts,
    and the others. *)
Fixpoint take_flight (sel : Flight -> bool) (consumerId messageId : string)
    (l : list Flight) : option (Flight * list Flight) :=
  match l with
  | [] => None
  | f :: rest =>
      if String.eqb (consumer f) consumerId
         && String.eqb (flight_id f) messageId
         && sel f
      then Some (f, rest)
      else match take_flight sel consumerId messageId rest with
           | Some (g, rest') => Some (g, f :: rest')
           | None => None
           end
  end.

Definition with_db (d : DB) (s : t) : t :=
  mk (mkStore d (calls (store s))) (inflight s) (handled s).

Definition step (e : Event) (s : t) : option t :=
  match e with
  | Send self messageId now queueName payload options =>
      if fresh messageId s then
        Some (with_db
                (fst (send self messageId now queueName payload options
                           (db (store s))))
                s)
      else None
  | Poll consumerId now queueName batchSize =>
      match fetchMessages now queueName batchSize (db (store s)) with
      | (d, Ok msgs) =>
          Some (mk (mkStore d (calls (store s)))
                   (inflight s
                    ++ map (fun m => mkFlight consumerId m Running) msgs)
                   (handled s
                    ++ map (fun m => (consumerId, Message.id m)) msgs))
      | (d, Throw _) => Some (with_db d s)
      end
  | Settle consumerId messageId startTime now outcome =>
      match take_flight is_running consumerId messageId (inflight s) with
      | Some (f, rest) =>
          match processMessage startTime now (message f) outcome (store s)
          with
          | (st, Ok _) => Some (mk st rest (handled s))
          | (st, Throw error) =>
              Some (mk st
                       (mkFlight consumerId (message f) (Failing error)
                        :: rest)
                       (handled s))
          end
      | None => None
      end
  | HandleError consumerId messageId dlqId now deadLetterQueue =>
      match take_flight (fun f => negb (is_running f)) consumerId messageId
                        (inflight s) with
      | Some (f, rest) =>
          match phase f with
          | Failing error =>
              Some (mk (fst (handleMessageError dlqId now (message f) error
                                                deadLetterQueue (store s)))
                       rest (handled s))
          | Running => None
          end
      | None => None
      end
  | Requeue newMessageId now messageId =>
      if fresh newMessageId s then
        Some (with_db
                (fst (requeueDeadLetterMessage newMessageId now messageId
                                               (db (store s))))
                s)
      else None
  | Cleanup now queueName =>
      Some (with_db (fst (cleanupExpiredMessages now queueName
                                                 (db (store s))))
                    s)
  end.

Fixpoint run (events : list Event) (s : t) : option t :=
  match events with
  | [] => Some s
  | e :: rest =>
      match step e s with
      | Some s' => run rest s'
      | None => None
      end
  end.

(** The states a run made of events in [allowed] can reach from [init]. *)
Inductive reachable_by (allowed : Event -> Prop) (init : t) : t -> Prop :=
| reach_init : reachable_by allowed init init
| reach_step (s s' : t) (e : Event) :
    reachable_by allowed init s ->
    allowed e ->
    step e s = Some s' ->
    reachable_by allowed init s'.

(** An engine that has just been started on a database whose [queues]
    table holds [names] and whose other tables are empty. *)
Definition initial (names : list string) : t :=
  mk (mkStore (mkDB names [] []) []) [] [].


(** How often the handler of [consumerId] has been invoked. *)
Definition invocations (consumerId : string) (s : t) : nat :=
  List.length
    (filter (fun entry => String.eqb (fst entry) consumerId) (handled s)).

(** The events of two consumers [c1] and [c2] of [queueName] whose
    handlers resolve: a poll, or the settling of a running handler. *)
Definition resolving_consumers (c1 c2 queueName : string) (e : Event)
  : Prop :=
  match e with
  | Poll c _ q _ => (c = c1 \/ c = c2) /\ q = queueName
  | Settle c _ _ _ outcome => (c = c1 \/ c = c2) /\ outcome = Resolved
  | _ => False
  end.

End System.

(** ** Vocabulary of the properties *)

(** The claimability predicate of the data model: pending, visible, and
    not past its deadline. *)
Definition claimable (now : Z) (r : Row.t) : Prop :=
  Row.status r = pending
  /\ (Row.available_at r <= seconds now)%Z
  /\ match Row.expires_at r with
     | None => True
     | Some e => (e > seconds now)%Z
     end.

(** [a] is served no later than [b]: higher priority first, and within a
    priority the older message first. *)
Definition served_before (a b : Message.t) : Prop :=
  (Message.priority b < Message.priority a)%Z
  \/ (Message.priority a = Message.priority b
      /\ (Message.createdAt a <= Message.createdAt b)%Z).



(** The row [r] after the updates that [fetchMessages] runs for the
    messages [ids]. *)
Definition claim_row (ids : list string) (now : Z) (r : Row.t) : Row.t :=
  if existsb (String.eqb (Row.id r)) ids
  then MessageQueue.set_processing now r
  else r.

(** The invariant of the bookkeeping: no id has two rows across
[messages] and the dead-letter copies, no message is in flight twice, a
message in flight is not pending in [messages], and it has no dead-letter
copy. *)
Record owned_once (s : System.t) : Prop := mk_owned_once {
  rows_once :
    NoDup (System.message_ids (MessageQueue.db (System.store s))
           ++ System.dead_letter_original_ids
                (MessageQueue.db (System.store s)));
  flights_once : NoDup (map System.flight_id (System.inflight s));
  flights_hidden :
    forall f r,
      In f (System.inflight s) ->
      In r (messages (MessageQueue.db (System.store s))) ->
      Row.id r = System.flight_id f ->
      Row.status r <> pending;
  flights_alive :
    forall f,
      In f (System.inflight s) ->
      ~ In (System.flight_id f)
           (System.dead_letter_original_ids
              (MessageQueue.db (System.store s)))
}.

(** What a consumer-side update leaves in the store: the same queues and
    dead letters, and the same rows but for those of [i], which [set]
    rewrites. *)
Definition updated_by (i : string) (set : Row.t -> Row.t) (d d' : DB)
  : Prop :=
  queues d' = queues d
  /\ dead_letter_messages d' = dead_letter_messages d
  /\ messages d'
     = map (fun r => if String.eqb (Row.id r) i then set r else r)
           (messages d).

(** The bookkeeping of two consumers [c1] and [c2] over a table that holds
the two messages [id1] and [id2]: a row has left [pending] exactly when a
handler has been invoked on it, no message has been handled twice, and
every invocation is by one of the two consumers. *)
Record two_messages (c1 c2 id1 id2 : string) (s : System.t) : Prop :=
  mk_two_messages {
  both_rows :
    System.message_ids (MessageQueue.db (System.store s)) = [id1; id2];
  handled_iff :
    forall r,
      In r (messages (MessageQueue.db (System.store s))) ->
      (Row.status r <> pending <-> In (Row.id r) (map snd (System.handled s)));
  handled_once : NoDup (map snd (System.handled s));
  handled_rows : incl (map snd (System.handled s)) [id1; id2];
  handled_by :
    forall entry, In entry (System.handled s) ->
                  fst entry = c1 \/ fst entry = c2
}.

(** The rows that are still to be claimed. *)
Definition is_pending (r : Row.t) : bool := Status_eqb (Row.status r) pending.

Definition pending_rows (d : DB) : list Row.t :=
  filter is_pending (messages d).

(** The polls of a run that ask for at least one message (a negative
    batch size asks for all of them), and the times of its polls. *)
Fixpoint effective_polls (events : list System.Event) : nat :=
  match events with
  | [] => 0%nat
  | System.Poll _ _ _ batchSize :: rest =>
      ((if Z.eqb batchSize 0 then 0 else 1) + effective_polls rest)%nat
  | _ :: rest => effective_polls rest
  end.

Fixpoint poll_times (events : list System.Event) : list Z :=
  match events with
  | [] => []
  | System.Poll _ now _ _ :: rest => now :: poll_times rest
  | _ :: rest => poll_times rest
  end.

(** ** The claim step in the words of the specification

    The specification words the claim step as a compare-and-swap: inside
    the transaction that selected them, every selected row is set to
    [processing] on the condition that it is still [pending] at the
    moment of the update, and a row whose conditional update fails is
    left out of the batch. [Conditional] follows those words, statement
    by statement; the properties compare it with [fetchMessages]. *)

Module Conditional.

Local Open Scope tx_scope.

(** [UPDATE messages SET status = 'processing', processing_time =
    strftime('%s','now') WHERE id = ? AND status = 'pending'], returning
    whether a row was updated. *)
Definition update_if_pending (now : Z) (messageId : string) : Tx.t bool :=
  fun db =>
    let swap r :=
      String.eqb (Row.id r) messageId
      && Status_eqb (Row.status r) pending in
    Ok (mkDB (queues db)
             (map (fun r => if swap r
                            then MessageQueue.set_processing now r
                            else r)
                  (messages db))
             (dead_letter_messages db),
        existsb swap (messages db)).

(** The conditional update of every selected message in turn; the batch
    keeps the messages whose update went through. *)
Fixpoint claim (now : Z) (msgs : list Message.t) : Tx.t (list Message.t) :=
  match msgs with
  | [] => Tx.ret []
  | msg :: rest =>
      updated <- update_if_pending now (Message.id msg) ;;
      claimed <- claim now rest ;;
      Tx.ret (if updated then msg :: claimed else claimed)
  end.

Definition fetchMessages (now : Z) (queueName : string) (limit : Z)
    (db : DB) : DB * Result (list Message.t) :=
  Tx.executeTransaction
    (rows <- Tx.read (MessageQueue.fetch_select queueName limit now) ;;
     claim now (map MessageQueue.rowToMessage rows))
    db.

End Conditional.

(** ** Concrete databases and messages used by the examples *)

Module Sample.

(** A row of the queue [orders] with payload [{}]. *)
Definition row (i : string) (st : Status)
    (priority retries max_retries created_at available_at : Z)
    (deduplication_id : option string) (expires_at : option Z) : Row.t :=
  Row.mk i "orders" "{}" st priority retries max_retries
         created_at available_at None None None None None
         deduplication_id expires_at.

(** The database of an engine whose only queue is [orders]. *)
Definition empty : DB := mkDB ["orders"] [] [].

(** A pending, visible message whose deadline (second 5) has passed at
    second 9. *)
Definition expired_row : Row.t := row "m1" pending 5 0 3 1 1 None (Some 5%Z).

Definition expired_db : DB := mkDB ["orders"] [expired_row] [].

(** A row as a claim query reads it. *)
Definition selected_row : Row.t := row "m1" pending 5 0 3 1 1 None None.

(** Three messages sent with priorities 1, 9 and 5, and a fourth of
    priority 5 created earlier than the third. *)
Definition priorities_db : DB :=
  mkDB ["orders"]
       [row "low" pending 1 0 3 1 1 None None;
        row "high" pending 9 0 3 2 2 None None;
        row "medium" pending 5 0 3 3 3 None None;
        row "older" pending 5 0 3 2 2 None None]
       [].

(** The message of [selected_row] once claimed at 9000 ms. *)
Definition claimed_message : Message.t :=
  MessageQueue.rowToMessage selected_row.

Definition claimed_store : MessageQueue.Store :=
  MessageQueue.mkStore
    (fst (MessageQueue.fetchMessages 9000 "orders" 1
            (mkDB ["orders"] [selected_row] [])))
    [].

(** A message that has failed once and has not been retried yet. *)
Definition failed_db : DB :=
  mkDB ["orders"] [row "m1" failed 5 0 3 1 1 None None] [].

(** Options that only name a deduplication id, or only a retry budget. *)
Definition dedup_k : SendOptions.t :=
  SendOptions.mk None None None None (Some "k") None.

Definition two_retries : SendOptions.t :=
  SendOptions.mk None None (Some 2%Z) None None None.

(** An engine on which a queue with the empty name is registered. *)
Definition unnamed_queue : DB := mkDB [""] [] [].

(** A message sent with [maxRetries = 2] to a consumer whose handler
    always rejects: the first two poll cycles, 50 ms apart. *)
Definition two_failures : list System.Event :=
  [System.Send QueueOptions.default "m1" 1000 "orders" (Data "{}")
               two_retries;
   System.Poll "c1" 1050 "orders" 1;
   System.Settle "c1" "m1" 1050 1060 (Rejected "Always fails");
   System.HandleError "c1" "m1" "d1" 1060 DeadLetterConfig.default;
   System.Poll "c1" 1100 "orders" 1;
   System.Settle "c1" "m1" 1100 1110 (Rejected "Always fails");
   System.HandleError "c1" "m1" "d2" 1110 DeadLetterConfig.default].

(** The cycle in which the message is next visible, a minute later. *)
Definition third_failure : list System.Event :=
  [System.Poll "c1" 61000 "orders" 1;
   System.Settle "c1" "m1" 61000 61010 (Rejected "Always fails");
   System.HandleError "c1" "m1" "d3" 61010 DeadLetterConfig.default].

(** A message of priority 9 with a budget of 7 retries, dead-lettered
    by a consumer that allows no retry. *)
Definition dead_lettered : option System.t :=
  System.run
    [System.Send QueueOptions.default "m1" 1000 "orders" (Data "{}")
                 (SendOptions.mk None (Some 9%Z) (Some 7%Z) None None None);
     System.Poll "c1" 1050 "orders" 1;
     System.Settle "c1" "m1" 1050 1060 (Rejected "Fail");
     System.HandleError "c1" "m1" "d1" 1060 (DeadLetterConfig.mk true 0)]
    (System.initial ["orders"]).

(** Two messages sent to [orders], and two consumers with the default
    batch size that poll one after the other and whose handlers resolve. *)
Definition two_sends : list System.Event :=
  [System.Send QueueOptions.default "m1" 1000 "orders" (Data "{}")
               SendOptions.none;
   System.Send QueueOptions.default "m2" 1010 "orders" (Data "{}")
               SendOptions.none].

Definition two_polls : list System.Event :=
  [System.Poll "c1" 1050 "orders" 1;
   System.Poll "c2" 1060 "orders" 1;
   System.Settle "c1" "m1" 1050 1070 Resolved;
   System.Settle "c2" "m2" 1060 1080 Resolved;
   System.Poll "c1" 2050 "orders" 1;
   System.Poll "c2" 2060 "orders" 1].


Definition dead_lettered_db : DB :=
  match dead_lettered with
  | Some s => MessageQueue.db (System.store s)
  | None => empty
  end.

End Sample.

(** ** The rest of [MessageQueue]: batches, listings, the poll loop and
    shutdown *)

Module BatchMessage.
(** [BatchMessage]: a payload and, optionally, the options of its send. *)
Record t : Type := mk {
  payload : Value;
  options : option SendOptions.t
}.
End BatchMessage.

Module BatchSendResult.
Record t : Type := mk {
  successful : list string;
  failed : list (BatchMessage.t * Thrown);
  batchId : string;
  timestamp : Z;
  duration : Z
}.
End BatchSendResult.

Module Batch.






End Batch.

Module DeadLetterMessage.
(** The objects [getDeadLetterMessages] builds. *)
Record t : Type := mk {
  id : string;
  originalId : string;
  queueName : string;
  payload : Value;
  errorMessage : string;
  retries : Z;
  createdAt : Z;
  originalCreatedAt : Z;
  metadata : option Value
}.
End DeadLetterMessage.

Module DeadLetterQueue.

Definition rowToDeadLetter (row : DeadRow.t) : DeadLetterMessage.t :=
  DeadLetterMessage.mk (DeadRow.id row) (DeadRow.original_id row)
    (DeadRow.queue_name row) (JSON_parse (DeadRow.payload row))
    (DeadRow.error_message row) (DeadRow.retries row)
    (date_of_seconds (DeadRow.created_at row))
    (date_of_seconds (DeadRow.original_created_at row))
    (option_map JSON_parse (truthy_string (DeadRow.metadata row))).

(** [SELECT * FROM dead_letter_messages WHERE queue_name = ? ORDER BY
    created_at DESC]. *)
Definition select (queueName : string) (db : DB) : list DeadRow.t :=
  Sql.order_by
    (fun a b => Z.leb (DeadRow.created_at b) (DeadRow.created_at a))
    (filter (fun r => String.eqb (DeadRow.queue_name r) queueName)
            (dead_letter_messages db)).

Definition getDeadLetterMessages (queueName : string) (db : DB)
  : list DeadLetterMessage.t :=
  map rowToDeadLetter (select queueName db).

End DeadLetterQueue.

Module Lifecycle.

(** [Array.prototype.slice(start, end)]: a negative index counts from
    the end, and both are clamped to the array. *)
Definition slice {T : Type} (array : list T) (start end_ : Z) : list T :=
  let len := Z.of_nat (List.length array) in
  let from := if Z.ltb start 0 then Z.max (len + start) 0
              else Z.min start len in
  let to := if Z.ltb end_ 0 then Z.max (len + end_) 0
            else Z.min end_ len in
  firstn (Z.to_nat (to - from)) (skipn (Z.to_nat from) array).

(** The [for] loop of [chunkArray], one iteration per unit of [fuel]:
    [None] when the fuel runs out before the loop condition fails. *)
Fixpoint chunkArray_loop {T : Type} (fuel : nat) (array : list T)
    (chunkSize i : Z) (chunks : list (list T)) : option (list (list T)) :=
  match fuel with
  | O => None
  | S fuel' =>
      if Z.ltb i (Z.of_nat (List.length array)) then
        chunkArray_loop fuel' array chunkSize (i + chunkSize)%Z
                        (chunks ++ [slice array i (i + chunkSize)%Z])
      else Some chunks
  end.

Definition chunkArray {T : Type} (fuel : nat) (array : list T)
    (chunkSize : Z) : option (list (list T)) :=
  chunkArray_loop fuel array chunkSize 0 [].

(** [this.consumers], a [Map] from queue name to the [Set] of the ids of
    its consumers: the entries in insertion order, each key once, each set
    without repetition. *)
Definition Consumers : Type := list (string * list string).

Definition Map_get (queueName : string) (consumers : Consumers)
  : option (list string) :=
  option_map snd
    (find (fun entry => String.eqb (fst entry) queueName) consumers).

Definition Map_has (queueName : string) (consumers : Consumers) : bool :=
  existsb (fun entry => String.eqb (fst entry) queueName) consumers.

(** [Map.prototype.set]: an existing key keeps its place. *)
Definition Map_set (queueName : string) (ids : list string)
    (consumers : Consumers) : Consumers :=
  if Map_has queueName consumers then
    map (fun entry =>
           if String.eqb (fst entry) queueName then (queueName, ids)
           else entry)
        consumers
  else consumers ++ [(queueName, ids)].

Definition Set_add (consumerId : string) (ids : list string) : list string :=
  if existsb (String.eqb consumerId) ids then ids else ids ++ [consumerId].

Definition Set_delete (consumerId : string) (ids : list string)
  : list string :=
  filter (fun i => negb (String.eqb i consumerId)) ids.

(** The registration at the start of [consume]:
    [if (!this.consumers.has(queueName)) this.consumers.set(queueName, new
    Set()); this.consumers.get(queueName)!.add(consumerId)]. *)
Definition register (queueName consumerId : string) (consumers : Consumers)
  : Consumers :=
  let consumers1 :=
    if negb (Map_has queueName consumers)
    then Map_set queueName [] consumers
    else consumers in
  match Map_get queueName consumers1 with
  | Some ids => Map_set queueName (Set_add consumerId ids) consumers1
  | None => consumers1
  end.

(** The stop function that [consume] returns:
    [this.consumers.get(queueName)?.delete(consumerId)]. *)
Definition stop (queueName consumerId : string) (consumers : Consumers)
  : Consumers :=
  match Map_get queueName consumers with
  | Some ids => Map_set queueName (Set_delete consumerId ids) consumers
  | None => consumers
  end.

(** [Array.from(this.consumers.values()).reduce((sum, set) => sum +
    set.size, 0)]. *)
Definition getActiveConsumerCount (consumers : Consumers) : nat :=
  fold_left (fun sum ids => (sum + List.length ids)%nat)
            (map snd consumers) 0%nat.

(** The [while] loop of [gracefulShutdown]. [observed k] is the registry
    as the loop finds it at its test after [k] waits of one second: while
    the loop sleeps, stop functions may run. The result is the number of
    waits; [None] when the fuel runs out first. *)
Fixpoint gracefulShutdown_loop (fuel attempts : nat)
    (observed : nat -> Consumers) : option nat :=
  match fuel with
  | O => None
  | S fuel' =>
      if Nat.ltb attempts 30
         && Nat.ltb 0 (getActiveConsumerCount (observed attempts))
      then gracefulShutdown_loop fuel' (S attempts) observed
      else Some attempts
  end.

(** [gracefulShutdown]: the flag it raises, and the number of one-second
    waits it makes. It writes nothing else. *)
Definition gracefulShutdown (fuel : nat) (observed : nat -> Consumers)
  : bool * option nat :=
  (true, gracefulShutdown_loop fuel 0 observed).

End Lifecycle.

Module Poller.

(** How a run of [processMessages] leaves the timer: not armed, or armed
    to run [processMessages] again after [delay] milliseconds. *)
Inductive Timer : Type :=
| NotArmed
| Armed (delay : Z).

(** What a run of [processMessages] has done by the time it returns: the
    database after its claim, the messages whose handler it has invoked,
    and the timer. *)
Record Cycle : Type := mkCycle {
  database : DB;
  invoked : list Message.t;
  timer : Timer
}.

(** [p()] for [p] an element of [processPromises]: the elements are the
    promises that the [async] callback returned, and calling a promise
    throws a [TypeError]. *)
Definition call_promise (p : Message.t) : Result unit :=
  Throw (Error "p is not a function").

(** [chunk.map(p => p())]. *)
Fixpoint map_call (chunk : list Message.t) : Result (list unit) :=
  match chunk with
  | [] => Ok []
  | p :: rest =>
      match call_promise p with
      | Ok v =>
          match map_call rest with
          | Ok vs => Ok (v :: vs)
          | Throw e => Throw e
          end
      | Throw e => Throw e
      end
  end.

(** [for (const chunk of chunks) await Promise.allSettled(chunk.map(p =>
    p()))]. *)
Fixpoint for_chunks (chunks : list (list Message.t)) : Result unit :=
  match chunks with
  | [] => Ok tt
  | chunk :: rest =>
      match map_call chunk with
      | Ok _ => for_chunks rest
      | Throw e => Throw e
      end
  end.

(** One run of the [processMessages] closure of [consume]. A promise of
    [processPromises] is named by the message it processes: the callback
    of [messages.map] is entered for every message, and each entry runs
    [processMessage] up to its first [await], which invokes the handler.
    [None]: [chunkArray] has not returned within [fuel] iterations. *)
Definition processMessages (fuel : nat) (isActive isShuttingDown : bool)
    (now : Z) (queueName : string) (batchSize pollInterval concurrency : Z)
    (db : DB) : option Cycle :=
  if negb isActive || isShuttingDown then Some (mkCycle db [] NotArmed)
  else
    match MessageQueue.fetchMessages now queueName batchSize db with
    | (db', Throw _) => Some (mkCycle db' [] (Armed (pollInterval * 2)))
    | (db', Ok messages) =>
        if Nat.eqb (List.length messages) 0 then
          Some (mkCycle db' [] (Armed pollInterval))
        else
          let processPromises := messages in
          match Lifecycle.chunkArray fuel processPromises concurrency with
          | None => None
          | Some chunks =>
              match for_chunks chunks with
              | Ok _ => Some (mkCycle db' messages (Armed pollInterval))
              | Throw _ =>
                  Some (mkCycle db' messages (Armed (pollInterval * 2)))
              end
          end
    end.

End Poller.

(** ** The whole call of [send] *)

Module Call.

(** What [JSON.stringify(message.payload)] makes of the payload of a
    call: a text; [undefined], for [undefined] itself, a function or a
    symbol; or a [TypeError], for a cyclic object or a BigInt. *)
Inductive Payload : Type :=
| Serialized (v : Value)
| Omitted
| Refused (message : string).

(** The time values of a [Date]: [new Date(ms)] is an invalid date
    outside this range. *)
Definition valid_Date (ms : Z) : Prop :=
  (-8640000000000000 <= ms <= 8640000000000000)%Z.

(** [send] on any payload. [JSON.stringify] runs inside the transaction
    callback, as an argument of [stmt.run]: when it throws, the
    transaction is rolled back; when it returns [undefined],
    better-sqlite3 binds NULL and the insert fails on
    [payload TEXT NOT NULL], which SQLite checks before the keys. *)
Definition send (self : QueueOptions.t) (messageId : string) (now : Z)
    (queueName : string) (payload : Payload) (options : SendOptions.t)
    (db : DB) : DB * Result string :=
  match payload with
  | Serialized v =>
      MessageQueue.send self messageId now queueName v options db
  | Omitted =>
      (db, Throw (Error "NOT NULL constraint failed: messages.payload"))
  | Refused message => (db, Throw (Error message))
  end.

End Call.

(** ** Vocabulary of the further properties *)

(** Every chunk but the last holds exactly [chunkSize] elements, and the
    last holds between one and [chunkSize]. *)
Fixpoint full_but_last {T : Type} (chunkSize : Z) (chunks : list (list T))
  : Prop :=
  match chunks with
  | [] => True
  | [c] => (0 < Z.of_nat (List.length c) <= chunkSize)%Z
  | c :: rest =>
      Z.of_nat (List.length c) = chunkSize /\ full_but_last chunkSize rest
  end.

(** A registry as [register] and [stop] keep it: each queue has one entry
    and no consumer id is repeated in a set. *)
Definition well_formed (consumers : Lifecycle.Consumers) : Prop :=
  NoDup (map fst consumers)
  /\ Forall (fun entry => NoDup (snd entry)) consumers.

(** A row is expired at [now]: it has a deadline and the deadline is
    before the current second. *)
Definition expired (now : Z) (r : Row.t) : bool :=
  match Row.expires_at r with
  | Some e => Z.ltb e (seconds now)
  | None => false
  end.

(** [consumerId] is in the set that the registry holds for [queueName]. *)
Definition registered (queueName consumerId : string)
    (consumers : Lifecycle.Consumers) : bool :=
  match Lifecycle.Map_get queueName consumers with
  | Some ids => existsb (String.eqb consumerId) ids
  | None => false
  end.

(** How often [i] occurs as the message of a handler invocation. *)
Definition count_id (i : string) (entries : list (string * string)) : nat :=
  List.length (filter (fun entry => String.eqb (snd entry) i) entries).

(** How often a handler has been invoked on the message [i]. *)
Definition deliveries (i : string) (s : System.t) : nat :=
  count_id i (System.handled s).

(** The ids that the sends and requeues of a run draw from [uuidv4()]. *)
Fixpoint issued_ids (events : list System.Event) : list string :=
  match events with
  | [] => []
  | System.Send _ messageId _ _ _ _ :: rest => messageId :: issued_ids rest
  | System.Requeue newMessageId _ _ :: rest =>
      newMessageId :: issued_ids rest
  | _ :: rest => issued_ids rest
  end.

(** The consumer that handles the error allows at most [c] retries. *)
Definition retries_capped (c : Z) (e : System.Event) : Prop :=
  match e with
  | System.HandleError _ _ _ _ deadLetterQueue =>
      (DeadLetterConfig.maxRetries deadLetterQueue <= c)%Z
  | _ => True
  end.

(** The retry budget of a row under a consumer cap [c]. *)
Definition budget (c : Z) (r : Row.t) : Z :=
  Z.max 0 (Z.min (Row.max_retries r) c).

(** The accounting of deliveries: a row has been handed to a handler
    once per retry it records, and once more when it is not pending; its
    retries stay within its budget; a message in flight carries the
    retries and the budget of its row, and has been delivered once more
    than it has been retried; so has every dead letter. *)
Record budgeted (c : Z) (s : System.t) : Prop := mk_budgeted {
  budget_rows :
    forall r,
      In r (messages (MessageQueue.db (System.store s))) ->
      Z.of_nat (deliveries (Row.id r) s)
      = (Row.retries r + (if is_pending r then 0 else 1))%Z
      /\ (0 <= Row.retries r <= budget c r)%Z;
  budget_flights :
    forall f,
      In f (System.inflight s) ->
      Z.of_nat (deliveries (System.flight_id f) s)
      = (Message.retries (System.message f) + 1)%Z;
  budget_snapshot :
    forall f r,
      In f (System.inflight s) ->
      In r (messages (MessageQueue.db (System.store s))) ->
      Row.id r = System.flight_id f ->
      Message.retries (System.message f) = Row.retries r
      /\ Message.maxRetries (System.message f) = Row.max_retries r;
  budget_dead :
    forall q,
      In q (dead_letter_messages (MessageQueue.db (System.store s))) ->
      Z.of_nat (deliveries (DeadRow.original_id q) s)
      = (DeadRow.retries q + 1)%Z
}.

(** No cleanup of the run finds [r] past its deadline. *)
Definition outlives (r : Row.t) (e : System.Event) : Prop :=
  match e with
  | System.Cleanup now _ => expired now r = false
  | _ => True
  end.

(** A database in which a consumer has died while it held [m1]: the row
    is [processing] and no handler is running. *)
Definition orphaned_row : Row.t :=
  Sample.row "m1" processing 5 0 3 1 1 None None.

Definition orphaned : System.t :=
  System.mk (MessageQueue.mkStore (mkDB ["orders"] [orphaned_row] []) [])
            [] [].

(** Later activity on the queue of [orphaned]. *)
Definition later_activity : list System.Event :=
  [System.Poll "c1" 5000 "orders" 10;
   System.Send QueueOptions.default "m2" 6000 "orders" (Data "{}")
               SendOptions.none;
   System.Poll "c2" 7000 "orders" (-1);
   System.Settle "c2" "m2" 7000 7010 Resolved;
   System.Cleanup 9000000 None;
   System.Poll "c1" 9000000 "orders" 10].

(** The status of the row of a message in flight: the race between its
    handler and the timeout is open, or the attempt has failed and the
    error is not handled yet. *)
Definition phase_status (p : System.Phase) : Status :=
  match p with
  | System.Running => processing
  | System.Failing _ => failed
  end.

(** An engine that has just been created on the database [d], with no
    consumer started yet: [d] may be what an earlier process has left,
    rows in [processing] included. *)
Definition opened (d : DB) : System.t :=
  System.mk (MessageQueue.mkStore d []) [] [].

(** The rows follow the attempts of an engine opened on [d0]: the row of
    a message in flight has the status of its phase, and a [processing]
    row has an attempt whose race is open, unless it is a row of [d0]
    that nobody has touched. *)
Record tracked (d0 : DB) (s : System.t) : Prop := mk_tracked {
  held_rows :
    forall f r,
      In f (System.inflight s) ->
      In r (messages (MessageQueue.db (System.store s))) ->
      Row.id r = System.flight_id f ->
      Row.status r = phase_status (System.phase f);
  processing_rows :
    forall r,
      In r (messages (MessageQueue.db (System.store s))) ->
      Row.status r = processing ->
      (exists f,
          In f (System.inflight s)
          /\ System.flight_id f = Row.id r
          /\ System.phase f = System.Running)
      \/ In r (messages d0)
}.

(** ** Queue statistics

    [message_stats] is written by two triggers of
    [DatabaseManager.createTriggers] and by nothing else, and
    [getQueueStats] is its only reader; it is modelled on its own, as the
    list of its rows. *)

Module Stats.

(** A row of [message_stats]. *)
Record t : Type := mk {
  queue_name : string;
  total_messages : Z;
  pending_messages : Z;
  processing_messages : Z;
  completed_messages : Z;
  failed_messages : Z;
  dead_letter_messages : Z;
  avg_processing_time : Z;
  last_updated : Z
}.

(** The table has no [throughput] column: the object that [SELECT *]
    returns has no such property. *)
Definition throughput (stats : t) : option Z := None.

(** [SELECT COUNT( * ) FROM messages WHERE queue_name = ? AND status = ?]. *)
Definition count (queueName : string) (st : Status) (rows : list Row.t)
  : Z :=
  Z.of_nat
    (List.length
       (filter (fun r => String.eqb (Row.queue_name r) queueName
                         && Status_eqb (Row.status r) st)
               rows)).

(** The trigger [update_message_stats], [AFTER UPDATE OF status ON
    messages]: [new] is the updated row and [rows] the table as the
    update leaves it. *)
Definition update_message_stats (now : Z) (new : Row.t) (rows : list Row.t)
    (stats : list t) : list t :=
  map (fun s =>
         if String.eqb (queue_name s) (Row.queue_name new)
         then mk (queue_name s) (total_messages s)
                 (count (Row.queue_name new) pending rows)
                 (count (Row.queue_name new) processing rows)
                 (count (Row.queue_name new) completed rows)
                 (count (Row.queue_name new) failed rows)
                 (dead_letter_messages s) (avg_processing_time s)
                 (seconds now)
         else s)
      stats.

(** The trigger [insert_message_stats], [AFTER INSERT ON messages]:
    [INSERT OR IGNORE] adds a row of defaults for a queue that has none,
    and the [UPDATE] counts the new message. *)
Definition insert_message_stats (now : Z) (new : Row.t) (stats : list t)
  : list t :=
  let stats1 :=
    if existsb (fun s => String.eqb (queue_name s) (Row.queue_name new))
               stats
    then stats
    else stats ++ [mk (Row.queue_name new) 0 0 0 0 0 0 0 (seconds now)] in
  map (fun s =>
         if String.eqb (queue_name s) (Row.queue_name new)
         then mk (queue_name s) (total_messages s + 1)
                 (pending_messages s + 1) (processing_messages s)
                 (completed_messages s) (failed_messages s)
                 (dead_letter_messages s) (avg_processing_time s)
                 (seconds now)
         else s)
      stats1.

End Stats.

Module QueueMetrics.
Record t : Type := mk {
  queueName : string;
  totalMessages : Z;
  pendingMessages : Z;
  processingMessages : Z;
  completedMessages : Z;
  failedMessages : Z;
  deadLetterMessages : Z;
  averageProcessingTime : Z;
  throughput : Z;
  lastUpdated : Z
}.
End QueueMetrics.

(** [getQueueStats]: [now] is the reading of [new Date()]. *)
Definition getQueueStats (now : Z) (queueName : string)
    (message_stats : list Stats.t) : QueueMetrics.t :=
  match find (fun s => String.eqb (Stats.queue_name s) queueName)
             message_stats with
  | None => QueueMetrics.mk queueName 0 0 0 0 0 0 0 0 now
  | Some stats =>
      QueueMetrics.mk queueName
        (Stats.total_messages stats)
        (Stats.pending_messages stats)
        (Stats.processing_messages stats)
        (Stats.completed_messages stats)
        (Stats.failed_messages stats)
        (Stats.dead_letter_messages stats)
        (Stats.avg_processing_time stats)
        (nullish (truthy_number (Stats.throughput stats)) 0)
        (date_of_seconds (Stats.last_updated stats))
  end.

(** The contents that [message_stats] can have: empty when the schema is
    created, and written by the two triggers, fired on any row with any
    contents of [messages]. *)
Inductive written_by_triggers : list Stats.t -> Prop :=
| stats_created : written_by_triggers []
| stats_after_insert (now : Z) (new : Row.t) (stats : list Stats.t) :
    written_by_triggers stats ->
    written_by_triggers (Stats.insert_message_stats now new stats)
| stats_after_update (now : Z) (new : Row.t) (rows : list Row.t)
    (stats : list Stats.t) :
    written_by_triggers stats ->
    written_by_triggers (Stats.update_message_stats now new rows stats).

(** * Properties *)

Unset Implicit Arguments.

(** ** Sorting, limiting and updating rows *)

Section OrderBy.

Variable A : Type.
Variable leb : A -> A -> bool.

Lemma insert_by_perm (x : A) (l : list A) :
  Permutation (x :: l) (Sql.insert_by leb x l).
Proof.
  induction l as [|y l IH]; simpl.
  - apply Permutation_refl.
  - destruct (leb x y).
    + apply Permutation_refl.
    + eapply perm_trans; [apply perm_swap|].
      apply perm_skip. exact IH.
Qed.

Lemma order_by_perm (l : list A) : Permutation l (Sql.order_by leb l).
Proof.
  induction l as [|x l IH]; simpl.
  - apply perm_nil.
  - eapply perm_trans; [|apply insert_by_perm].
    apply perm_skip. exact IH.
Qed.

Lemma order_by_In (x : A) (l : list A) :
  In x (Sql.order_by leb l) <-> In x l.
Proof.
  split; intro H.
  - eapply Permutation_in; [apply Permutation_sym, order_by_perm|exact H].
  - eapply Permutation_in; [apply order_by_perm|exact H].
Qed.

Hypothesis leb_total : forall a b, leb a b = true \/ leb b a = true.
Hypothesis leb_trans :
  forall a b c, leb a b = true -> leb b c = true -> leb a c = true.

Lemma insert_by_sorted (x : A) (l : list A) :
  StronglySorted (fun a b => leb a b = true) l ->
  StronglySorted (fun a b => leb a b = true) (Sql.insert_by leb x l).
Proof.
  induction 1 as [|y l Hs IH Hall]; simpl.
  - constructor; constructor.
  - destruct (leb x y) eqn:Hxy.
    + constructor.
      * constructor; assumption.
      * constructor; [exact Hxy|].
        rewrite Forall_forall in *. intros z Hz.
        eapply leb_trans; [exact Hxy|]. apply Hall, Hz.
    + constructor; [exact IH|].
      rewrite Forall_forall in *. intros z Hz.
      eapply Permutation_in in Hz;
        [|apply Permutation_sym, insert_by_perm].
      destruct Hz as [<-|Hz].
      * destruct (leb_total x y) as [H|H]; [congruence|exact H].
      * apply Hall, Hz.
Qed.

Lemma order_by_sorted (l : list A) :
  StronglySorted (fun a b => leb a b = true) (Sql.order_by leb l).
Proof.
  induction l as [|x l IH]; simpl.
  - constructor.
  - apply insert_by_sorted, IH.
Qed.

End OrderBy.

Section Limit.

Variable A : Type.

Lemma firstn_incl (k : nat) (x : A) (l : list A) :
  In x (firstn k l) -> In x l.
Proof.
  revert l. induction k as [|k IH]; intros [|y l]; simpl; try tauto.
  intros [H|H]; [left; exact H|right; apply IH, H].
Qed.

Lemma limit_In (n : Z) (x : A) (l : list A) :
  In x (Sql.limit n l) -> In x l.
Proof.
  unfold Sql.limit. destruct (Z.ltb n 0); [trivial|].
  apply firstn_incl.
Qed.

Lemma limit_length (n : Z) (l : list A) :
  (0 <= n)%Z -> (Z.of_nat (List.length (Sql.limit n l)) <= n)%Z.
Proof.
  intro Hn. unfold Sql.limit.
  destruct (Z.ltb_spec n 0) as [Hlt|_]; [lia|].
  rewrite length_firstn. lia.
Qed.

Lemma firstn_StronglySorted (R : A -> A -> Prop) (k : nat) (l : list A) :
  StronglySorted R l -> StronglySorted R (firstn k l).
Proof.
  intro Hs. revert k.
  induction Hs as [|x l Hs IH Hall]; intros [|k]; simpl; try constructor.
  - apply IH.
  - rewrite Forall_forall in *. intros y Hy.
    apply Hall. eapply firstn_incl, Hy.
Qed.

Lemma limit_StronglySorted (R : A -> A -> Prop) (n : Z) (l : list A) :
  StronglySorted R l -> StronglySorted R (Sql.limit n l).
Proof.
  intro Hs. unfold Sql.limit. destruct (Z.ltb n 0); [exact Hs|].
  apply firstn_StronglySorted, Hs.
Qed.

Lemma firstn_NoDup (k : nat) (l : list A) : NoDup l -> NoDup (firstn k l).
Proof.
  intro Hn. rewrite <- (firstn_skipn k l) in Hn.
  eapply NoDup_app_remove_r, Hn.
Qed.

End Limit.

(** ** The claim transaction *)

Section Fetch.

Import MessageQueue.

Lemma DB_eta (d : DB) :
  mkDB (queues d) (messages d) (dead_letter_messages d) = d.
Proof. destruct d; reflexivity. Qed.

Lemma forEach_update_eq (now : Z) (msgs : list Message.t) (d : DB) :
  forEach_update now msgs d
  = Ok (mkDB (queues d)
             (map (claim_row (map Message.id msgs) now) (messages d))
             (dead_letter_messages d),
        tt).
Proof.
  revert d. induction msgs as [|m msgs IH]; intro d; simpl.
  - unfold Tx.ret, claim_row; simpl. rewrite map_id, DB_eta. reflexivity.
  - unfold Tx.bind, updateStmt_run, Sql.update_message.
    rewrite IH; simpl. rewrite map_map.
    do 3 f_equal. apply map_ext. intro r.
    unfold claim_row; simpl.
    destruct (String.eqb (Row.id r) (Message.id m)) eqn:E; simpl.
    + destruct (existsb _ _); reflexivity.
    + reflexivity.
Qed.

Lemma fetch_claim_eq (now : Z) (rows : list Row.t) (d : DB) :
  fetch_claim now rows d
  = Ok (mkDB (queues d)
             (map (claim_row (map Row.id rows) now) (messages d))
             (dead_letter_messages d),
        map rowToMessage rows).
Proof.
  unfold fetch_claim, Tx.bind. rewrite forEach_update_eq.
  unfold Tx.ret. rewrite map_map. reflexivity.
Qed.

Lemma fetchMessages_eq (now : Z) (queueName : string) (limit : Z) (d : DB) :
  fetchMessages now queueName limit d
  = (mkDB (queues d)
          (map (claim_row (map Row.id (fetch_select queueName limit now d))
                          now)
               (messages d))
          (dead_letter_messages d),
     Ok (map rowToMessage (fetch_select queueName limit now d))).
Proof.
  unfold fetchMessages, Tx.executeTransaction, Tx.bind, Tx.read.
  rewrite fetch_claim_eq. reflexivity.
Qed.

Lemma fetch_select_In (queueName : string) (limit now : Z) (d : DB)
    (r : Row.t) :
  In r (fetch_select queueName limit now d) ->
  In r (messages d) /\ fetch_where queueName now r = true.
Proof.
  unfold fetch_select. intro H.
  apply limit_In, order_by_In, filter_In in H. exact H.
Qed.

Lemma fetch_where_true (queueName : string) (now : Z) (r : Row.t) :
  fetch_where queueName now r = true ->
  Row.queue_name r = queueName
  /\ Row.status r = pending
  /\ (Row.available_at r <= seconds now)%Z.
Proof.
  unfold fetch_where. intro H.
  apply andb_prop in H. destruct H as [H Ht].
  apply andb_prop in H. destruct H as [Hq Hs].
  repeat split.
  - apply String.eqb_eq, Hq.
  - destruct (Row.status r); simpl in Hs; congruence.
  - apply Z.leb_le, Ht.
Qed.

Lemma fetch_order_total (a b : Row.t) :
  fetch_order a b = true \/ fetch_order b a = true.
Proof.
  unfold fetch_order.
  destruct (Z.ltb_spec (Row.priority b) (Row.priority a)); [left; reflexivity|].
  destruct (Z.ltb_spec (Row.priority a) (Row.priority b)); [right; reflexivity|].
  assert (E : Row.priority a = Row.priority b) by lia.
  rewrite E, Z.eqb_refl. simpl.
  destruct (Z.leb_spec (Row.created_at a) (Row.created_at b));
    [left; reflexivity|right].
  apply Z.leb_le. lia.
Qed.

Lemma fetch_order_spec (a b : Row.t) :
  fetch_order a b = true <->
  (Row.priority b < Row.priority a)%Z
  \/ (Row.priority a = Row.priority b
      /\ (Row.created_at a <= Row.created_at b)%Z).
Proof.
  unfold fetch_order.
  rewrite orb_true_iff, andb_true_iff, Z.ltb_lt, Z.eqb_eq, Z.leb_le.
  reflexivity.
Qed.

Lemma fetch_order_trans (a b c : Row.t) :
  fetch_order a b = true -> fetch_order b c = true ->
  fetch_order a c = true.
Proof. rewrite !fetch_order_spec. lia. Qed.

Lemma fetch_select_sorted (queueName : string) (limit now : Z) (d : DB) :
  StronglySorted (fun a b => fetch_order a b = true)
                 (fetch_select queueName limit now d).
Proof.
  unfold fetch_select. apply limit_StronglySorted.
  apply order_by_sorted; [apply fetch_order_total|apply fetch_order_trans].
Qed.

Lemma StronglySorted_map (A B : Type) (R : A -> A -> Prop)
    (S : B -> B -> Prop) (f : A -> B) (l : list A) :
  (forall a b, R a b -> S (f a) (f b)) ->
  StronglySorted R l -> StronglySorted S (map f l).
Proof.
  intros HRS Hs. induction Hs as [|x l Hs IH Hall]; simpl; constructor.
  - exact IH.
  - rewrite Forall_forall in *. intros y Hy.
    apply in_map_iff in Hy. destruct Hy as [z [<- Hz]].
    apply HRS, Hall, Hz.
Qed.

Lemma rowToMessage_served (a b : Row.t) :
  fetch_order a b = true -> served_before (rowToMessage a) (rowToMessage b).
Proof.
  rewrite fetch_order_spec. unfold served_before, rowToMessage; simpl.
  unfold date_of_seconds. lia.
Qed.

End Fetch.

Section ClaimProtocol.

Import MessageQueue.

Lemma claim_row_In (ids : list string) (now : Z) (r : Row.t) :
  In (Row.id r) ids -> claim_row ids now r = set_processing now r.
Proof.
  intro H. unfold claim_row.
  destruct (existsb _ ids) eqn:E; [reflexivity|].
  assert (X : existsb (String.eqb (Row.id r)) ids = true).
  { apply existsb_exists. exists (Row.id r). split; [exact H|].
    apply String.eqb_refl. }
  congruence.
Qed.

Lemma claim_row_not_In (ids : list string) (now : Z) (r : Row.t) :
  ~ In (Row.id r) ids -> claim_row ids now r = r.
Proof.
  intro H. unfold claim_row.
  destruct (existsb _ ids) eqn:E; [|reflexivity].
  apply existsb_exists in E. destruct E as [i [Hi E]].
  apply String.eqb_eq in E. subst i. contradiction.
Qed.

(** C4, as the code has it. The claim query does not look at
    [expires_at]: a pending, visible message whose deadline has passed
    is returned although it is not claimable. *)
Lemma fetchMessages_returns_expired :
  ~ claimable 9000 Sample.expired_row
  /\ snd (fetchMessages 9000 "orders" 1 Sample.expired_db)
     = Ok [rowToMessage Sample.expired_row].
Proof.
  split; [|reflexivity].
  unfold claimable; simpl. intros (_ & _ & H).
  unfold seconds in H. vm_compute in H. discriminate H.
Qed.

(** C4 (amended). Every message of a batch comes from a row of the
    requested queue that was pending and visible ([available_at <= now]);
    a batch asked with a non-negative size has at most that many
    messages; and a batch is ordered by priority descending, then by
    creation time ascending. *)
Theorem fetchMessages_batch
    (now : Z) (queueName : string) (limit : Z) (d : DB) :
  exists d' batch,
    fetchMessages now queueName limit d = (d', Ok batch)
    /\ (forall m, In m batch ->
          exists r,
            In r (messages d)
            /\ m = rowToMessage r
            /\ Row.queue_name r = queueName
            /\ Row.status r = pending
            /\ (Row.available_at r <= seconds now)%Z)
    /\ ((0 <= limit)%Z -> (Z.of_nat (List.length batch) <= limit)%Z)
    /\ StronglySorted served_before batch.
Proof.
  do 2 eexists. split; [apply fetchMessages_eq|].
  split; [|split].
  - intros m Hm. apply in_map_iff in Hm. destruct Hm as [r [<- Hr]].
    apply fetch_select_In in Hr. destruct Hr as [Hin Hw].
    apply fetch_where_true in Hw. destruct Hw as (Hq & Hs & Ht).
    exists r. repeat split; assumption.
  - intro Hl. rewrite length_map. unfold fetch_select.
    apply limit_length, Hl.
  - eapply StronglySorted_map; [|apply fetch_select_sorted].
    apply rowToMessage_served.
Qed.

(** The batch of the priority test: priorities 1, 9, 5 come out as 9, 5,
    1, and of two messages of priority 5 the older one comes first. A
    negative batch size is no limit at all. *)
Example fetchMessages_priorities :
  option_map (map Message.id)
             (match snd (fetchMessages 9000 "orders" 4 Sample.priorities_db)
              with Ok batch => Some batch | Throw _ => None end)
  = Some ["high"; "older"; "medium"; "low"]
  /\ option_map (@List.length Message.t)
                (match snd (fetchMessages 9000 "orders" (-1)
                                          Sample.priorities_db)
                 with Ok batch => Some batch | Throw _ => None end)
     = Some 4%nat.
Proof. split; reflexivity. Qed.

Lemma fetchMessages_batch_witness :
  exists d' batch,
    fetchMessages 9000 "orders" 2 Sample.priorities_db = (d', Ok batch)
    /\ (Z.of_nat (List.length batch) <= 2)%Z
    /\ StronglySorted served_before batch.
Proof.
  destruct (fetchMessages_batch 9000 "orders" 2 Sample.priorities_db)
    as (d' & batch & Hf & _ & Hlen & Hsort).
  exists d', batch. split; [exact Hf|]. split; [apply Hlen; lia|exact Hsort].
Defined.

End ClaimProtocol.

(** ** Failure routing and retry *)

Section FailureRouting.

Import MessageQueue.

Lemma call_calls (T : Type) (c : StoreCall) (op : DB -> DB * Result T)
    (s : Store) :
  calls (fst (call c op s)) = calls s ++ [c].
Proof. unfold call. destruct (op (db s)); reflexivity. Qed.

Lemma markMessageFailed_Ok (now : Z) (i : string) (e : Thrown) (d : DB) :
  snd (markMessageFailed now i e d) = Ok tt.
Proof. reflexivity. Qed.

Lemma processMessage_failure (startTime now : Z) (message : Message.t)
    (outcome : HandlerOutcome) (s : Store) :
  outcome <> Resolved ->
  exists error,
    race outcome = Throw error
    /\ processMessage startTime now message outcome s
       = (fst (call (Call_markMessageFailed (Message.id message))
                    (markMessageFailed now (Message.id message) error) s),
          Throw error).
Proof.
  intro Hne. destruct outcome as [|msg|]; [congruence| |];
    eexists; (split; [reflexivity|]); reflexivity.
Qed.

Lemma handleMessageError_calls (dlqId : string) (now : Z)
    (message : Message.t) (error : Thrown) (cfg : DeadLetterConfig.t)
    (s : Store) :
  calls (fst (handleMessageError dlqId now message error cfg s))
  = calls s
    ++ [if Z.ltb (Message.retries message)
                 (Z.min (Message.maxRetries message)
                        (DeadLetterConfig.maxRetries cfg))
        then Call_retryMessage (Message.id message)
        else if DeadLetterConfig.enabled cfg
             then Call_moveToDeadLetter (Message.id message)
             else Call_markMessageFailed (Message.id message)].
Proof.
  unfold handleMessageError.
  destruct (Z.ltb _ _); [apply call_calls|].
  destruct (DeadLetterConfig.enabled cfg); apply call_calls.
Qed.

(** C5, as the code has it. A rejected attempt on a message that still
    has retries left calls two of the three operations: [processMessage]
    marks the message failed before it rethrows, and
    [handleMessageError] then schedules the retry. *)
Lemma failed_attempt_calls_two_operations :
  calls (attempt 9000 9500 9500 "d1" Sample.claimed_message
                 (Rejected "boom") DeadLetterConfig.default
                 Sample.claimed_store)
  = [Call_markMessageFailed "m1"; Call_retryMessage "m1"].
Proof. reflexivity. Qed.

(** C5 (amended). On a failed attempt (rejection, throw or timeout)
    [processMessage] first calls [markMessageFailed], and then
    [handleMessageError] calls exactly one operation, chosen with
    [maxRetries = min(message.maxRetries, deadLetterConfig.maxRetries)]:
    [retryMessage] if [message.retries < maxRetries], else
    [moveToDeadLetter] if dead-lettering is enabled, else
    [markMessageFailed]. *)
Theorem failed_attempt_routing
    (startTime now now' : Z) (dlqId : string) (message : Message.t)
    (outcome : HandlerOutcome) (cfg : DeadLetterConfig.t) (s : Store) :
  outcome <> Resolved ->
  exists routed,
    calls (attempt startTime now now' dlqId message outcome cfg s)
    = calls s ++ [Call_markMessageFailed (Message.id message); routed]
    /\ (forall error s0,
          calls (fst (handleMessageError dlqId now' message error cfg s0))
          = calls s0 ++ [routed])
    /\ ((Message.retries message
         < Z.min (Message.maxRetries message)
                 (DeadLetterConfig.maxRetries cfg))%Z ->
        routed = Call_retryMessage (Message.id message))
    /\ ((Z.min (Message.maxRetries message)
               (DeadLetterConfig.maxRetries cfg)
         <= Message.retries message)%Z ->
        DeadLetterConfig.enabled cfg = true ->
        routed = Call_moveToDeadLetter (Message.id message))
    /\ ((Z.min (Message.maxRetries message)
               (DeadLetterConfig.maxRetries cfg)
         <= Message.retries message)%Z ->
        DeadLetterConfig.enabled cfg = false ->
        routed = Call_markMessageFailed (Message.id message)).
Proof.
  intro Hne.
  destruct (processMessage_failure startTime now message outcome s Hne)
    as (error & _ & Hp).
  eexists. split; [|split; [|split; [|split]]].
  - unfold attempt. rewrite Hp.
    rewrite handleMessageError_calls, call_calls, <- app_assoc.
    reflexivity.
  - intros. apply handleMessageError_calls.
  - intro Hlt. apply Z.ltb_lt in Hlt. rewrite Hlt. reflexivity.
  - intros Hge Hen. apply Z.ltb_ge in Hge. rewrite Hge, Hen. reflexivity.
  - intros Hge Hen. apply Z.ltb_ge in Hge. rewrite Hge, Hen. reflexivity.
Qed.

Lemma failed_attempt_routing_witness :
  exists routed,
    calls (attempt 9000 9500 9500 "d1" Sample.claimed_message TimedOut
                   DeadLetterConfig.default Sample.claimed_store)
    = calls Sample.claimed_store ++ [Call_markMessageFailed "m1"; routed]
    /\ routed = Call_retryMessage "m1".
Proof.
  destruct (failed_attempt_routing 9000 9500 9500 "d1"
              Sample.claimed_message TimedOut
              DeadLetterConfig.default Sample.claimed_store)
    as (routed & Hc & _ & Hr & _).
  - discriminate.
  - exists routed. split; [exact Hc|]. apply Hr. simpl. lia.
Defined.

(** C7, as the code has it. The first retry of a message (its row has
    [retries = 0]) becomes visible at once: [available_at] is the second
    of the retry, not a minute later. *)
Lemma first_retry_is_immediate :
  map (fun r => (Row.status r, Row.retries r, Row.available_at r))
      (messages (fst (retryMessage 10000 "m1" (Error "boom")
                                   Sample.failed_db)))
  = [(pending, 1%Z, seconds 10000)]
  /\ seconds 10000 <> (seconds 10000 + 1 * 60)%Z.
Proof. split; [reflexivity|]. vm_compute. discriminate. Qed.

(** C7 (amended). [retryMessage] sets the status of the message to
    [pending], increments [retries] by one and sets [available_at] to
    the current second plus 60 seconds times the retry count the row
    had before the increment; the other rows are not touched. *)
Theorem retryMessage_backoff
    (now : Z) (messageId : string) (error : Thrown) (d : DB) (r : Row.t) :
  In r (messages d) ->
  Row.id r = messageId ->
  exists d' r',
    retryMessage now messageId error d = (d', Ok tt)
    /\ In r' (messages d')
    /\ Row.id r' = messageId
    /\ Row.status r' = pending
    /\ Row.retries r' = (Row.retries r + 1)%Z
    /\ Row.available_at r' = (seconds now + Row.retries r * 60)%Z
    /\ List.length (messages d') = List.length (messages d)
    /\ (forall r0, In r0 (messages d) -> Row.id r0 <> messageId ->
          In r0 (messages d')).
Proof.
  intros Hin Hid.
  eexists. exists (set_retry now r).
  split; [reflexivity|]. simpl.
  split; [|split; [exact Hid|split; [reflexivity|split; [reflexivity|
          split; [reflexivity|split]]]]].
  - apply in_map_iff. exists r. split; [|exact Hin].
    rewrite Hid, String.eqb_refl. reflexivity.
  - apply length_map.
  - intros r0 Hin0 Hne. apply in_map_iff. exists r0. split; [|exact Hin0].
    destruct (String.eqb_spec (Row.id r0) messageId); [contradiction|].
    reflexivity.
Qed.

Lemma retryMessage_backoff_witness :
  exists d' r',
    retryMessage 10000 "m1" (Error "boom") Sample.failed_db = (d', Ok tt)
    /\ In r' (messages d')
    /\ Row.retries r' = 1%Z
    /\ Row.available_at r' = 10%Z.
Proof.
  destruct (retryMessage_backoff 10000 "m1" (Error "boom")
              Sample.failed_db
              (Sample.row "m1" failed 5 0 3 1 1 None None))
    as (d' & r' & Hr & Hin & _ & _ & Hret & Hav & _).
  - simpl. left. reflexivity.
  - reflexivity.
  - exists d', r'. repeat split; assumption.
Defined.

End FailureRouting.

(** ** Dead letters *)

Section DeadLetters.

Import MessageQueue.

Lemma get_dead_letter_deleted (i : string) (l : list DeadRow.t) :
  find (fun r => String.eqb (DeadRow.id r) i)
       (filter (fun r => negb (String.eqb (DeadRow.id r) i)) l)
  = None.
Proof.
  induction l as [|x l IH]; simpl; [reflexivity|].
  destruct (String.eqb (DeadRow.id x) i) eqn:E; simpl; [exact IH|].
  rewrite E. exact IH.
Qed.

(** C10. Requeueing an existing dead-letter row inserts a pending
    message with priority 5, a retry budget of 3, no retries, and
    creation and visibility times both equal to the second of the
    requeue; it carries the queue, payload and metadata of the
    dead-letter row, whose own row is deleted. Nothing of the priority
    or budget of the original message enters the new row. *)
Theorem requeue_fixes_priority_and_budget
    (newMessageId : string) (now : Z) (messageId : string)
    (d : DB) (dlq : DeadRow.t) :
  get_dead_letter messageId d = Some dlq ->
  Sql.has_message newMessageId d = false ->
  Sql.has_queue (DeadRow.queue_name dlq) d = true ->
  exists d' r',
    requeueDeadLetterMessage newMessageId now messageId d = (d', Ok tt)
    /\ messages d' = messages d ++ [r']
    /\ Row.id r' = newMessageId
    /\ Row.queue_name r' = DeadRow.queue_name dlq
    /\ Row.payload r' = DeadRow.payload dlq
    /\ Row.metadata r' = DeadRow.metadata dlq
    /\ Row.status r' = pending
    /\ Row.priority r' = 5%Z
    /\ Row.max_retries r' = 3%Z
    /\ Row.retries r' = 0%Z
    /\ Row.created_at r' = seconds now
    /\ Row.available_at r' = seconds now
    /\ get_dead_letter messageId d' = None.
Proof.
  intros Hget Hfresh Hqueue.
  unfold requeueDeadLetterMessage, Tx.executeTransaction, Tx.bind, Tx.read.
  rewrite Hget. unfold Sql.insert_message; simpl.
  rewrite Hfresh, Hqueue; simpl.
  do 2 eexists. split; [reflexivity|]. simpl.
  repeat (split; [reflexivity|]).
  unfold get_dead_letter; simpl. apply get_dead_letter_deleted.
Qed.

Lemma requeue_fixes_priority_and_budget_witness :
  exists d' r',
    requeueDeadLetterMessage "m2" 70000 "d1" Sample.dead_lettered_db
    = (d', Ok tt)
    /\ messages d' = [r']
    /\ Row.priority r' = 5%Z
    /\ Row.max_retries r' = 3%Z
    /\ Row.retries r' = 0%Z
    /\ Row.created_at r' = 70%Z
    /\ Row.available_at r' = 70%Z.
Proof.
  destruct (requeue_fixes_priority_and_budget "m2" 70000 "d1"
              Sample.dead_lettered_db
              (DeadRow.mk "d1" "m1" "orders" "{}" "Fail" 0 1 1 None))
    as (d' & r' & H).
  - reflexivity.
  - reflexivity.
  - reflexivity.
  - exists d', r'. intuition.
Defined.

(** C6, on the code. With [maxRetries = 2] and a handler that always
    rejects, two invocations leave the message in [messages], pending
    with [retries = 2] and hidden until second 61, and the dead-letter
    table empty; the move to the dead-letter table happens in the cycle
    of the third invocation. *)
Theorem always_failing_handler_runs_three_times :
  (exists s2,
      System.run Sample.two_failures (System.initial ["orders"]) = Some s2
      /\ System.invocations "c1" s2 = 2%nat
      /\ dead_letter_messages (db (System.store s2)) = []
      /\ map (fun r => (Row.id r, Row.status r, Row.retries r,
                        Row.available_at r))
             (messages (db (System.store s2)))
         = [("m1", pending, 2%Z, 61%Z)]
      /\ snd (fetchMessages 1500 "orders" 1 (db (System.store s2))) = Ok [])
  /\ (exists s3,
        System.run (Sample.two_failures ++ Sample.third_failure)
                   (System.initial ["orders"]) = Some s3
        /\ System.invocations "c1" s3 = 3%nat
        /\ map DeadRow.original_id
               (dead_letter_messages (db (System.store s3))) = ["m1"]
        /\ messages (db (System.store s3)) = []).
Proof.
  split; eexists; (split; [vm_compute; reflexivity|]);
    repeat split; reflexivity.
Qed.

End DeadLetters.

(** ** The producer *)

Section Producer.

Import MessageQueue.

(** What [send] resolves to is the id it generated: no path of the
    transaction returns the id of a row found by the duplicate check. *)
Lemma send_returns_own_id (self : QueueOptions.t) (messageId : string)
    (now : Z) (queueName : string) (payload : Value)
    (options : SendOptions.t) (d : DB) (i : string) :
  snd (send self messageId now queueName payload options d) = Ok i ->
  i = messageId.
Proof.
  unfold send, Tx.executeTransaction, Tx.bind.
  destruct (Sql.insert_message _ d) as [[d1 []]|e]; [|simpl; discriminate].
  destruct (truthy_string (SendOptions.deduplicationId options)) as [k|].
  - unfold Tx.read.
    destruct (select_duplicate queueName k d1) as [existing|].
    + destruct (negb (String.eqb (Row.id existing) messageId)); simpl;
        [discriminate|]. intro H. inversion H. reflexivity.
    + simpl. intro H. inversion H. reflexivity.
  - simpl. intro H. inversion H. reflexivity.
Qed.

(** C3, on the code. A second [send] with the same queue and
    deduplication id, four seconds after the first, is not a no-op: the
    duplicate check of the transaction orders by [created_at DESC] and
    so finds the row just inserted, the row stays, and the call
    resolves to the new id. Two rows then carry the pair. *)
Theorem second_send_inserts_duplicate :
  exists d1 d2,
    send QueueOptions.default "m1" 1000 "orders" (Data "{}")
         Sample.dedup_k Sample.empty = (d1, Ok "m1")
    /\ send QueueOptions.default "m2" 5000 "orders" (Data "{}")
            Sample.dedup_k d1 = (d2, Ok "m2")
    /\ map (fun r => (Row.id r, Row.queue_name r, Row.deduplication_id r,
                      Row.status r))
           (messages d2)
       = [("m1", "orders", Some "k", pending);
          ("m2", "orders", Some "k", pending)].
Proof. do 2 eexists. repeat split; reflexivity. Qed.

(** C8, on the code. [send] has no validation step. With the empty
    queue name the insert is attempted: it succeeds when a queue of that
    name is registered, and otherwise fails on the foreign key, as it
    does for any unregistered name. A [null] payload is stored as the
    text [null]. *)
Theorem send_does_not_validate :
  (exists d',
      send QueueOptions.default "m1" 1000 "" (Data "{}") SendOptions.none
           Sample.unnamed_queue = (d', Ok "m1")
      /\ map Row.queue_name (messages d') = [""])
  /\ snd (send QueueOptions.default "m1" 1000 "" (Data "{}")
               SendOptions.none Sample.empty)
     = Throw SqliteConstraintForeignKey
  /\ snd (send QueueOptions.default "m1" 1000 "billing" (Data "{}")
               SendOptions.none Sample.empty)
     = Throw SqliteConstraintForeignKey
  /\ (exists d',
        send QueueOptions.default "m1" 1000 "orders" Null SendOptions.none
             Sample.empty = (d', Ok "m1")
        /\ map Row.payload (messages d') = ["null"]).
Proof.
  split; [eexists; split; reflexivity|].
  split; [reflexivity|]. split; [reflexivity|].
  eexists; split; reflexivity.
Qed.

End Producer.

(** ** One row per message id *)

Section ListFacts.

Variables A B : Type.

Lemma NoDup_app_disjoint (l1 l2 : list A) (x : A) :
  NoDup (l1 ++ l2) -> In x l1 -> ~ In x l2.
Proof.
  induction l1 as [|y l1 IH]; simpl; [tauto|].
  intros Hn [Hx|Hx] H2; inversion Hn as [|? ? Hy Hn']; subst.
  - apply Hy, in_or_app. right. exact H2.
  - exact (IH Hn' Hx H2).
Qed.

Lemma NoDup_map_filter (keep : A -> bool) (key : A -> B) (rows : list A) :
  NoDup (map key rows) -> NoDup (map key (filter keep rows)).
Proof.
  intro Hn. induction rows as [|x rows IH]; simpl; [constructor|].
  simpl in Hn. inversion Hn as [|? ? Hx Hn']; subst.
  destruct (keep x); simpl; [|apply IH, Hn'].
  constructor; [|apply IH, Hn'].
  intro Hin. apply Hx.
  apply in_map_iff in Hin. destruct Hin as [y [Hy Hin]].
  apply filter_In in Hin. apply in_map_iff. exists y. tauto.
Qed.

Lemma In_map_filter (keep : A -> bool) (key : A -> B) (rows : list A)
    (k : B) :
  In k (map key (filter keep rows)) -> In k (map key rows).
Proof.
  intro H. apply in_map_iff in H. destruct H as [x [Hx Hin]].
  apply filter_In in Hin. apply in_map_iff. exists x. tauto.
Qed.

Lemma NoDup_snoc (l : list A) (x : A) :
  NoDup l -> ~ In x l -> NoDup (l ++ [x]).
Proof.
  intros Hn Hx. apply NoDup_app; [exact Hn|repeat constructor; simpl; tauto|].
  intros a Ha [<-|[]]. contradiction.
Qed.

End ListFacts.

Section Effects.

Import MessageQueue.

Lemma existsb_eqb_In (i : string) (l : list string) :
  existsb (String.eqb i) l = true <-> In i l.
Proof.
  rewrite existsb_exists. split.
  - intros [x [Hx E]]. apply String.eqb_eq in E. subst x. exact Hx.
  - intro H. exists i. split; [exact H|apply String.eqb_refl].
Qed.

Lemma has_message_false (i : string) (d : DB) :
  Sql.has_message i d = false -> ~ In i (System.message_ids d).
Proof.
  unfold Sql.has_message, System.message_ids. intros H Hin.
  apply in_map_iff in Hin. destruct Hin as [r [Hr Hin]].
  assert (X : existsb (fun r => String.eqb (Row.id r) i) (messages d) = true).
  { apply existsb_exists. exists r. split; [exact Hin|].
    rewrite Hr. apply String.eqb_refl. }
  congruence.
Qed.

(** An [UPDATE ... WHERE id = ?] keeps the ids, in order. *)
Lemma update_ids (i : string) (set : Row.t -> Row.t) (l : list Row.t) :
  (forall r, Row.id (set r) = Row.id r) ->
  map Row.id (map (fun r => if String.eqb (Row.id r) i then set r else r) l)
  = map Row.id l.
Proof.
  intro Hid. rewrite map_map. apply map_ext. intro r.
  destruct (String.eqb (Row.id r) i); [apply Hid|reflexivity].
Qed.

Lemma claim_row_id (ids : list string) (now : Z) (r : Row.t) :
  Row.id (claim_row ids now r) = Row.id r.
Proof. unfold claim_row. destruct (existsb _ ids); reflexivity. Qed.

Lemma processMessage_effect (startTime now : Z) (message : Message.t)
    (outcome : HandlerOutcome) (s : Store) :
  exists set,
    (forall r, Row.id (set r) = Row.id r /\ Row.status (set r) <> pending)
    /\ updated_by (Message.id message) set (db s)
         (db (fst (processMessage startTime now message outcome s))).
Proof.
  destruct outcome as [|msg|].
  - exists (set_completed now (now - startTime)).
    split; [intro r; split; [reflexivity|discriminate]|].
    repeat split.
  - exists (set_failed now msg).
    split; [intro r; split; [reflexivity|discriminate]|].
    repeat split.
  - exists (set_failed now "Message processing timeout").
    split; [intro r; split; [reflexivity|discriminate]|].
    repeat split.
Qed.

Lemma send_effect (self : QueueOptions.t) (messageId : string) (now : Z)
    (queueName : string) (payload : Value) (options : SendOptions.t)
    (d : DB) :
  fst (send self messageId now queueName payload options d) = d
  \/ exists r,
       Row.id r = messageId
       /\ Sql.has_message messageId d = false
       /\ fst (send self messageId now queueName payload options d)
          = mkDB (queues d) (messages d ++ [r]) (dead_letter_messages d)
       /\ Row.status r = pending.
Proof.
  unfold send, Tx.executeTransaction, Tx.bind, Sql.insert_message.
  cbn [Row.id Row.queue_name].
  destruct (Sql.has_message messageId d) eqn:Hm; [left; reflexivity|].
  destruct (negb (Sql.has_queue queueName d)); [left; reflexivity|].
  cbv beta iota.
  destruct (truthy_string (SendOptions.deduplicationId options)) as [k|].
  - unfold Tx.read. destruct (select_duplicate _ _ _) as [existing|].
    + destruct (negb (String.eqb (Row.id existing) messageId)).
      * left. reflexivity.
      * right. eexists.
        refine (conj _ (conj _ (conj _ _)));
          [|reflexivity|reflexivity|]; reflexivity.
    + right. eexists.
        refine (conj _ (conj _ (conj _ _)));
          [|reflexivity|reflexivity|]; reflexivity.
  - right. eexists.
        refine (conj _ (conj _ (conj _ _)));
          [|reflexivity|reflexivity|]; reflexivity.
Qed.

Lemma moveToDeadLetter_effect (dlqId : string) (now : Z) (message : Message.t)
    (error : Thrown) (d : DB) :
  (exists e, moveToDeadLetter dlqId now message error d = (d, Throw e))
  \/ exists copy,
       DeadRow.original_id copy = Message.id message
       /\ moveToDeadLetter dlqId now message error d
          = (mkDB (queues d)
                  (filter (fun r => negb (String.eqb (Row.id r)
                                                     (Message.id message)))
                          (messages d))
                  (dead_letter_messages d ++ [copy]),
             Ok tt).
Proof.
  unfold moveToDeadLetter, Tx.executeTransaction, Tx.bind,
    Sql.insert_dead_letter; simpl.
  destruct (Sql.has_dead_letter dlqId d); [left; eexists; reflexivity|].
  destruct (negb (Sql.has_queue (Message.queueName message) d));
    [left; eexists; reflexivity|].
  right. eexists. split; [|reflexivity]. reflexivity.
Qed.

Lemma requeue_effect (newMessageId : string) (now : Z) (messageId : string)
    (d : DB) :
  fst (requeueDeadLetterMessage newMessageId now messageId d) = d
  \/ exists r,
       Row.id r = newMessageId
       /\ fst (requeueDeadLetterMessage newMessageId now messageId d)
          = mkDB (queues d) (messages d ++ [r])
                 (filter (fun x => negb (String.eqb (DeadRow.id x) messageId))
                         (dead_letter_messages d)).
Proof.
  unfold requeueDeadLetterMessage, Tx.executeTransaction, Tx.bind, Tx.read.
  destruct (get_dead_letter messageId d) as [dlq|]; [|left; reflexivity].
  unfold Sql.insert_message; simpl.
  destruct (Sql.has_message newMessageId d); [left; reflexivity|].
  destruct (negb (Sql.has_queue (DeadRow.queue_name dlq) d));
    [left; reflexivity|].
  right. eexists. split; [|reflexivity]. reflexivity.
Qed.

Lemma cleanup_effect (now : Z) (queueName : option string) (d : DB) :
  exists p,
    fst (cleanupExpiredMessages now queueName d)
    = mkDB (queues d) (filter p (messages d)) (dead_letter_messages d).
Proof.
  unfold cleanupExpiredMessages, Tx.executeTransaction.
  destruct (truthy_string queueName).
  - exists (fun _ => true). simpl.
    assert (E : filter (fun _ : Row.t => true) (messages d) = messages d).
    { induction (messages d) as [|x l IH]; simpl; [reflexivity|].
      rewrite IH. reflexivity. }
    rewrite E. symmetry. apply DB_eta.
  - eexists. reflexivity.
Qed.

End Effects.

Section Ownership.

Import MessageQueue.

Lemma take_flight_Some (sel : System.Flight -> bool) (c i : string)
    (l : list System.Flight) (f : System.Flight) (rest : list System.Flight) :
  System.take_flight sel c i l = Some (f, rest) ->
  System.flight_id f = i /\ sel f = true /\ Permutation l (f :: rest).
Proof.
  revert f rest. induction l as [|g l IH]; intros f rest; simpl;
    [discriminate|].
  destruct (String.eqb (System.consumer g) c
            && String.eqb (System.flight_id g) i && sel g) eqn:E.
  - intro H. inversion H; subst.
    apply andb_prop in E. destruct E as [E Hs].
    apply andb_prop in E. destruct E as [_ Hi].
    apply String.eqb_eq in Hi. repeat split; try assumption.
    apply Permutation_refl.
  - destruct (System.take_flight sel c i l) as [[g' rest']|];
      [|discriminate].
    intro H. inversion H; subst.
    destruct (IH f rest' eq_refl) as (Hi & Hs & Hp).
    repeat split; try assumption.
    eapply perm_trans; [apply perm_skip, Hp|apply perm_swap].
Qed.

(** The flights that stay after one of them has been taken out. *)
Lemma flights_after_take (s : System.t) (f : System.Flight)
    (rest : list System.Flight) :
  owned_once s ->
  Permutation (System.inflight s) (f :: rest) ->
  In f (System.inflight s)
  /\ NoDup (map System.flight_id rest)
  /\ (forall g, In g rest ->
        In g (System.inflight s) /\ System.flight_id g <> System.flight_id f).
Proof.
  intros Hinv Hp.
  pose proof (flights_once Hinv) as Hn.
  apply (Permutation_NoDup (Permutation_map System.flight_id Hp)) in Hn.
  simpl in Hn. inversion Hn as [|? ? Hf Hrest]; subst.
  split; [|split].
  - eapply Permutation_in; [apply Permutation_sym, Hp|left; reflexivity].
  - exact Hrest.
  - intros g Hg. split.
    + eapply Permutation_in; [apply Permutation_sym, Hp|right; exact Hg].
    + intro E. apply Hf. rewrite <- E. apply in_map, Hg.
Qed.

(** An update of the rows of [i] preserves the invariant for flights
    taken among the old ones, when it does not make a row pending or when
    no remaining flight is on [i]. *)
Lemma owned_once_update (s : System.t) (d' : DB) (c' : list StoreCall)
    (fl' : list System.Flight) (h' : list (string * string))
    (i : string) (set : Row.t -> Row.t) :
  owned_once s ->
  updated_by i set (db (System.store s)) d' ->
  (forall r, Row.id (set r) = Row.id r) ->
  NoDup (map System.flight_id fl') ->
  (forall g, In g fl' ->
     exists f, In f (System.inflight s)
               /\ System.flight_id f = System.flight_id g) ->
  (forall r, Row.status (set r) <> pending)
  \/ (forall g, In g fl' -> System.flight_id g <> i) ->
  owned_once (System.mk (mkStore d' c') fl' h').
Proof.
  intros Hinv (Hq & Hd & Hm) Hid Hn Hsub Hcase.
  constructor; simpl.
  - unfold System.message_ids, System.dead_letter_original_ids.
    rewrite Hm, Hd, update_ids by exact Hid.
    apply (rows_once Hinv).
  - exact Hn.
  - intros g r' Hg Hr' Heq. rewrite Hm in Hr'.
    apply in_map_iff in Hr'. destruct Hr' as [r [Hr Hin]].
    destruct (Hsub g Hg) as (f & Hf & Hfg).
    destruct (String.eqb_spec (Row.id r) i) as [Ei|Ei]; subst r'.
    + destruct Hcase as [Hs|Hne]; [apply Hs|].
      exfalso. apply (Hne g Hg). rewrite <- Heq, Hid. exact Ei.
    + apply (flights_hidden Hinv f r Hf Hin). congruence.
  - intros g Hg. unfold System.dead_letter_original_ids. rewrite Hd.
    destruct (Hsub g Hg) as (f & Hf & Hfg). rewrite <- Hfg.
    apply (flights_alive Hinv f Hf).
Qed.

(** Dropping rows of [messages] and dead letters, and dropping flights,
    preserves the invariant. *)
Lemma owned_once_shrink (s : System.t) (d' : DB) (c' : list StoreCall)
    (fl' : list System.Flight) (h' : list (string * string))
    (p : Row.t -> bool) (q : DeadRow.t -> bool) :
  owned_once s ->
  messages d' = filter p (messages (db (System.store s))) ->
  dead_letter_messages d'
  = filter q (dead_letter_messages (db (System.store s))) ->
  NoDup (map System.flight_id fl') ->
  (forall g, In g fl' -> In g (System.inflight s)) ->
  owned_once (System.mk (mkStore d' c') fl' h').
Proof.
  intros Hinv Hm Hd Hn Hsub.
  pose proof (rows_once Hinv) as Hrows.
  constructor; simpl.
  - unfold System.message_ids, System.dead_letter_original_ids.
    rewrite Hm, Hd. apply NoDup_app.
    + apply NoDup_map_filter. eapply NoDup_app_remove_r, Hrows.
    + apply NoDup_map_filter. eapply NoDup_app_remove_l, Hrows.
    + intros a Ha Hb. apply In_map_filter in Ha. apply In_map_filter in Hb.
      exact (NoDup_app_disjoint _ _ _ _ Hrows Ha Hb).
  - exact Hn.
  - intros g r Hg Hr. rewrite Hm in Hr. apply filter_In in Hr.
    apply (flights_hidden Hinv g r (Hsub g Hg)). tauto.
  - intros g Hg Hin. unfold System.dead_letter_original_ids in Hin.
    rewrite Hd in Hin. apply In_map_filter in Hin.
    exact (flights_alive Hinv g (Hsub g Hg) Hin).
Qed.

Lemma filter_true (T : Type) (rows : list T) :
  filter (fun _ : T => true) rows = rows.
Proof.
  induction rows as [|x rows IH]; simpl; [|rewrite IH]; reflexivity.
Qed.

(** Keeping the database and dropping flights preserves the invariant. *)
Lemma owned_once_flights (s : System.t) (c' : list StoreCall)
    (fl' : list System.Flight) (h' : list (string * string)) :
  owned_once s ->
  NoDup (map System.flight_id fl') ->
  (forall g, In g fl' -> In g (System.inflight s)) ->
  owned_once (System.mk (mkStore (db (System.store s)) c') fl' h').
Proof.
  intros Hinv Hn Hsub.
  apply (owned_once_shrink s _ c' fl' h' (fun _ => true) (fun _ => true));
    try assumption; rewrite filter_true; reflexivity.
Qed.

(** Inserting a row under a fresh id, while dead letters may go,
    preserves the invariant. *)
Lemma owned_once_insert (s : System.t) (r : Row.t) (q : DeadRow.t -> bool) :
  owned_once s ->
  System.fresh (Row.id r) s = true ->
  owned_once
    (System.with_db
       (mkDB (queues (db (System.store s)))
             (messages (db (System.store s)) ++ [r])
             (filter q (dead_letter_messages (db (System.store s)))))
       s).
Proof.
  intros Hinv Hfresh.
  assert (Hnot : ~ In (Row.id r) (System.used_ids s)).
  { intro Hin. apply existsb_eqb_In in Hin. unfold System.fresh in Hfresh.
    rewrite Hin in Hfresh. discriminate. }
  unfold System.used_ids in Hnot. rewrite !in_app_iff in Hnot.
  pose proof (rows_once Hinv) as Hrows.
  constructor; simpl.
  - unfold System.message_ids, System.dead_letter_original_ids; simpl.
    rewrite map_app; simpl. apply NoDup_app.
    + apply NoDup_snoc; [eapply NoDup_app_remove_r, Hrows|tauto].
    + apply NoDup_map_filter. eapply NoDup_app_remove_l, Hrows.
    + intros a Ha Hb. apply In_map_filter in Hb.
      apply in_app_iff in Ha. destruct Ha as [Ha|[<-|[]]].
      * exact (NoDup_app_disjoint _ _ _ _ Hrows Ha Hb).
      * tauto.
  - apply (flights_once Hinv).
  - intros g r' Hg Hr' Heq. apply in_app_iff in Hr'.
    destruct Hr' as [Hr'|[<-|[]]].
    + exact (flights_hidden Hinv g r' Hg Hr' Heq).
    + exfalso. apply Hnot. right. right. rewrite Heq. apply in_map, Hg.
  - intros g Hg Hin. apply In_map_filter in Hin.
    exact (flights_alive Hinv g Hg Hin).
Qed.

End Ownership.

Section Invariant.

Import MessageQueue.

Lemma Store_eta (st : Store) : mkStore (db st) (calls st) = st.
Proof. destruct st; reflexivity. Qed.

Lemma call_db (T : Type) (c : StoreCall) (op : DB -> DB * Result T)
    (s : Store) :
  db (fst (call c op s)) = fst (op (db s)).
Proof. unfold call. destruct (op (db s)); reflexivity. Qed.

Lemma fetch_select_ids_NoDup (queueName : string) (limit now : Z) (d : DB) :
  NoDup (System.message_ids d) ->
  NoDup (map Row.id (fetch_select queueName limit now d)).
Proof.
  intro Hn. unfold fetch_select, Sql.limit.
  assert (Hs : NoDup (map Row.id
                        (Sql.order_by fetch_order
                           (filter (fetch_where queueName now)
                                   (messages d))))).
  { eapply Permutation_NoDup.
    - apply Permutation_map, order_by_perm.
    - apply NoDup_map_filter, Hn. }
  destruct (Z.ltb limit 0); [exact Hs|].
  rewrite <- firstn_map. apply firstn_NoDup, Hs.
Qed.

Lemma owned_once_poll (s : System.t) (c : string) (now : Z)
    (queueName : string) (batchSize : Z) (s' : System.t) :
  owned_once s ->
  System.step (System.Poll c now queueName batchSize) s = Some s' ->
  owned_once s'.
Proof.
  intros Hinv Hstep. simpl in Hstep.
  rewrite fetchMessages_eq in Hstep. inversion Hstep; subst s'; clear Hstep.
  pose proof (rows_once Hinv) as Hrows.
  set (rows := fetch_select queueName batchSize now (db (System.store s))).
  assert (Hsel : forall r, In r rows ->
                   In r (messages (db (System.store s)))
                   /\ Row.status r = pending).
  { intros r Hr. apply fetch_select_In in Hr. destruct Hr as [Hin Hw].
    apply fetch_where_true in Hw. tauto. }
  assert (Hnew : forall g,
            In g (map (fun m => System.mkFlight c m System.Running)
                      (map rowToMessage rows)) ->
            exists r, In r rows /\ System.flight_id g = Row.id r).
  { intros g Hg. apply in_map_iff in Hg. destruct Hg as [m [<- Hm]].
    apply in_map_iff in Hm. destruct Hm as [r [<- Hr]].
    exists r. split; [exact Hr|reflexivity]. }
  constructor; simpl.
  - unfold System.message_ids, System.dead_letter_original_ids; simpl.
    rewrite map_map.
    rewrite (map_ext _ Row.id) by (intro; apply claim_row_id).
    exact Hrows.
  - rewrite map_app. apply NoDup_app.
    + apply (flights_once Hinv).
    + rewrite !map_map. simpl.
      apply fetch_select_ids_NoDup. eapply NoDup_app_remove_r, Hrows.
    + intros a Ha Hb.
      apply in_map_iff in Ha. destruct Ha as [f [<- Hf]].
      apply in_map_iff in Hb. destruct Hb as [g [Hgf Hg]].
      destruct (Hnew g Hg) as (r & Hr & Hgr).
      destruct (Hsel r Hr) as [Hin Hst].
      apply (flights_hidden Hinv f r Hf Hin); [congruence|exact Hst].
  - intros g r' Hg Hr' Heq.
    apply in_map_iff in Hr'. destruct Hr' as [r [<- Hin]].
    rewrite claim_row_id in Heq.
    destruct (in_dec string_dec (Row.id r) (map Row.id rows)) as [Hi|Hi].
    + rewrite claim_row_In by exact Hi. discriminate.
    + rewrite claim_row_not_In by exact Hi.
      apply in_app_iff in Hg. destruct Hg as [Hg|Hg].
      * exact (flights_hidden Hinv g r Hg Hin Heq).
      * exfalso. destruct (Hnew g Hg) as (r0 & Hr0 & Hgr).
        apply Hi. rewrite Heq, Hgr. apply in_map, Hr0.
  - intros g Hg. apply in_app_iff in Hg. destruct Hg as [Hg|Hg].
    + exact (flights_alive Hinv g Hg).
    + destruct (Hnew g Hg) as (r & Hr & Hgr). rewrite Hgr.
      destruct (Hsel r Hr) as [Hin _].
      apply (NoDup_app_disjoint _ _ _ _ Hrows).
      apply in_map, Hin.
Qed.

Lemma owned_once_settle (s : System.t) (c i : string) (startTime now : Z)
    (outcome : HandlerOutcome) (s' : System.t) :
  owned_once s ->
  System.step (System.Settle c i startTime now outcome) s = Some s' ->
  owned_once s'.
Proof.
  intros Hinv Hstep. simpl in Hstep.
  destruct (System.take_flight System.is_running c i (System.inflight s))
    as [[f rest]|] eqn:Ht; [|discriminate].
  apply take_flight_Some in Ht. destruct Ht as (Hi & _ & Hp).
  destruct (flights_after_take s f rest Hinv Hp) as (Hf & Hn & Hrest).
  destruct (processMessage_effect startTime now (System.message f) outcome
              (System.store s)) as (set & Hset & Hup).
  destruct (processMessage startTime now (System.message f) outcome
              (System.store s)) as [st r]. simpl in Hup.
  destruct r as [v|error]; inversion Hstep; subst s'; clear Hstep;
    rewrite <- (Store_eta st).
  - eapply owned_once_update; try eassumption.
    + intro r. apply Hset.
    + intros g Hg. exists g. split; [apply Hrest, Hg|reflexivity].
    + left. intro r. apply Hset.
  - eapply owned_once_update; try eassumption.
    + intro r. apply Hset.
    + simpl. constructor; [|exact Hn].
      intro Hin. apply in_map_iff in Hin. destruct Hin as [g [Hgf Hg]].
      exact (proj2 (Hrest g Hg) Hgf).
    + intros g [<-|Hg].
      * exists f. split; [exact Hf|reflexivity].
      * exists g. split; [apply Hrest, Hg|reflexivity].
    + left. intro r. apply Hset.
Qed.

Lemma owned_once_move (s : System.t) (f : System.Flight)
    (rest : list System.Flight) (copy : DeadRow.t) (c' : list StoreCall)
    (h' : list (string * string)) :
  owned_once s ->
  Permutation (System.inflight s) (f :: rest) ->
  DeadRow.original_id copy = System.flight_id f ->
  owned_once
    (System.mk
       (mkStore
          (mkDB (queues (db (System.store s)))
                (filter (fun r => negb (String.eqb (Row.id r)
                                                   (System.flight_id f)))
                        (messages (db (System.store s))))
                (dead_letter_messages (db (System.store s)) ++ [copy]))
          c')
       rest h').
Proof.
  intros Hinv Hp Hcopy.
  destruct (flights_after_take s f rest Hinv Hp) as (Hf & Hn & Hrest).
  pose proof (rows_once Hinv) as Hrows.
  assert (Hgone : ~ In (System.flight_id f)
                       (map Row.id
                          (filter (fun r => negb (String.eqb (Row.id r)
                                                    (System.flight_id f)))
                                  (messages (db (System.store s)))))).
  { intro Hin. apply in_map_iff in Hin. destruct Hin as [r [Hr Hin]].
    apply filter_In in Hin. destruct Hin as [_ Hne].
    rewrite Hr, String.eqb_refl in Hne. discriminate. }
  constructor; simpl.
  - unfold System.message_ids, System.dead_letter_original_ids; simpl.
    rewrite map_app; simpl. rewrite Hcopy. apply NoDup_app.
    + apply NoDup_map_filter. eapply NoDup_app_remove_r, Hrows.
    + apply NoDup_snoc; [eapply NoDup_app_remove_l, Hrows|].
      apply (flights_alive Hinv f Hf).
    + intros a Ha Hb. apply in_app_iff in Hb. destruct Hb as [Hb|[<-|[]]].
      * apply In_map_filter in Ha.
        exact (NoDup_app_disjoint _ _ _ _ Hrows Ha Hb).
      * exact (Hgone Ha).
  - exact Hn.
  - intros g r Hg Hr. apply filter_In in Hr.
    apply (flights_hidden Hinv g r (proj1 (Hrest g Hg))). tauto.
  - intros g Hg Hin. unfold System.dead_letter_original_ids in Hin.
    simpl in Hin. rewrite map_app, in_app_iff in Hin. simpl in Hin.
    destruct Hin as [Hin|[Hin|[]]].
    + exact (flights_alive Hinv g (proj1 (Hrest g Hg)) Hin).
    + apply (proj2 (Hrest g Hg)). congruence.
Qed.

Lemma owned_once_handle (s : System.t) (c i dlqId : string) (now : Z)
    (cfg : DeadLetterConfig.t) (s' : System.t) :
  owned_once s ->
  System.step (System.HandleError c i dlqId now cfg) s = Some s' ->
  owned_once s'.
Proof.
  intros Hinv Hstep. simpl in Hstep.
  destruct (System.take_flight _ c i (System.inflight s))
    as [[f rest]|] eqn:Ht; [|discriminate].
  apply take_flight_Some in Ht. destruct Ht as (Hi & _ & Hp).
  destruct (flights_after_take s f rest Hinv Hp) as (Hf & Hn & Hrest).
  destruct (System.phase f) as [|error]; [discriminate|].
  inversion Hstep; subst s'; clear Hstep.
  assert (Hkeep : forall g, In g rest ->
            exists f0, In f0 (System.inflight s)
                       /\ System.flight_id f0 = System.flight_id g).
  { intros g Hg. exists g. split; [apply Hrest, Hg|reflexivity]. }
  unfold handleMessageError.
  destruct (Z.ltb _ _).
  - rewrite <- (Store_eta (fst (call _ _ _))). rewrite call_db.
    eapply owned_once_update with (i := Message.id (System.message f))
                                  (set := set_retry now);
      try eassumption.
    + repeat split.
    + reflexivity.
    + right. intros g Hg. apply (proj2 (Hrest g Hg)).
  - destruct (DeadLetterConfig.enabled cfg).
    + rewrite <- (Store_eta (fst (call _ _ _))). rewrite call_db.
      destruct (moveToDeadLetter_effect dlqId now (System.message f) error
                  (db (System.store s))) as [[e He]|[copy [Hc He]]];
        rewrite He; simpl.
      * apply owned_once_flights; [exact Hinv|exact Hn|].
        intros g Hg. apply Hrest, Hg.
      * apply owned_once_move; assumption.
    + rewrite <- (Store_eta (fst (call _ _ _))). rewrite call_db.
      eapply owned_once_update with (i := Message.id (System.message f))
                                    (set := set_failed now
                                              (error_message error));
        try eassumption.
      * repeat split.
      * reflexivity.
      * left. discriminate.
Qed.

Lemma owned_once_step (s s' : System.t) (e : System.Event) :
  owned_once s -> System.step e s = Some s' -> owned_once s'.
Proof.
  intros Hinv Hstep. destruct e.
  - simpl in Hstep.
    destruct (System.fresh messageId s) eqn:Hfresh; [|discriminate].
    inversion Hstep; subst s'; clear Hstep.
    destruct (send_effect self messageId now queueName payload options
                (db (System.store s))) as [E|[r [Hr [_ [E _]]]]]; rewrite E.
    + apply owned_once_flights; [exact Hinv|apply (flights_once Hinv)|].
      tauto.
    + subst messageId.
      pose proof (owned_once_insert s r (fun _ => true) Hinv Hfresh) as H.
      rewrite filter_true in H. exact H.
  - eapply owned_once_poll; eassumption.
  - eapply owned_once_settle; eassumption.
  - eapply owned_once_handle; eassumption.
  - simpl in Hstep.
    destruct (System.fresh newMessageId s) eqn:Hfresh; [|discriminate].
    inversion Hstep; subst s'; clear Hstep.
    destruct (requeue_effect newMessageId now messageId
                (db (System.store s))) as [E|[r [Hr E]]]; rewrite E.
    + apply owned_once_flights; [exact Hinv|apply (flights_once Hinv)|].
      tauto.
    + subst newMessageId. apply owned_once_insert; assumption.
  - simpl in Hstep. inversion Hstep; subst s'; clear Hstep.
    destruct (cleanup_effect now queueName (db (System.store s)))
      as [p E]. rewrite E.
    apply (owned_once_shrink s _ _ _ _ p (fun _ => true)); try assumption.
    + reflexivity.
    + simpl. rewrite filter_true. reflexivity.
    + apply (flights_once Hinv).
    + tauto.
Qed.

Lemma owned_once_reachable (allowed : System.Event -> Prop)
    (init s : System.t) :
  owned_once init -> System.reachable_by allowed init s -> owned_once s.
Proof.
  intros Hinit Hreach. induction Hreach as [|s s' e _ IH _ Hstep].
  - exact Hinit.
  - eapply owned_once_step; eassumption.
Qed.

Lemma owned_once_initial (names : list string) :
  owned_once (System.initial names).
Proof.
  constructor; simpl; try constructor; intros; contradiction.
Qed.

End Invariant.

(** ** The claim is a compare-and-swap *)

Section CompareAndSwap.

Import MessageQueue.

Lemma same_key_same_row (A B : Type) (key : A -> B) (rows : list A)
    (a b : A) :
  NoDup (map key rows) -> In a rows -> In b rows -> key a = key b -> a = b.
Proof.
  induction rows as [|x rows IH]; intros Hn Ha Hb E; [contradiction|].
  simpl in Hn. inversion Hn as [|? ? Hx Hrest]; subst.
  destruct Ha as [<-|Ha], Hb as [<-|Hb].
  - reflexivity.
  - exfalso. apply Hx. rewrite E. apply in_map, Hb.
  - exfalso. apply Hx. rewrite <- E. apply in_map, Ha.
  - apply IH; assumption.
Qed.




End CompareAndSwap.

Section OneRowPerId.

Import MessageQueue.

Lemma run_reachable (events : list System.Event) (init s : System.t) :
  System.run events init = Some s ->
  System.reachable_by (fun _ => True) init s.
Proof.
  assert (G : forall events mid s,
             System.reachable_by (fun _ => True) init mid ->
             System.run events mid = Some s ->
             System.reachable_by (fun _ => True) init s).
  { clear. intro events.
    induction events as [|e events IH]; intros mid s Hmid Hrun; simpl in Hrun.
    - inversion Hrun; subst. exact Hmid.
    - destruct (System.step e mid) as [mid'|] eqn:Hstep; [|discriminate].
      apply (IH mid' s); [|exact Hrun].
      eapply System.reach_step; [exact Hmid|exact I|exact Hstep]. }
  intro Hrun. apply (G events init s); [apply System.reach_init|exact Hrun].
Qed.







End OneRowPerId.

(** ** Two consumers on one queue *)

Section TwoConsumers.

Import MessageQueue.

Variables c1 c2 id1 id2 : string.

Lemma handled_ids_after_poll (c : string) (rows : list Row.t)
    (h : list (string * string)) :
  map snd (h ++ map (fun m => (c, Message.id m)) (map rowToMessage rows))
  = map snd h ++ map Row.id rows.
Proof. rewrite map_app, !map_map. reflexivity. Qed.

Lemma two_messages_poll (s s' : System.t) (c : string) (now : Z)
    (queueName : string) (batchSize : Z) :
  owned_once s ->
  two_messages c1 c2 id1 id2 s ->
  c = c1 \/ c = c2 ->
  System.step (System.Poll c now queueName batchSize) s = Some s' ->
  two_messages c1 c2 id1 id2 s'.
Proof.
  intros Hinv Htwo Hc Hstep. simpl in Hstep.
  rewrite fetchMessages_eq in Hstep. inversion Hstep; subst s'; clear Hstep.
  set (rows := fetch_select queueName batchSize now (db (System.store s))).
  assert (Hsel : forall r, In r rows ->
                   In r (messages (db (System.store s)))
                   /\ Row.status r = pending).
  { intros r Hr. apply fetch_select_In in Hr. destruct Hr as [Hin Hw].
    apply fetch_where_true in Hw. tauto. }
  constructor; simpl; try rewrite handled_ids_after_poll.
  - unfold System.message_ids; simpl. rewrite map_map.
    rewrite (map_ext _ Row.id) by (intro; apply claim_row_id).
    apply (both_rows Htwo).
  - intros r' Hr'. apply in_map_iff in Hr'. destruct Hr' as [r [<- Hin]].
    rewrite claim_row_id, in_app_iff.
    destruct (in_dec string_dec (Row.id r) (map Row.id rows)) as [Hi|Hi].
    + rewrite claim_row_In by exact Hi. simpl.
      split; [intros _; right; exact Hi|discriminate].
    + rewrite claim_row_not_In by exact Hi.
      rewrite (handled_iff Htwo r Hin). tauto.
  - apply NoDup_app.
    + apply (handled_once Htwo).
    + apply fetch_select_ids_NoDup.
      eapply NoDup_app_remove_r, (rows_once Hinv).
    + intros a Ha Hb. apply in_map_iff in Hb. destruct Hb as [r [<- Hr]].
      destruct (Hsel r Hr) as [Hin Hst].
      apply (handled_iff Htwo r Hin) in Ha. contradiction.
  - apply incl_app; [apply (handled_rows Htwo)|].
    intros a Ha. apply in_map_iff in Ha. destruct Ha as [r [<- Hr]].
    rewrite <- (both_rows Htwo). apply in_map, Hsel, Hr.
  - intros entry Hin. apply in_app_iff in Hin. destruct Hin as [Hin|Hin].
    + apply (handled_by Htwo entry Hin).
    + apply in_map_iff in Hin. destruct Hin as [m [<- _]]. exact Hc.
Qed.

Lemma two_messages_settle (s s' : System.t) (c i : string)
    (startTime now : Z) (outcome : HandlerOutcome) :
  owned_once s ->
  two_messages c1 c2 id1 id2 s ->
  System.step (System.Settle c i startTime now outcome) s = Some s' ->
  two_messages c1 c2 id1 id2 s'.
Proof.
  intros Hinv Htwo Hstep. simpl in Hstep.
  destruct (System.take_flight System.is_running c i (System.inflight s))
    as [[f rest]|] eqn:Ht; [|discriminate].
  apply take_flight_Some in Ht. destruct Ht as (Hi & _ & Hp).
  destruct (flights_after_take s f rest Hinv Hp) as (Hf & _ & _).
  destruct (processMessage_effect startTime now (System.message f) outcome
              (System.store s)) as (set & Hset & (_ & _ & Hm)).
  assert (G : forall st fl,
             db st = db (fst (processMessage startTime now (System.message f)
                                             outcome (System.store s))) ->
             two_messages c1 c2 id1 id2 (System.mk st fl (System.handled s))).
  { intros st fl Hst. constructor; simpl; rewrite ?Hst.
    - unfold System.message_ids. rewrite Hm, update_ids.
      + apply (both_rows Htwo).
      + intro r. apply Hset.
    - intros r' Hr'. rewrite Hm in Hr'.
      apply in_map_iff in Hr'. destruct Hr' as [r [<- Hin]].
      destruct (String.eqb_spec (Row.id r) (Message.id (System.message f)))
        as [E|E].
      + destruct (Hset r) as [Hid Hstatus]. rewrite Hid.
        split; [intros _|intros _; exact Hstatus].
        apply (handled_iff Htwo r Hin).
        apply (flights_hidden Hinv f r Hf Hin E).
      + apply (handled_iff Htwo r Hin).
    - apply (handled_once Htwo).
    - apply (handled_rows Htwo).
    - apply (handled_by Htwo). }
  destruct (processMessage startTime now (System.message f) outcome
              (System.store s)) as [st r]. simpl in G.
  destruct r as [v|error]; inversion Hstep; subst s'; apply G; reflexivity.
Qed.

Lemma two_consumers_invariant (queueName : string) (s0 s : System.t) :
  owned_once s0 ->
  two_messages c1 c2 id1 id2 s0 ->
  System.reachable_by (System.resolving_consumers c1 c2 queueName) s0 s ->
  owned_once s /\ two_messages c1 c2 id1 id2 s.
Proof.
  intros Hinv Htwo Hreach.
  induction Hreach as [|s s' e _ [IHo IHt] Hallowed Hstep];
    [split; assumption|].
  split; [eapply owned_once_step; eassumption|].
  destruct e; simpl in Hallowed; try contradiction.
  - destruct Hallowed as [Hc _]. eapply two_messages_poll; eassumption.
  - eapply two_messages_settle; eassumption.
Qed.

Lemma invocations_split (l : list (string * string)) :
  c1 <> c2 ->
  (forall entry, In entry l -> fst entry = c1 \/ fst entry = c2) ->
  (List.length (filter (fun entry => String.eqb (fst entry) c1) l)
   + List.length (filter (fun entry => String.eqb (fst entry) c2) l)
   = List.length l)%nat.
Proof.
  intros Hne Hall. induction l as [|x l IH]; simpl; [reflexivity|].
  assert (IH' := IH (fun entry H => Hall entry (or_intror H))).
  destruct (Hall x (or_introl eq_refl)) as [E|E]; rewrite E.
  - rewrite String.eqb_refl.
    destruct (String.eqb_spec c1 c2); [contradiction|]. simpl. lia.
  - rewrite String.eqb_refl.
    destruct (String.eqb_spec c2 c1); [congruence|]. simpl. lia.
Qed.

Lemma total_invocations (s : System.t) :
  c1 <> c2 ->
  two_messages c1 c2 id1 id2 s ->
  (System.invocations c1 s + System.invocations c2 s
   = List.length (map snd (System.handled s)))%nat.
Proof.
  intros Hne Htwo. unfold System.invocations.
  rewrite invocations_split, length_map;
    [reflexivity|exact Hne|apply (handled_by Htwo)].
Qed.

End TwoConsumers.

Section Runs.

Import MessageQueue.

Lemma run_reachable_by (allowed : System.Event -> Prop)
    (events : list System.Event) (init s : System.t) :
  Forall allowed events ->
  System.run events init = Some s ->
  System.reachable_by allowed init s.
Proof.
  assert (G : forall events mid s,
             Forall allowed events ->
             System.reachable_by allowed init mid ->
             System.run events mid = Some s ->
             System.reachable_by allowed init s).
  { clear. intro events.
    induction events as [|e events IH]; intros mid s Hall Hmid Hrun;
      simpl in Hrun.
    - inversion Hrun; subst. exact Hmid.
    - destruct (System.step e mid) as [mid'|] eqn:Hstep; [|discriminate].
      inversion Hall as [|? ? He Hrest]; subst.
      apply (IH mid' s Hrest); [|exact Hrun].
      eapply System.reach_step; [exact Hmid|exact He|exact Hstep]. }
  intros Hall Hrun.
  apply (G events init s Hall); [apply System.reach_init|exact Hrun].
Qed.

(** The rows of a database after two sends to [queueName] on an engine
    that has just been started: all pending, all of that queue. *)
Lemma two_sends_rows (names : list string) (self : QueueOptions.t)
    (queueName id1 id2 : string) (t1 t2 : Z) (p1 p2 : Value)
    (o1 o2 : SendOptions.t) (r : Row.t) :
  In r (messages
          (fst (send self id2 t2 queueName p2 o2
                  (fst (send self id1 t1 queueName p1 o1
                          (mkDB names [] [])))))) ->
  Row.status r = pending /\ Row.queue_name r = queueName.
Proof.
  assert (Hsent : forall i t p o d x,
             In x (messages (fst (send self i t queueName p o d))) ->
             In x (messages d)
             \/ (Row.status x = pending /\ Row.queue_name x = queueName)).
  { intros i t p o d x. unfold send, Tx.executeTransaction, Tx.bind,
      Sql.insert_message.
    cbn [Row.id Row.queue_name].
    destruct (Sql.has_message i d); [left; assumption|].
    destruct (negb (Sql.has_queue queueName d)); [left; assumption|].
    cbv beta iota.
    assert (Hnew : forall row,
               Row.status row = pending ->
               Row.queue_name row = queueName ->
               In x (messages d ++ [row]) ->
               In x (messages d)
               \/ (Row.status x = pending /\ Row.queue_name x = queueName)).
    { intros row Hs Hq Hin. apply in_app_iff in Hin.
      destruct Hin as [Hin|[<-|[]]]; [left; exact Hin|right; tauto]. }
    destruct (truthy_string (SendOptions.deduplicationId o)) as [k|].
    - unfold Tx.read. destruct (select_duplicate _ _ _) as [existing|].
      + destruct (negb (String.eqb (Row.id existing) i)).
        * left. assumption.
        * apply Hnew; reflexivity.
      + apply Hnew; reflexivity.
    - apply Hnew; reflexivity. }
  intro Hr. apply Hsent in Hr. destruct Hr as [Hr|Hr]; [|exact Hr].
  apply Hsent in Hr. destruct Hr as [[]|Hr]. exact Hr.
Qed.

Lemma two_sends_state (names : list string) (self : QueueOptions.t)
    (queueName id1 id2 : string) (t1 t2 : Z) (p1 p2 : Value)
    (o1 o2 : SendOptions.t) (s0 : System.t) :
  System.run [System.Send self id1 t1 queueName p1 o1;
              System.Send self id2 t2 queueName p2 o2]
             (System.initial names) = Some s0 ->
  System.handled s0 = []
  /\ db (System.store s0)
     = fst (send self id2 t2 queueName p2 o2
              (fst (send self id1 t1 queueName p1 o1 (mkDB names [] [])))).
Proof.
  intro Hrun. cbn [System.run System.step] in Hrun.
  destruct (System.fresh id1 (System.initial names)); [|discriminate].
  cbv beta iota in Hrun.
  match type of Hrun with
  | context [System.fresh id2 ?mid] => destruct (System.fresh id2 mid)
  end; [|discriminate].
  inversion Hrun; subst s0. split; reflexivity.
Qed.

Lemma two_sends_start (names : list string) (self : QueueOptions.t)
    (queueName id1 id2 : string) (t1 t2 : Z) (p1 p2 : Value)
    (o1 o2 : SendOptions.t) (c1 c2 : string) (s0 : System.t) :
  System.run [System.Send self id1 t1 queueName p1 o1;
              System.Send self id2 t2 queueName p2 o2]
             (System.initial names) = Some s0 ->
  System.message_ids (db (System.store s0)) = [id1; id2] ->
  owned_once s0 /\ two_messages c1 c2 id1 id2 s0.
Proof.
  intros Hrun Hids. split.
  - eapply owned_once_reachable; [apply (owned_once_initial names)|].
    eapply run_reachable, Hrun.
  - destruct (two_sends_state names self queueName id1 id2 t1 t2 p1 p2
                o1 o2 s0 Hrun) as [Hh Hd].
    constructor; rewrite ?Hh; simpl.
    + exact Hids.
    + intros r Hr. rewrite Hd in Hr.
      apply two_sends_rows in Hr. destruct Hr as [Hs _].
      rewrite Hs. tauto.
    + constructor.
    + intros a [].
    + intros entry [].
Qed.

Lemma fetch_select_nonempty (queueName : string) (limit now : Z) (d : DB)
    (r : Row.t) :
  limit <> 0%Z ->
  In r (messages d) ->
  fetch_where queueName now r = true ->
  (0 < List.length (fetch_select queueName limit now d))%nat.
Proof.
  intros Hl Hin Hw. unfold fetch_select, Sql.limit.
  assert (Hpos : (0 < List.length
                        (Sql.order_by fetch_order
                           (filter (fetch_where queueName now)
                                   (messages d))))%nat).
  { rewrite <- (Permutation_length (order_by_perm _ fetch_order _)).
    assert (Hf : In r (filter (fetch_where queueName now) (messages d)))
      by (apply filter_In; tauto).
    destruct (filter (fetch_where queueName now) (messages d));
      [contradiction|simpl; lia]. }
  destruct (Z.ltb_spec limit 0); [exact Hpos|].
  rewrite length_firstn. lia.
Qed.

End Runs.

Section Draining.

Import MessageQueue.

Lemma pending_map_le (g : Row.t -> Row.t) (l : list Row.t) :
  (forall r, is_pending (g r) = true -> is_pending r = true) ->
  (List.length (filter is_pending (map g l))
   <= List.length (filter is_pending l))%nat.
Proof.
  intro Hg. induction l as [|x l IH]; simpl; [lia|].
  destruct (is_pending (g x)) eqn:E.
  - rewrite (Hg x E). simpl. lia.
  - destruct (is_pending x); simpl; lia.
Qed.

Lemma pending_map_lt (g : Row.t -> Row.t) (l : list Row.t) (r0 : Row.t) :
  (forall r, is_pending (g r) = true -> is_pending r = true) ->
  In r0 l -> is_pending r0 = true -> is_pending (g r0) = false ->
  (List.length (filter is_pending (map g l))
   < List.length (filter is_pending l))%nat.
Proof.
  intros Hg Hin Hp Hq. induction l as [|x l IH]; simpl; [contradiction|].
  pose proof (pending_map_le g l Hg) as Hle.
  destruct Hin as [->|Hin].
  - rewrite Hp, Hq. simpl. lia.
  - specialize (IH Hin). destruct (is_pending (g x)) eqn:E.
    + rewrite (Hg x E). simpl. lia.
    + destruct (is_pending x); simpl; lia.
Qed.

Lemma is_pending_true (r : Row.t) :
  is_pending r = true <-> Row.status r = pending.
Proof.
  unfold is_pending. destruct (Row.status r); simpl; split;
    congruence.
Qed.

Lemma claim_row_fields (ids : list string) (now : Z) (r : Row.t) :
  Row.queue_name (claim_row ids now r) = Row.queue_name r
  /\ Row.available_at (claim_row ids now r) = Row.available_at r
  /\ (is_pending (claim_row ids now r) = true -> is_pending r = true).
Proof.
  unfold claim_row. destruct (existsb _ ids); simpl; repeat split; trivial.
  discriminate.
Qed.

(** The rows after [processMessage] are the rows before it, each under a
    map that keeps the queue and the visibility time and makes no row
    pending. *)
Lemma processMessage_rows (startTime now : Z) (message : Message.t)
    (outcome : HandlerOutcome) (s : Store) :
  exists g,
    messages (db (fst (processMessage startTime now message outcome s)))
    = map g (messages (db s))
    /\ forall r,
         Row.queue_name (g r) = Row.queue_name r
         /\ Row.available_at (g r) = Row.available_at r
         /\ (is_pending (g r) = true -> is_pending r = true).
Proof.
  destruct outcome as [|msg|];
    (eexists; split; [reflexivity|]; intro r; simpl;
     destruct (String.eqb (Row.id r) (Message.id message)); simpl;
     repeat split; trivial; discriminate).
Qed.

(** One step of two consumers whose handlers resolve: the rows keep their
    queue and visibility time, none becomes pending, and a poll that asks
    for a message claims one whenever a pending row is visible to it. *)
Lemma drain_step (c1 c2 queueName : string) (e : System.Event)
    (s s' : System.t) :
  System.resolving_consumers c1 c2 queueName e ->
  System.step e s = Some s' ->
  (forall r, In r (messages (db (System.store s))) ->
             Row.queue_name r = queueName) ->
  (forall now r, In now (poll_times [e]) ->
                 In r (messages (db (System.store s))) ->
                 (Row.available_at r <= seconds now)%Z) ->
  (exists g,
      messages (db (System.store s')) = map g (messages (db (System.store s)))
      /\ forall r, Row.queue_name (g r) = Row.queue_name r
                   /\ Row.available_at (g r) = Row.available_at r)
  /\ (List.length (pending_rows (db (System.store s')))
      <= List.length (pending_rows (db (System.store s)))
         - effective_polls [e])%nat.
Proof.
  intros Hallowed Hstep Hqueue Hvisible.
  destruct e; simpl in Hallowed; try contradiction.
  - destruct Hallowed as [_ ->].
    simpl in Hstep. rewrite fetchMessages_eq in Hstep.
    inversion Hstep; subst s'; clear Hstep. simpl.
    set (rows := fetch_select queueName batchSize now (db (System.store s))).
    split.
    + eexists. split; [reflexivity|]. intro r.
      destruct (claim_row_fields (map Row.id rows) now r) as (Hq & Ha & _).
      split; assumption.
    + unfold pending_rows; simpl.
      pose proof (pending_map_le (claim_row (map Row.id rows) now)
                    (messages (db (System.store s)))
                    (fun r => proj2 (proj2 (claim_row_fields _ now r))))
        as Hle.
      destruct (Z.eqb_spec batchSize 0) as [Hz|Hnz]; simpl; [lia|].
      destruct (filter is_pending (messages (db (System.store s))))
        as [|r rest] eqn:Hpend; [simpl in *; lia|].
      assert (Hr : In r (messages (db (System.store s)))
                   /\ is_pending r = true).
      { apply filter_In. rewrite Hpend. left. reflexivity. }
      destruct Hr as [Hr Hpr].
      assert (Hw : fetch_where queueName now r = true).
      { unfold fetch_where. rewrite (Hqueue r Hr), String.eqb_refl.
        unfold is_pending in Hpr. rewrite Hpr. simpl.
        apply Z.leb_le, Hvisible; [left; reflexivity|exact Hr]. }
      pose proof (fetch_select_nonempty queueName batchSize now
                    (db (System.store s)) r Hnz Hr Hw) as Hpos.
      fold rows in Hpos.
      destruct rows as [|r0 rows0] eqn:Hrows; [simpl in Hpos; lia|].
      assert (Hr0 : In r0 (fetch_select queueName batchSize now
                                        (db (System.store s)))).
      { fold rows. rewrite Hrows. left. reflexivity. }
      apply fetch_select_In in Hr0. destruct Hr0 as [Hin0 Hw0].
      apply fetch_where_true in Hw0. destruct Hw0 as (_ & Hs0 & _).
      assert (Hlt := pending_map_lt
                       (claim_row (map Row.id (r0 :: rows0)) now)
                       (messages (db (System.store s))) r0
                       (fun x => proj2 (proj2 (claim_row_fields _ now x)))
                       Hin0 (proj2 (is_pending_true r0) Hs0)).
      rewrite <- Hpend.
      assert (Hclaimed : is_pending (claim_row (map Row.id (r0 :: rows0))
                                               now r0) = false).
      { rewrite claim_row_In by (left; reflexivity). reflexivity. }
      specialize (Hlt Hclaimed). lia.
  - simpl in Hstep.
    destruct (System.take_flight System.is_running consumerId messageId
                (System.inflight s)) as [[f rest]|]; [|discriminate].
    destruct (processMessage_rows startTime now (System.message f) outcome
                (System.store s)) as (g & Hg & Hfields).
    assert (G : forall st,
               db st = db (fst (processMessage startTime now
                                  (System.message f) outcome
                                  (System.store s))) ->
               (exists g0,
                   messages (db st) = map g0 (messages (db (System.store s)))
                   /\ forall r, Row.queue_name (g0 r) = Row.queue_name r
                                /\ Row.available_at (g0 r)
                                   = Row.available_at r)
               /\ (List.length (pending_rows (db st))
                   <= List.length (pending_rows (db (System.store s))) - 0)%nat).
    { intros st Hst. split.
      - exists g. rewrite Hst. split; [exact Hg|].
        intro r. destruct (Hfields r) as (Hq & Ha & _). split; assumption.
      - unfold pending_rows. rewrite Hst, Hg, Nat.sub_0_r.
        apply pending_map_le. intro r. apply Hfields. }
    destruct (processMessage startTime now (System.message f) outcome
                (System.store s)) as [st r]. simpl in G.
    destruct r as [v|error]; inversion Hstep; subst s'; simpl;
      apply G; reflexivity.
Qed.

Lemma effective_polls_cons (e : System.Event) (events : list System.Event) :
  effective_polls (e :: events)
  = (effective_polls [e] + effective_polls events)%nat.
Proof. destruct e; simpl; lia. Qed.

Lemma poll_times_cons (e : System.Event) (events : list System.Event) :
  poll_times (e :: events) = poll_times [e] ++ poll_times events.
Proof. destruct e; reflexivity. Qed.

Lemma pending_drains (c1 c2 queueName : string) (events : list System.Event) :
  forall s s',
    Forall (System.resolving_consumers c1 c2 queueName) events ->
    System.run events s = Some s' ->
    (forall r, In r (messages (db (System.store s))) ->
               Row.queue_name r = queueName) ->
    (forall now r, In now (poll_times events) ->
                   In r (messages (db (System.store s))) ->
                   (Row.available_at r <= seconds now)%Z) ->
    (List.length (pending_rows (db (System.store s')))
     <= List.length (pending_rows (db (System.store s)))
        - effective_polls events)%nat.
Proof.
  induction events as [|e events IH]; intros s s' Hall Hrun Hqueue Hvisible.
  - simpl in Hrun. inversion Hrun; subst. simpl. lia.
  - simpl in Hrun.
    destruct (System.step e s) as [mid|] eqn:Hstep; [|discriminate].
    inversion Hall as [|? ? He Hrest]; subst.
    rewrite poll_times_cons in Hvisible.
    destruct (drain_step c1 c2 queueName e s mid He Hstep Hqueue)
      as [(g & Hg & Hfields) Hle].
    { intros now r Hnow Hr. apply Hvisible; [|exact Hr].
      apply in_or_app. left. exact Hnow. }
    assert (Hmid := IH mid s' Hrest Hrun).
    rewrite effective_polls_cons.
    assert (Hm : (List.length (pending_rows (db (System.store s')))
                  <= List.length (pending_rows (db (System.store mid)))
                     - effective_polls events)%nat).
    { apply Hmid.
      - intros r' Hr'. rewrite Hg in Hr'. apply in_map_iff in Hr'.
        destruct Hr' as [r [<- Hr]].
        rewrite (proj1 (Hfields r)). apply Hqueue, Hr.
      - intros now r' Hnow Hr'. rewrite Hg in Hr'. apply in_map_iff in Hr'.
        destruct Hr' as [r [<- Hr]].
        rewrite (proj2 (Hfields r)). apply Hvisible; [|exact Hr].
        apply in_or_app. right. exact Hnow. }
    lia.
Qed.

End Draining.

Section NoDoubleClaim.

Import MessageQueue.

Lemma no_pending_rows (d : DB) :
  List.length (pending_rows d) = 0%nat ->
  forall r, In r (messages d) -> Row.status r <> pending.
Proof.
  intros Hlen r Hr Hs. apply is_pending_true in Hs.
  assert (Hin : In r (pending_rows d)) by (apply filter_In; tauto).
  destruct (pending_rows d); [contradiction|discriminate].
Qed.

(** C2. Two messages are sent to a queue and two consumers of that queue
    poll it, with any batch sizes, at any times and in any interleaving
    with the settling of their handlers, which resolve. Then at every
    moment: the handlers have been invoked at most twice in total and no
    message has been handed to a handler twice; no message is in flight
    under two handlers; once no row is pending any more the total is
    exactly 2; as long as a row is claimable a poll with a non-zero batch
    size goes through and invokes the handler of the consumer that polls;
    and after any two polls with a non-zero batch size, made when both
    messages are visible, the total is exactly 2. *)
Theorem two_consumers_two_messages
    (names : list string) (self : QueueOptions.t)
    (queueName id1 id2 : string) (t1 t2 : Z) (p1 p2 : Value)
    (o1 o2 : SendOptions.t) (c1 c2 : string) (s0 : System.t)
    (events : list System.Event) (s : System.t) :
  System.run [System.Send self id1 t1 queueName p1 o1;
              System.Send self id2 t2 queueName p2 o2]
             (System.initial names) = Some s0 ->
  System.message_ids (db (System.store s0)) = [id1; id2] ->
  c1 <> c2 ->
  Forall (System.resolving_consumers c1 c2 queueName) events ->
  System.run events s0 = Some s ->
  (System.invocations c1 s + System.invocations c2 s <= 2)%nat
  /\ NoDup (map snd (System.handled s))
  /\ NoDup (map System.flight_id (System.inflight s))
  /\ ((forall r, In r (messages (db (System.store s))) ->
                 Row.status r <> pending) ->
      (System.invocations c1 s + System.invocations c2 s = 2)%nat)
  /\ (forall c now batchSize,
        batchSize <> 0%Z ->
        (exists r, In r (messages (db (System.store s)))
                   /\ fetch_where queueName now r = true) ->
        exists s',
          System.step (System.Poll c now queueName batchSize) s = Some s'
          /\ (System.invocations c s < System.invocations c s')%nat)
  /\ ((2 <= effective_polls events)%nat ->
      (forall now r, In now (poll_times events) ->
                     In r (messages (db (System.store s0))) ->
                     (Row.available_at r <= seconds now)%Z) ->
      (System.invocations c1 s + System.invocations c2 s = 2)%nat).
Proof.
  intros Hrun Hids Hne Hall Hevents.
  pose proof (run_reachable_by _ events s0 s Hall Hevents) as Hreach.
  destruct (two_sends_start names self queueName id1 id2 t1 t2 p1 p2 o1 o2
              c1 c2 s0 Hrun Hids) as [Hinv0 Htwo0].
  destruct (two_consumers_invariant c1 c2 id1 id2 queueName s0 s
              Hinv0 Htwo0 Hreach) as [Hinv Htwo].
  pose proof (total_invocations c1 c2 id1 id2 s Hne Htwo) as Htotal.
  assert (Hpair : NoDup [id1; id2]).
  { rewrite <- (both_rows Htwo). eapply NoDup_app_remove_r, (rows_once Hinv). }
  assert (Hdone : (forall r, In r (messages (db (System.store s))) ->
                             Row.status r <> pending) ->
                  (System.invocations c1 s + System.invocations c2 s
                   = 2)%nat).
  { intro Hnone. apply Nat.le_antisymm.
    + rewrite Htotal.
      apply (NoDup_incl_length (handled_once Htwo) (handled_rows Htwo)).
    + rewrite Htotal. apply (NoDup_incl_length Hpair).
      intros a Ha. rewrite <- (both_rows Htwo) in Ha.
      apply in_map_iff in Ha. destruct Ha as [r [<- Hr]].
      apply (handled_iff Htwo r Hr), Hnone, Hr. }
  split; [|split; [|split; [|split; [|split]]]].
  - rewrite Htotal.
    apply (NoDup_incl_length (handled_once Htwo) (handled_rows Htwo)).
  - apply (handled_once Htwo).
  - apply (flights_once Hinv).
  - exact Hdone.
  - intros c now batchSize Hb [r [Hr Hw]].
    simpl. rewrite fetchMessages_eq. eexists. split; [reflexivity|].
    unfold System.invocations; simpl.
    rewrite filter_app, length_app.
    pose proof (fetch_select_nonempty queueName batchSize now
                  (db (System.store s)) r Hb Hr Hw) as Hpos.
    assert (E : forall l : list Message.t,
               filter (fun entry : string * string =>
                         String.eqb (fst entry) c)
                      (map (fun m => (c, Message.id m)) l)
               = map (fun m => (c, Message.id m)) l).
    { induction l as [|m l IH]; simpl; [reflexivity|].
      rewrite String.eqb_refl, IH. reflexivity. }
    rewrite E, !length_map. lia.
  - intros Hpolls Hvisible. apply Hdone, no_pending_rows.
    destruct (two_sends_state names self queueName id1 id2 t1 t2 p1 p2
                o1 o2 s0 Hrun) as [_ Hd].
    pose proof (pending_drains c1 c2 queueName events s0 s Hall Hevents)
      as Hdrain.
    assert (Hqueue : forall r, In r (messages (db (System.store s0))) ->
                               Row.queue_name r = queueName).
    { intros r Hr. rewrite Hd in Hr. apply two_sends_rows in Hr. tauto. }
    specialize (Hdrain Hqueue Hvisible).
    assert (Hsize : (List.length (pending_rows (db (System.store s0)))
                     <= 2)%nat).
    { unfold pending_rows.
      eapply Nat.le_trans; [apply filter_length_le|].
      replace (List.length (messages (db (System.store s0))))
        with (List.length (System.message_ids (db (System.store s0))))
        by apply length_map.
      rewrite Hids. simpl. lia. }
    lia.
Qed.

Lemma two_consumers_two_messages_witness :
  exists s0 s,
    System.run Sample.two_sends (System.initial ["orders"]) = Some s0
    /\ System.run Sample.two_polls s0 = Some s
    /\ (System.invocations "c1" s + System.invocations "c2" s = 2)%nat
    /\ NoDup (map System.flight_id (System.inflight s)).
Proof.
  destruct (System.run Sample.two_sends (System.initial ["orders"]))
    as [s0|] eqn:Hrun0; [|discriminate Hrun0].
  destruct (System.run Sample.two_polls s0) as [s|] eqn:Hrun;
    [|vm_compute in Hrun0; inversion Hrun0; subst s0;
      vm_compute in Hrun; discriminate Hrun].
  exists s0, s. split; [reflexivity|]. split; [exact Hrun|].
  assert (Hids : System.message_ids (db (System.store s0)) = ["m1"; "m2"]).
  { vm_compute in Hrun0. inversion Hrun0; subst s0. reflexivity. }
  assert (Hneq : "c1" <> "c2") by discriminate.
  assert (Hall : Forall (System.resolving_consumers "c1" "c2" "orders")
                        Sample.two_polls).
  { repeat constructor; simpl; tauto. }
  destruct (two_consumers_two_messages ["orders"] QueueOptions.default
              "orders" "m1" "m2" 1000 1010 (Data "{}") (Data "{}")
              SendOptions.none SendOptions.none "c1" "c2" s0
              Sample.two_polls s Hrun0 Hids Hneq Hall Hrun)
    as (_ & _ & Hflights & _ & _ & Hdrained).
  split; [|exact Hflights].
  apply Hdrained.
  - simpl. lia.
  - vm_compute in Hrun0. inversion Hrun0; subst s0.
    intros now r Hnow Hr. simpl in Hnow, Hr. unfold seconds.
    destruct Hr as [<-|[<-|[]]]; simpl;
      destruct Hnow as [<-|[<-|[<-|[<-|[]]]]]; vm_compute; discriminate.
Defined.

End NoDoubleClaim.

(** * Further properties *)

(** ** [chunkArray] *)

Section ChunkArray.

Variable T : Type.

Lemma slice_chunk (array : list T) (chunkSize i : Z) :
  (0 < chunkSize)%Z -> (0 <= i)%Z ->
  (i < Z.of_nat (List.length array))%Z ->
  Lifecycle.slice array i (i + chunkSize)
  = firstn (Z.to_nat chunkSize) (skipn (Z.to_nat i) array).
Proof.
  intros Hc Hi Hlen. unfold Lifecycle.slice.
  destruct (Z.ltb_spec i 0) as [|_]; [lia|].
  destruct (Z.ltb_spec (i + chunkSize) 0) as [|_]; [lia|].
  rewrite (Z.min_l i) by lia.
  destruct (Z.min_spec (i + chunkSize) (Z.of_nat (List.length array)))
    as [[Hlt ->]|[Hge ->]].
  - f_equal. lia.
  - rewrite !firstn_all2; [reflexivity| |]; rewrite length_skipn; lia.
Qed.

Lemma full_but_last_concat (chunkSize : Z) (chunks : list (list T)) :
  (0 < chunkSize)%Z ->
  full_but_last chunkSize chunks -> chunks <> [] -> List.concat chunks <> [].
Proof.
  intro Hc. destruct chunks as [|c rest]; [congruence|]. intros Hfull _.
  destruct c as [|x c]; [|simpl; discriminate].
  exfalso. destruct rest; simpl in Hfull; lia.
Qed.

Lemma chunkArray_loop_spec (array : list T) (chunkSize : Z) :
  (0 < chunkSize)%Z ->
  forall (fuel : nat) (i : Z) (chunks : list (list T)),
    (0 <= i)%Z ->
    (Z.max 0 (Z.of_nat (List.length array) - i) < Z.of_nat fuel)%Z ->
    exists rest,
      Lifecycle.chunkArray_loop fuel array chunkSize i chunks
      = Some (chunks ++ rest)
      /\ List.concat rest = skipn (Z.to_nat i) array
      /\ full_but_last chunkSize rest.
Proof.
  intro Hc. induction fuel as [|fuel IH]; intros i chunks Hi Hfuel; [lia|].
  simpl. destruct (Z.ltb_spec i (Z.of_nat (List.length array))) as [Hlt|Hge].
  - destruct (IH (i + chunkSize)%Z
                 (chunks ++ [Lifecycle.slice array i (i + chunkSize)]))
      as (rest & Hloop & Hcat & Hfull); [lia|lia|].
    rewrite slice_chunk in * by assumption.
    set (c := firstn (Z.to_nat chunkSize) (skipn (Z.to_nat i) array)) in *.
    exists (c :: rest). split; [rewrite Hloop, <- app_assoc; reflexivity|].
    assert (Hlen : List.length c
                   = Nat.min (Z.to_nat chunkSize)
                             (List.length array - Z.to_nat i)).
    { unfold c. rewrite length_firstn, length_skipn. reflexivity. }
    split.
    + simpl. rewrite Hcat. unfold c.
      replace (Z.to_nat (i + chunkSize))
        with (Z.to_nat chunkSize + Z.to_nat i)%nat by lia.
      rewrite <- skipn_skipn. apply firstn_skipn.
    + destruct rest as [|c' rest']; simpl.
      * lia.
      * split; [|exact Hfull].
        destruct (Z.ltb_spec (i + chunkSize) (Z.of_nat (List.length array)))
          as [Hin|Hout]; [lia|].
        exfalso.
        apply (full_but_last_concat chunkSize (c' :: rest') Hc Hfull);
          [discriminate|].
        rewrite Hcat. apply skipn_all2. lia.
  - exists []. rewrite app_nil_r. split; [reflexivity|].
    split; [|exact I]. simpl. symmetry. apply skipn_all2. lia.
Qed.

Lemma full_but_last_count (chunkSize : Z) (chunks : list (list T)) :
  (0 < chunkSize)%Z ->
  full_but_last chunkSize chunks ->
  Z.of_nat (List.length chunks)
  = ((Z.of_nat (List.length (List.concat chunks)) + chunkSize - 1) / chunkSize)%Z.
Proof.
  intros Hc. induction chunks as [|c rest IH]; intro Hfull.
  - simpl. symmetry. apply Z.div_small. lia.
  - destruct rest as [|c' rest'].
    + simpl in *. rewrite app_nil_r.
      apply (Z.div_unique_pos _ _ 1 (Z.of_nat (List.length c) - 1)); lia.
    + destruct Hfull as [Hlen Hfull]. specialize (IH Hfull).
      change (List.concat (c :: c' :: rest')) with (c ++ List.concat (c' :: rest')).
      rewrite length_app.
      change (List.length (c :: c' :: rest'))
        with (S (List.length (c' :: rest'))).
      rewrite Nat2Z.inj_succ, IH, Nat2Z.inj_add, Hlen.
      replace (chunkSize + Z.of_nat (List.length (List.concat (c' :: rest')))
               + chunkSize - 1)%Z
        with (1 * chunkSize
              + (Z.of_nat (List.length (List.concat (c' :: rest')))
                 + chunkSize - 1))%Z by lia.
      rewrite Z.div_add_l by lia. lia.
Qed.

Lemma chunkArray_chunks (array : list T) (chunkSize : Z) (fuel : nat) :
  (0 < chunkSize)%Z ->
  (List.length array < fuel)%nat ->
  exists chunks,
    Lifecycle.chunkArray fuel array chunkSize = Some chunks
    /\ List.concat chunks = array
    /\ full_but_last chunkSize chunks.
Proof.
  intros Hc Hfuel.
  destruct (chunkArray_loop_spec array chunkSize Hc fuel 0 [])
    as (chunks & Hloop & Hcat & Hfull); [lia|lia|].
  exists chunks. simpl in Hloop, Hcat. repeat split; assumption.
Qed.

(** X1. With a positive chunk size [chunkArray] returns, after at most
    one loop test per element and one more, chunks whose concatenation is
    the array: all of them hold exactly [chunkSize] elements but the last,
    which holds between one and [chunkSize], and there are
    ceil(length / chunkSize) of them. *)
Theorem chunkArray_partition (array : list T) (chunkSize : Z) (fuel : nat) :
  (0 < chunkSize)%Z ->
  (List.length array < fuel)%nat ->
  exists chunks,
    Lifecycle.chunkArray fuel array chunkSize = Some chunks
    /\ List.concat chunks = array
    /\ full_but_last chunkSize chunks
    /\ Z.of_nat (List.length chunks)
       = ((Z.of_nat (List.length array) + chunkSize - 1) / chunkSize)%Z.
Proof.
  intros Hc Hfuel.
  destruct (chunkArray_chunks array chunkSize fuel Hc Hfuel)
    as (chunks & Hloop & Hcat & Hfull).
  exists chunks.
  split; [exact Hloop|]. split; [exact Hcat|]. split; [exact Hfull|].
  rewrite <- Hcat. apply full_but_last_count; assumption.
Qed.

Lemma chunkArray_loop_stuck (array : list T) (chunkSize : Z) :
  (chunkSize <= 0)%Z -> array <> [] ->
  forall (fuel : nat) (i : Z) (chunks : list (list T)),
    (i <= 0)%Z ->
    Lifecycle.chunkArray_loop fuel array chunkSize i chunks = None.
Proof.
  intros Hc Hne. induction fuel as [|fuel IH]; intros i chunks Hi;
    [reflexivity|].
  simpl. destruct (Z.ltb_spec i (Z.of_nat (List.length array))) as [_|Hge].
  - apply IH. lia.
  - destruct array; [congruence|simpl in Hge; lia].
Qed.

(** X2. With a chunk size of zero or less the loop of [chunkArray] never
    ends on a non-empty array: its index never passes the length, so no
    number of iterations brings a result. On the empty array it returns
    no chunk at its first test, whatever the chunk size. *)
Theorem chunkArray_never_returns (array : list T) (chunkSize : Z) :
  (chunkSize <= 0)%Z ->
  (array <> [] ->
   forall fuel, Lifecycle.chunkArray fuel array chunkSize = None)
  /\ (forall fuel,
        Lifecycle.chunkArray (S fuel) (@nil T) chunkSize = Some []).
Proof.
  intro Hc. split.
  - intros Hne fuel. apply chunkArray_loop_stuck; [assumption|assumption|lia].
  - intro fuel. reflexivity.
Qed.

End ChunkArray.

Lemma chunkArray_partition_witness :
  exists chunks,
    Lifecycle.chunkArray 6 [1; 2; 3; 4; 5]%Z 2 = Some chunks
    /\ List.concat chunks = [1; 2; 3; 4; 5]%Z
    /\ List.length chunks = 3%nat.
Proof.
  destruct (chunkArray_partition Z [1; 2; 3; 4; 5]%Z 2 6)
    as (chunks & Hc & Hcat & _ & Hn).
  - lia.
  - simpl. lia.
  - exists chunks. split; [exact Hc|]. split; [exact Hcat|].
    change ((Z.of_nat (List.length [1; 2; 3; 4; 5]%Z) + 2 - 1) / 2)%Z
      with 3%Z in Hn.
    lia.
Defined.

Lemma chunkArray_never_returns_witness :
  Lifecycle.chunkArray 1000 ["a"; "b"] 0 = None
  /\ Lifecycle.chunkArray 1 (@nil string) 0 = Some [].
Proof.
  split.
  - apply (proj1 (chunkArray_never_returns string ["a"; "b"] 0
                    (Z.le_refl 0))).
    discriminate.
  - apply (proj2 (chunkArray_never_returns string ["a"; "b"] 0
                    (Z.le_refl 0))).
Defined.

(** ** The registry of consumers and [gracefulShutdown] *)

Section Registry.

Import Lifecycle.

Lemma count_from (l : list (list string)) (a : nat) :
  fold_left (fun sum ids => (sum + List.length ids)%nat) l a
  = (a + list_sum (map (@List.length string) l))%nat.
Proof.
  revert a. induction l as [|ids l IH]; intro a; simpl; [lia|].
  rewrite IH. lia.
Qed.

Lemma count_cons (entry : string * list string) (consumers : Consumers) :
  getActiveConsumerCount (entry :: consumers)
  = (List.length (snd entry) + getActiveConsumerCount consumers)%nat.
Proof.
  unfold getActiveConsumerCount. simpl. rewrite !count_from. lia.
Qed.

Lemma count_app (a b : Consumers) :
  getActiveConsumerCount (a ++ b)
  = (getActiveConsumerCount a + getActiveConsumerCount b)%nat.
Proof.
  induction a as [|e a IH]; [reflexivity|].
  simpl. rewrite !count_cons, IH. lia.
Qed.

Lemma Map_has_get (queueName : string) (consumers : Consumers) :
  Map_has queueName consumers = false <-> Map_get queueName consumers = None.
Proof.
  unfold Map_has, Map_get.
  induction consumers as [|e m IH]; simpl; [tauto|].
  destruct (String.eqb (fst e) queueName); simpl; [split; discriminate|].
  exact IH.
Qed.

Lemma Map_has_keys (queueName : string) (consumers : Consumers) :
  Map_has queueName consumers = true <-> In queueName (map fst consumers).
Proof.
  unfold Map_has. rewrite existsb_exists, in_map_iff. split.
  - intros [e [He E]]. exists e. apply String.eqb_eq in E. tauto.
  - intros [e [E He]]. exists e. split; [exact He|].
    rewrite E. apply String.eqb_refl.
Qed.

Lemma replace_absent (queueName : string) (ids : list string)
    (consumers : Consumers) :
  ~ In queueName (map fst consumers) ->
  map (fun entry : string * list string =>
         if String.eqb (fst entry) queueName then (queueName, ids)
         else entry)
      consumers
  = consumers.
Proof.
  induction consumers as [|e m IH]; simpl; intro Hnot; [reflexivity|].
  destruct (String.eqb_spec (fst e) queueName) as [E|E]; [tauto|].
  rewrite IH by tauto. reflexivity.
Qed.

Lemma Map_set_keys (queueName : string) (ids : list string)
    (consumers : Consumers) :
  Map_has queueName consumers = true ->
  map fst (Map_set queueName ids consumers) = map fst consumers.
Proof.
  intro Hhas. unfold Map_set. rewrite Hhas, map_map.
  apply map_ext. intro e.
  destruct (String.eqb_spec (fst e) queueName) as [E|E];
    [symmetry; exact E|reflexivity].
Qed.

Lemma Map_get_set (queueName : string) (ids : list string)
    (consumers : Consumers) :
  Map_get queueName (Map_set queueName ids consumers) = Some ids.
Proof.
  unfold Map_set. destruct (Map_has queueName consumers) eqn:Hhas.
  - unfold Map_has in Hhas. unfold Map_get.
    induction consumers as [|e m IH]; simpl in *; [discriminate|].
    destruct (String.eqb (fst e) queueName) eqn:E; simpl.
    + rewrite String.eqb_refl. reflexivity.
    + rewrite E. apply IH. exact Hhas.
  - apply Map_has_get in Hhas. unfold Map_get in *.
    induction consumers as [|e m IH]; simpl in *.
    + rewrite String.eqb_refl. reflexivity.
    + destruct (String.eqb (fst e) queueName); [discriminate|].
      apply IH, Hhas.
Qed.

(** Replacing the set of a queue changes the count by the difference of
    the sizes. *)
Lemma Map_set_count (queueName : string) (ids old : list string)
    (consumers : Consumers) :
  NoDup (map fst consumers) ->
  Map_get queueName consumers = Some old ->
  (getActiveConsumerCount (Map_set queueName ids consumers)
   + List.length old
   = getActiveConsumerCount consumers + List.length ids)%nat.
Proof.
  intros Hkeys Hget.
  assert (Hhas : Map_has queueName consumers = true).
  { destruct (Map_has queueName consumers) eqn:E; [reflexivity|].
    apply Map_has_get in E. congruence. }
  unfold Map_set. rewrite Hhas. clear Hhas. unfold Map_get in Hget.
  induction consumers as [|e m IH]; simpl in *; [discriminate|].
  inversion Hkeys as [|? ? Hfresh Hrest]; subst.
  destruct (String.eqb_spec (fst e) queueName) as [E|E].
  - simpl in Hget. inversion Hget; subst old.
    rewrite replace_absent by (rewrite <- E; exact Hfresh).
    rewrite !count_cons. simpl. lia.
  - rewrite !count_cons. specialize (IH Hrest Hget). lia.
Qed.

Lemma Map_set_well_formed (queueName : string) (ids : list string)
    (consumers : Consumers) :
  well_formed consumers -> NoDup ids ->
  well_formed (Map_set queueName ids consumers).
Proof.
  intros [Hkeys Hsets] Hids. unfold well_formed.
  destruct (Map_has queueName consumers) eqn:Hhas.
  - rewrite Map_set_keys by exact Hhas. split; [exact Hkeys|].
    unfold Map_set. rewrite Hhas. rewrite Forall_forall in *.
    intros e He. apply in_map_iff in He. destruct He as [e0 [<- He0]].
    destruct (String.eqb (fst e0) queueName); [exact Hids|apply Hsets, He0].
  - unfold Map_set. rewrite Hhas. rewrite map_app. simpl. split.
    + apply NoDup_snoc; [exact Hkeys|]. intro Hin.
      apply Map_has_keys in Hin. congruence.
    + apply Forall_app. split; [exact Hsets|]. repeat constructor. exact Hids.
Qed.

Lemma well_formed_get (queueName : string) (ids : list string)
    (consumers : Consumers) :
  well_formed consumers -> Map_get queueName consumers = Some ids ->
  NoDup ids.
Proof.
  intros [_ Hsets] Hget. unfold Map_get in Hget.
  destruct (find _ consumers) as [e|] eqn:Hfind; [|discriminate].
  inversion Hget; subst. apply find_some in Hfind.
  rewrite Forall_forall in Hsets. apply Hsets. tauto.
Qed.

Lemma Set_add_spec (consumerId : string) (ids : list string) :
  NoDup ids ->
  NoDup (Set_add consumerId ids)
  /\ existsb (String.eqb consumerId) (Set_add consumerId ids) = true
  /\ List.length (Set_add consumerId ids)
     = (List.length ids
        + if existsb (String.eqb consumerId) ids then 0 else 1)%nat.
Proof.
  intro Hn. unfold Set_add.
  destruct (existsb (String.eqb consumerId) ids) eqn:E.
  - repeat split; [exact Hn|exact E|lia].
  - repeat split.
    + apply NoDup_snoc; [exact Hn|]. intro Hin.
      apply existsb_eqb_In in Hin. congruence.
    + apply existsb_eqb_In, in_or_app. right. left. reflexivity.
    + rewrite length_app. reflexivity.
Qed.

Lemma Set_delete_spec (consumerId : string) (ids : list string) :
  NoDup ids ->
  NoDup (Set_delete consumerId ids)
  /\ existsb (String.eqb consumerId) (Set_delete consumerId ids) = false
  /\ (List.length (Set_delete consumerId ids)
      + (if existsb (String.eqb consumerId) ids then 1 else 0)
      = List.length ids)%nat.
Proof.
  intro Hn. unfold Set_delete. split; [apply NoDup_filter, Hn|]. split.
  - destruct (existsb _ (filter _ ids)) eqn:E; [|reflexivity].
    apply existsb_eqb_In, filter_In in E. destruct E as [_ E].
    rewrite String.eqb_refl in E. discriminate.
  - induction ids as [|x ids IH]; simpl; [reflexivity|].
    inversion Hn as [|? ? Hx Hrest]; subst. specialize (IH Hrest).
    rewrite (String.eqb_sym consumerId x).
    destruct (String.eqb_spec x consumerId) as [E|E]; simpl.
    + subst x.
      assert (Hno : existsb (String.eqb consumerId) ids = false).
      { destruct (existsb _ ids) eqn:E; [|reflexivity].
        apply existsb_eqb_In in E. contradiction. }
      rewrite Hno in IH. lia.
    + lia.
Qed.

(** X3. On a well-formed registry, the registration of [consume] and the
    stop function keep it well formed and count as a set does:
    registering adds one to [getActiveConsumerCount] unless the id is
    already registered for the queue, stopping takes one off if and only
    if it is, and afterwards the id is, respectively is not, registered.
    The stop function leaves the entry of the queue in the map. *)
Theorem registry_counts (queueName consumerId : string)
    (consumers : Consumers) :
  well_formed consumers ->
  (well_formed (register queueName consumerId consumers)
   /\ registered queueName consumerId
                 (register queueName consumerId consumers) = true
   /\ getActiveConsumerCount (register queueName consumerId consumers)
      = (getActiveConsumerCount consumers
         + if registered queueName consumerId consumers then 0 else 1)%nat)
  /\ (well_formed (stop queueName consumerId consumers)
      /\ registered queueName consumerId
                    (stop queueName consumerId consumers) = false
      /\ (getActiveConsumerCount (stop queueName consumerId consumers)
          + (if registered queueName consumerId consumers then 1 else 0)
          = getActiveConsumerCount consumers)%nat
      /\ map fst (stop queueName consumerId consumers)
         = map fst consumers).
Proof.
  intro Hwf. split.
  - unfold register, registered.
    destruct (Map_has queueName consumers) eqn:Hhas; simpl.
    + destruct (Map_get queueName consumers) as [ids|] eqn:Hget.
      2:{ apply Map_has_get in Hget. congruence. }
      pose proof (well_formed_get _ _ _ Hwf Hget) as Hids.
      destruct (Set_add_spec consumerId ids Hids) as (Hn & Hin & Hlen).
      split; [apply Map_set_well_formed; assumption|].
      rewrite Map_get_set. split; [exact Hin|].
      pose proof (Map_set_count queueName (Set_add consumerId ids) ids
                    consumers (proj1 Hwf) Hget) as Hc.
      lia.
    + assert (Hnone : Map_get queueName consumers = None)
        by (apply Map_has_get, Hhas).
      rewrite Hnone, Map_get_set.
      assert (Hwf1 : well_formed (Map_set queueName [] consumers))
        by (apply Map_set_well_formed; [exact Hwf|constructor]).
      destruct (Set_add_spec consumerId [] (NoDup_nil _))
        as (Hn & Hin & Hlen).
      split; [apply Map_set_well_formed; assumption|].
      rewrite Map_get_set. split; [exact Hin|].
      pose proof (Map_set_count queueName (Set_add consumerId []) []
                    (Map_set queueName [] consumers) (proj1 Hwf1)
                    (Map_get_set _ _ _)) as Hc.
      assert (Hnew : getActiveConsumerCount (Map_set queueName [] consumers)
                     = getActiveConsumerCount consumers).
      { unfold Map_set. rewrite Hhas, count_app.
        change (getActiveConsumerCount [(queueName, [])]) with 0%nat. lia. }
      simpl in Hlen, Hc. lia.
  - unfold stop, registered.
    destruct (Map_get queueName consumers) as [ids|] eqn:Hget.
    + pose proof (well_formed_get _ _ _ Hwf Hget) as Hids.
      destruct (Set_delete_spec consumerId ids Hids) as (Hn & Hout & Hlen).
      split; [apply Map_set_well_formed; assumption|].
      rewrite Map_get_set. split; [exact Hout|].
      pose proof (Map_set_count queueName (Set_delete consumerId ids) ids
                    consumers (proj1 Hwf) Hget) as Hc.
      split; [lia|].
      apply Map_set_keys.
      destruct (Map_has queueName consumers) eqn:E; [reflexivity|].
      apply Map_has_get in E. congruence.
    + rewrite Hget. repeat split; try apply Hwf. lia.
Qed.

Lemma registry_counts_witness :
  getActiveConsumerCount (register "orders" "c2" [("orders", ["c1"])]) = 2%nat
  /\ getActiveConsumerCount (stop "orders" "c1" [("orders", ["c1"])]) = 0%nat
  /\ map fst (stop "orders" "c1" [("orders", ["c1"])]) = ["orders"].
Proof.
  assert (Hwf : well_formed [("orders", ["c1"])]).
  { split; repeat constructor; simpl; tauto. }
  destruct (registry_counts "orders" "c2" [("orders", ["c1"])] Hwf)
    as [(_ & _ & Hadd) _].
  destruct (registry_counts "orders" "c1" [("orders", ["c1"])] Hwf)
    as [_ (_ & _ & Hdel & Hkeys)].
  split; [exact Hadd|]. split; [|exact Hkeys].
  assert (E : registered "orders" "c1" [("orders", ["c1"])] = true)
    by reflexivity.
  rewrite E in Hdel.
  change (getActiveConsumerCount [("orders", ["c1"])]) with 1%nat in Hdel.
  lia.
Defined.

Lemma gracefulShutdown_loop_spec (observed : nat -> Consumers) :
  forall fuel attempts,
    (attempts <= 30)%nat ->
    (30 - attempts < fuel)%nat ->
    exists waits,
      gracefulShutdown_loop fuel attempts observed = Some waits
      /\ (attempts <= waits <= 30)%nat
      /\ ((waits < 30)%nat -> getActiveConsumerCount (observed waits) = 0%nat)
      /\ (forall k, (attempts <= k < waits)%nat ->
                    (0 < getActiveConsumerCount (observed k))%nat).
Proof.
  induction fuel as [|fuel IH]; intros attempts Hle Hfuel; [lia|].
  simpl.
  destruct (Nat.ltb_spec attempts 30) as [Hlt|Hge]; simpl.
  - destruct (Nat.ltb_spec 0 (getActiveConsumerCount (observed attempts)))
      as [Hpos|Hzero].
    + destruct (IH (S attempts)) as (waits & Hloop & Hb & Hdone & Hbusy);
        [lia|lia|].
      exists waits. split; [exact Hloop|]. split; [lia|].
      split; [exact Hdone|].
      intros k Hk. destruct (Nat.eq_dec k attempts) as [->|Hne];
        [exact Hpos|apply Hbusy; lia].
    + exists attempts. split; [reflexivity|]. split; [lia|].
      split; [intros _; lia|]. intros k Hk. lia.
  - exists attempts. split; [reflexivity|]. split; [lia|].
    split; [lia|]. intros k Hk. lia.
Qed.

(** X4. [gracefulShutdown] raises the shutdown flag and returns after at
    most 30 waits of one second, without failing: it stops waiting at the
    first test that finds no registered consumer, every earlier test
    found one, and when the registry does not change while it waits (it
    deregisters nobody itself) it returns at once on an empty registry
    and only after all 30 waits otherwise. *)
Theorem gracefulShutdown_waits (observed : nat -> Consumers) (fuel : nat) :
  (30 < fuel)%nat ->
  exists waits,
    gracefulShutdown fuel observed = (true, Some waits)
    /\ (waits <= 30)%nat
    /\ ((waits < 30)%nat -> getActiveConsumerCount (observed waits) = 0%nat)
    /\ (forall k, (k < waits)%nat ->
                  (0 < getActiveConsumerCount (observed k))%nat)
    /\ ((forall k, observed k = observed 0%nat) ->
        waits = if Nat.eqb (getActiveConsumerCount (observed 0%nat)) 0
                then 0%nat else 30%nat).
Proof.
  intro Hfuel.
  destruct (gracefulShutdown_loop_spec observed fuel 0)
    as (waits & Hloop & Hb & Hdone & Hbusy); [lia|lia|].
  exists waits. unfold gracefulShutdown. rewrite Hloop.
  split; [reflexivity|]. split; [lia|]. split; [exact Hdone|].
  split; [intros k Hk; apply Hbusy; lia|].
  intro Hsame.
  destruct (Nat.eqb_spec (getActiveConsumerCount (observed 0%nat)) 0)
    as [Hz|Hnz].
  - destruct waits as [|w]; [reflexivity|].
    assert (H0 := Hbusy 0%nat). lia.
  - destruct (Nat.lt_ge_cases waits 30) as [Hlt|Hge]; [|lia].
    specialize (Hdone Hlt). rewrite Hsame in Hdone. contradiction.
Qed.

Lemma gracefulShutdown_waits_witness :
  exists waits,
    gracefulShutdown 31 (fun _ => [("orders", ["c1"])]) = (true, Some waits)
    /\ waits = 30%nat.
Proof.
  destruct (gracefulShutdown_waits (fun _ => [("orders", ["c1"])]) 31)
    as (waits & Hrun & _ & _ & _ & Hsame); [lia|].
  exists waits. split; [exact Hrun|]. apply Hsame. reflexivity.
Defined.

End Registry.

(** ** One run of the poll loop *)

Section PollLoop.

Import MessageQueue.

Lemma for_chunks_throws (chunkSize : Z) (chunks : list (list Message.t)) :
  (0 < chunkSize)%Z ->
  full_but_last chunkSize chunks ->
  chunks <> [] ->
  Poller.for_chunks chunks = Throw (Error "p is not a function").
Proof.
  intros Hc Hfull Hne. destruct chunks as [|c rest]; [congruence|].
  destruct c as [|p c]; [|reflexivity].
  exfalso. destruct rest; simpl in Hfull; lia.
Qed.

Lemma fetch_batch_length (now : Z) (queueName : string) (limit : Z)
    (d : DB) :
  (List.length (fetch_select queueName limit now d)
   <= List.length (messages d))%nat.
Proof.
  unfold fetch_select, Sql.limit.
  assert (H : (List.length
                 (Sql.order_by fetch_order
                    (filter (fetch_where queueName now) (messages d)))
               <= List.length (messages d))%nat).
  { rewrite <- (Permutation_length (order_by_perm _ fetch_order _)).
    apply filter_length_le. }
  destruct (Z.ltb limit 0); [exact H|].
  rewrite length_firstn. lia.
Qed.

(** X5. A run of [processMessages] that finds the consumer stopped or
    the engine shutting down claims nothing, invokes no handler and does
    not arm the timer again: that consumer never polls any more. An
    active run with a concurrency of at least one claims its batch, has
    invoked the handler of every message of the batch whatever the
    concurrency, and arms the timer with [pollInterval] after an empty
    batch and with twice [pollInterval] after any other, because calling
    the first promise of the first chunk throws. *)
Theorem processMessages_rearms
    (fuel : nat) (isActive isShuttingDown : bool) (now : Z)
    (queueName : string) (batchSize pollInterval concurrency : Z) (d : DB) :
  (isActive = false \/ isShuttingDown = true ->
   Poller.processMessages fuel isActive isShuttingDown now queueName
                          batchSize pollInterval concurrency d
   = Some (Poller.mkCycle d [] Poller.NotArmed))
  /\ (isActive = true -> isShuttingDown = false ->
      (0 < concurrency)%Z ->
      (List.length (messages d) < fuel)%nat ->
      exists d' batch,
        fetchMessages now queueName batchSize d = (d', Ok batch)
        /\ Poller.processMessages fuel isActive isShuttingDown now queueName
                                  batchSize pollInterval concurrency d
           = Some (Poller.mkCycle d' batch
                     (Poller.Armed
                        (match batch with
                         | [] => pollInterval
                         | _ :: _ => pollInterval * 2
                         end)%Z))).
Proof.
  split.
  - intros [-> | ->]; unfold Poller.processMessages; simpl;
      [reflexivity|]. rewrite orb_true_r. reflexivity.
  - intros -> -> Hc Hfuel. unfold Poller.processMessages. simpl.
    rewrite fetchMessages_eq. do 2 eexists. split; [reflexivity|].
    set (batch := map rowToMessage
                      (fetch_select queueName batchSize now d)).
    destruct batch as [|m batch'] eqn:Hbatch; [reflexivity|].
    rewrite <- Hbatch.
    replace (Nat.eqb (List.length batch) 0) with false
      by (rewrite Hbatch; reflexivity).
    destruct (chunkArray_chunks Message.t batch concurrency fuel Hc)
      as (chunks & Hchunks & Hcat & Hfull).
    { unfold batch. rewrite length_map.
      pose proof (fetch_batch_length now queueName batchSize d). lia. }
    rewrite Hchunks.
    rewrite (for_chunks_throws concurrency chunks Hc Hfull).
    + rewrite Hbatch. reflexivity.
    + intros ->. simpl in Hcat. congruence.
Qed.

(** X6. An active run with a concurrency of zero or less that claims at
    least one message never returns: the messages are claimed and their
    handlers invoked, but [chunkArray] loops for ever, so the timer is
    never armed again and the consumer polls no more. *)
Theorem processMessages_hangs
    (now : Z) (queueName : string) (batchSize pollInterval concurrency : Z)
    (d : DB) (r : Row.t) :
  (concurrency <= 0)%Z ->
  batchSize <> 0%Z ->
  In r (messages d) ->
  fetch_where queueName now r = true ->
  forall fuel,
    Poller.processMessages fuel true false now queueName batchSize
                           pollInterval concurrency d
    = None.
Proof.
  intros Hc Hb Hin Hw fuel. unfold Poller.processMessages. simpl.
  rewrite fetchMessages_eq.
  pose proof (fetch_select_nonempty queueName batchSize now d r Hb Hin Hw)
    as Hpos.
  destruct (fetch_select queueName batchSize now d) as [|r0 rows] eqn:Hrows;
    [simpl in Hpos; lia|].
  simpl.
  unfold Lifecycle.chunkArray.
  rewrite (chunkArray_loop_stuck Message.t
             (rowToMessage r0 :: map rowToMessage rows) concurrency Hc);
    [reflexivity|discriminate|lia].
Qed.

Lemma processMessages_rearms_witness :
  exists d' batch,
    fetchMessages 9000 "orders" 4 Sample.priorities_db = (d', Ok batch)
    /\ Poller.processMessages 5 true false 9000 "orders" 4 1000 2
                              Sample.priorities_db
       = Some (Poller.mkCycle d' batch (Poller.Armed 2000))
    /\ List.length batch = 4%nat.
Proof.
  destruct (proj2 (processMessages_rearms 5 true false 9000 "orders" 4 1000
                     2 Sample.priorities_db) eq_refl eq_refl)
    as (d' & batch & Hf & Hp).
  - lia.
  - simpl. lia.
  - exists d', batch. split; [exact Hf|].
    assert (Hlen : List.length batch = 4%nat).
    { vm_compute in Hf. inversion Hf. reflexivity. }
    split; [|exact Hlen].
    rewrite Hp. destruct batch; [discriminate Hlen|reflexivity].
Defined.

Lemma processMessages_hangs_witness :
  Poller.processMessages 1000 true false 9000 "orders" 1 1000 0
                         Sample.priorities_db
  = None.
Proof.
  refine (processMessages_hangs 9000 "orders" 1 1000 0 Sample.priorities_db
            (Sample.row "low" pending 1 0 3 1 1 None None) _ _ _ _ 1000).
  - lia.
  - discriminate.
  - simpl. left. reflexivity.
  - reflexivity.
Defined.

End PollLoop.

(** ** The producer: outcomes of [send], deduplication, delay and batches *)

Section SendOutcomes.

Import MessageQueue.

Lemma newest_first_total (a b : Row.t) :
  Z.leb (Row.created_at b) (Row.created_at a) = true
  \/ Z.leb (Row.created_at a) (Row.created_at b) = true.
Proof. rewrite !Z.leb_le. lia. Qed.

Lemma newest_first_trans (a b c : Row.t) :
  Z.leb (Row.created_at b) (Row.created_at a) = true ->
  Z.leb (Row.created_at c) (Row.created_at b) = true ->
  Z.leb (Row.created_at c) (Row.created_at a) = true.
Proof. rewrite !Z.leb_le. lia. Qed.

(** The rows that the duplicate check of [send] looks at. *)
Lemma duplicate_filter (queueName k : string) (r : Row.t) :
  (String.eqb (Row.queue_name r) queueName
   && match Row.deduplication_id r with
      | Some d => String.eqb d k
      | None => false
      end
   && negb (Status_eqb (Row.status r) failed)) = true
  <-> Row.queue_name r = queueName
      /\ Row.deduplication_id r = Some k
      /\ Row.status r <> failed.
Proof.
  rewrite !andb_true_iff, String.eqb_eq, negb_true_iff. split.
  - intros [[Hq Hd] Hs]. split; [exact Hq|]. split.
    + destruct (Row.deduplication_id r) as [x|]; [|discriminate].
      apply String.eqb_eq in Hd. congruence.
    + intro E. rewrite E in Hs. discriminate.
  - intros (Hq & Hd & Hs). rewrite Hd, String.eqb_refl.
    repeat split; try assumption.
    destruct (Row.status r); try reflexivity. congruence.
Qed.

(** The duplicate check finds a row of the pair that is not failed and
    that no other such row is newer than; it finds none only when there
    is none. *)
Lemma select_duplicate_spec (queueName k : string) (d : DB) :
  match select_duplicate queueName k d with
  | Some e =>
      In e (messages d)
      /\ Row.queue_name e = queueName
      /\ Row.deduplication_id e = Some k
      /\ Row.status e <> failed
      /\ forall x, In x (messages d) ->
                   Row.queue_name x = queueName ->
                   Row.deduplication_id x = Some k ->
                   Row.status x <> failed ->
                   (Row.created_at x <= Row.created_at e)%Z
  | None =>
      forall x, In x (messages d) ->
                Row.queue_name x = queueName ->
                Row.deduplication_id x = Some k ->
                Row.status x = failed
  end.
Proof.
  unfold select_duplicate.
  set (keep := fun r : Row.t =>
                 String.eqb (Row.queue_name r) queueName
                 && match Row.deduplication_id r with
                    | Some d0 => String.eqb d0 k
                    | None => false
                    end
                 && negb (Status_eqb (Row.status r) failed)).
  set (newest := fun a b : Row.t =>
                   Z.leb (Row.created_at b) (Row.created_at a)).
  pose proof (order_by_sorted Row.t newest newest_first_total
                newest_first_trans (filter keep (messages d))) as Hsorted.
  pose proof (fun x => order_by_In Row.t newest x (filter keep (messages d)))
    as Hin.
  destruct (Sql.order_by newest (filter keep (messages d))) as [|e rest];
    simpl.
  - intros x Hx Hq Hd.
    destruct (Row.status x) eqn:Hs; try reflexivity; exfalso;
      apply (proj2 (Hin x)); apply filter_In; (split; [exact Hx|]);
      apply duplicate_filter; rewrite Hs; repeat split; try assumption;
      discriminate.
  - assert (He : In e (filter keep (messages d)))
      by (apply Hin; left; reflexivity).
    apply filter_In in He. destruct He as [He Hk].
    apply duplicate_filter in Hk. destruct Hk as (Hq & Hd & Hs).
    repeat split; try assumption.
    intros x Hx Hxq Hxd Hxs.
    assert (Hxin : In x (e :: rest)).
    { apply Hin, filter_In. split; [exact Hx|].
      apply duplicate_filter. tauto. }
    destruct Hxin as [<-|Hxin]; [lia|].
    inversion Hsorted as [|? ? _ Hall]; subst.
    rewrite Forall_forall in Hall. apply Z.leb_le, (Hall x Hxin).
Qed.

(** The outcomes of [send], case by case. *)
Lemma send_cases (self : QueueOptions.t) (messageId : string) (now : Z)
    (queueName : string) (payload : Value) (options : SendOptions.t)
    (d : DB) :
  match send self messageId now queueName payload options d with
  | (d', Ok i) =>
      i = messageId
      /\ Sql.has_message messageId d = false
      /\ Sql.has_queue queueName d = true
      /\ exists r,
           d' = mkDB (queues d) (messages d ++ [r]) (dead_letter_messages d)
           /\ Row.id r = messageId
           /\ Row.queue_name r = queueName
           /\ Row.payload r = JSON_stringify payload
           /\ Row.status r = pending
           /\ Row.retries r = 0%Z
           /\ Row.priority r = nullish (SendOptions.priority options) 5%Z
           /\ Row.max_retries r
              = nullish (SendOptions.maxRetries options)
                        (QueueOptions.maxRetries self)
           /\ Row.created_at r = seconds now
           /\ Row.available_at r
              = seconds (now + nullish (SendOptions.delay options) 0)
           /\ Row.deduplication_id r
              = truthy_string (SendOptions.deduplicationId options)
           /\ Row.expires_at r
              = option_map seconds (SendOptions.expiresAt options)
           /\ forall k old,
                truthy_string (SendOptions.deduplicationId options) = Some k ->
                In old (messages d) ->
                Row.queue_name old = queueName ->
                Row.deduplication_id old = Some k ->
                Row.status old <> failed ->
                (Row.created_at old <= seconds now)%Z
  | (d', Throw e) =>
      d' = d
      /\ ((e = SqliteConstraintPrimaryKey
           /\ Sql.has_message messageId d = true)
          \/ (e = SqliteConstraintForeignKey
              /\ Sql.has_message messageId d = false
              /\ Sql.has_queue queueName d = false)
          \/ exists k old,
               truthy_string (SendOptions.deduplicationId options) = Some k
               /\ e = Error ("Duplicate message with deduplication ID: " ++ k)
               /\ In old (messages d)
               /\ Row.queue_name old = queueName
               /\ Row.deduplication_id old = Some k
               /\ Row.status old <> failed
               /\ (seconds now <= Row.created_at old)%Z)
  end.
Proof.
  unfold send, Tx.executeTransaction, Tx.bind, Sql.insert_message.
  cbn [Row.id Row.queue_name].
  destruct (Sql.has_message messageId d) eqn:Hm;
    [split; [reflexivity|left; split; reflexivity]|].
  destruct (Sql.has_queue queueName d) eqn:Hq; simpl negb; cbv iota;
    [|split; [reflexivity|right; left; repeat split; reflexivity]].
  cbv beta iota.
  assert (Hok : forall row,
            row = Row.mk messageId queueName (JSON_stringify payload) pending
                    (nullish (SendOptions.priority options) 5) 0
                    (nullish (SendOptions.maxRetries options)
                             (QueueOptions.maxRetries self))
                    (seconds now)
                    (seconds (now + nullish (SendOptions.delay options) 0))
                    None None None None (SendOptions.metadata options)
                    (truthy_string (SendOptions.deduplicationId options))
                    (option_map seconds (SendOptions.expiresAt options)) ->
            (forall k old,
                truthy_string (SendOptions.deduplicationId options) = Some k ->
                In old (messages d) ->
                Row.queue_name old = queueName ->
                Row.deduplication_id old = Some k ->
                Row.status old <> failed ->
                (Row.created_at old <= seconds now)%Z) ->
            messageId = messageId
            /\ false = false /\ true = true
            /\ exists r,
                 mkDB (queues d) (messages d ++ [row])
                      (dead_letter_messages d)
                 = mkDB (queues d) (messages d ++ [r])
                        (dead_letter_messages d)
                 /\ Row.id r = messageId
                 /\ Row.queue_name r = queueName
                 /\ Row.payload r = JSON_stringify payload
                 /\ Row.status r = pending
                 /\ Row.retries r = 0%Z
                 /\ Row.priority r = nullish (SendOptions.priority options) 5%Z
                 /\ Row.max_retries r
                    = nullish (SendOptions.maxRetries options)
                              (QueueOptions.maxRetries self)
                 /\ Row.created_at r = seconds now
                 /\ Row.available_at r
                    = seconds (now + nullish (SendOptions.delay options) 0)
                 /\ Row.deduplication_id r
                    = truthy_string (SendOptions.deduplicationId options)
                 /\ Row.expires_at r
                    = option_map seconds (SendOptions.expiresAt options)
                 /\ forall k old,
                      truthy_string (SendOptions.deduplicationId options)
                      = Some k ->
                      In old (messages d) ->
                      Row.queue_name old = queueName ->
                      Row.deduplication_id old = Some k ->
                      Row.status old <> failed ->
                      (Row.created_at old <= seconds now)%Z).
  { intros row -> Hnewest. repeat split. eexists.
    repeat (split; [reflexivity|]). exact Hnewest. }
  destruct (truthy_string (SendOptions.deduplicationId options)) as [k|]
    eqn:Hk; [|apply Hok; [reflexivity|discriminate]].
  unfold Tx.read.
  match goal with
  | |- context [select_duplicate queueName k ?db1] =>
      pose proof (select_duplicate_spec queueName k db1) as Hsel;
      destruct (select_duplicate queueName k db1) as [existing|]
  end.
  - destruct Hsel as (Hin & Hxq & Hxd & Hxs & Hmax). simpl in Hin, Hmax.
    destruct (String.eqb_spec (Row.id existing) messageId) as [E|E];
      simpl negb; cbv iota.
    + apply Hok; [reflexivity|].
      intros k0 old Hk0 Hold Hoq Hod Hos. inversion Hk0; subst k0.
      apply in_app_iff in Hin. destruct Hin as [Hin|[<-|[]]].
      * exfalso. apply (has_message_false messageId d Hm).
        rewrite <- E. apply in_map, Hin.
      * apply (Hmax old); try assumption. apply in_or_app. left. exact Hold.
    + split; [reflexivity|]. right. right. exists k, existing.
      apply in_app_iff in Hin. destruct Hin as [Hin|[<-|[]]];
        [|exfalso; apply E; reflexivity].
      repeat split; try assumption.
      match type of Hmax with
      | forall x, In x (?old ++ [?row]) -> _ =>
          assert (Hnew : In row (old ++ [row]))
            by (apply in_or_app; right; left; reflexivity);
          specialize (Hmax row Hnew eq_refl eq_refl)
      end.
      simpl in Hmax. apply Hmax. discriminate.
  - apply Hok; [reflexivity|].
    intros k0 old Hk0 Hold Hoq Hod Hos. inversion Hk0; subst k0.
    exfalso. apply Hos. apply (Hsel old); try assumption.
    simpl. apply in_or_app. left. exact Hold.
Qed.



End SendOutcomes.

Section Deduplication.

Import MessageQueue.

(** X8. What the duplicate check of [send] decides, for a free id, a
    registered queue and a non-empty deduplication id: the send goes
    through, adding one more row, whenever every row of that queue and
    id that is not failed was created before the current second; and it
    throws the duplicate error, writing nothing, whenever one of them was
    created after the current second. *)
Theorem deduplication_compares_seconds
    (self : QueueOptions.t) (messageId : string) (now : Z)
    (queueName : string) (payload : Value) (options : SendOptions.t)
    (d : DB) (k : string) :
  Sql.has_message messageId d = false ->
  Sql.has_queue queueName d = true ->
  truthy_string (SendOptions.deduplicationId options) = Some k ->
  ((forall old, In old (messages d) ->
                Row.queue_name old = queueName ->
                Row.deduplication_id old = Some k ->
                Row.status old <> failed ->
                (Row.created_at old < seconds now)%Z) ->
   exists d',
     send self messageId now queueName payload options d
     = (d', Ok messageId)
     /\ List.length (messages d') = S (List.length (messages d)))
  /\ (forall old, In old (messages d) ->
                  Row.queue_name old = queueName ->
                  Row.deduplication_id old = Some k ->
                  Row.status old <> failed ->
                  (seconds now < Row.created_at old)%Z ->
      send self messageId now queueName payload options d
      = (d, Throw (Error ("Duplicate message with deduplication ID: "
                          ++ k)))).
Proof.
  intros Hm Hq Hk.
  pose proof (send_cases self messageId now queueName payload options d)
    as Hout.
  destruct (send self messageId now queueName payload options d)
    as [d' [i|e]].
  - destruct Hout as (-> & _ & _ & r & -> & _ & _ & _ & _ & _ & _ & _ & _
                      & _ & _ & _ & Hnewest).
    split.
    + intros _. eexists. split; [reflexivity|]. simpl.
      rewrite length_app. simpl. lia.
    + intros old Hin Hoq Hod Hos Hlater.
      specialize (Hnewest k old Hk Hin Hoq Hod Hos). lia.
  - destruct Hout as [-> [[_ Hpk]|[(_ & _ & Hfk)|Hdup]]];
      [congruence|congruence|].
    destruct Hdup as (k0 & old & Hk0 & -> & Hin & Hoq & Hod & Hos & Hge).
    assert (k0 = k) by congruence. subst k0.
    split.
    + intro Holder. specialize (Holder old Hin Hoq Hod Hos). lia.
    + intros. reflexivity.
Qed.

Lemma deduplication_compares_seconds_witness :
  exists d1 d2,
    send QueueOptions.default "m1" 1000 "orders" (Data "{}")
         Sample.dedup_k Sample.empty = (d1, Ok "m1")
    /\ send QueueOptions.default "m2" 2000 "orders" (Data "{}")
            Sample.dedup_k d1 = (d2, Ok "m2")
    /\ List.length (messages d2) = 2%nat.
Proof.
  destruct (send QueueOptions.default "m1" 1000 "orders" (Data "{}")
                 Sample.dedup_k Sample.empty) as [d1 r1] eqn:H1.
  vm_compute in H1. inversion H1; subst d1 r1; clear H1.
  eexists. 
  destruct (proj1 (deduplication_compares_seconds QueueOptions.default "m2"
                     2000 "orders" (Data "{}") Sample.dedup_k
                     (mkDB ["orders"]
                        [Sample.row "m1" pending 5 0 3 1 1 (Some "k") None]
                        [])
                     "k" eq_refl eq_refl eq_refl))
    as (d2 & Hsend & Hlen).
  - intros old [<-|[]] _ _ _. vm_compute. reflexivity.
  - exists d2. split; [reflexivity|]. split; [exact Hsend|exact Hlen].
Defined.

(** X9. A delay gates a message by whole seconds, when [now + delay]
    is a valid date. After a successful [send], a claim on the resulting
    database returns the message only at a time whose second is not
    before the second of [now + delay], and an unlimited claim of its
    queue at any such time does return it. A delay that does not reach
    the next second therefore has no effect. (Outside the range of
    dates the code stores no visibility time and the message is never
    claimed; no row of the model stands for that one.) *)
Theorem delay_gates_by_seconds
    (self : QueueOptions.t) (messageId : string) (now : Z)
    (queueName : string) (payload : Value) (options : SendOptions.t)
    (d d' : DB) :
  Call.valid_Date (now + nullish (SendOptions.delay options) 0) ->
  send self messageId now queueName payload options d
  = (d', Ok messageId) ->
  forall t,
    (forall q limit,
        In messageId
           (map Message.id
                (map rowToMessage (fetch_select q limit t d'))) ->
        (seconds (now + nullish (SendOptions.delay options) 0)
         <= seconds t)%Z)
    /\ ((seconds (now + nullish (SendOptions.delay options) 0)
         <= seconds t)%Z ->
        exists d'' batch,
          fetchMessages t queueName (-1) d' = (d'', Ok batch)
          /\ In messageId (map Message.id batch)).
Proof.
  intros _ Hsend t.
  pose proof (send_cases self messageId now queueName payload options d)
    as Hout.
  rewrite Hsend in Hout.
  destruct Hout as (_ & Hfree & _ & r & -> & Hid & Hrq & _ & Hrs & _ & _ & _
                    & _ & Hav & _).
  split.
  - intros q limit Hin. rewrite map_map in Hin.
    apply in_map_iff in Hin. destruct Hin as [row [Hrow Hsel]].
    simpl in Hrow.
    apply fetch_select_In in Hsel. destruct Hsel as [Hmem Hw].
    simpl in Hmem. apply in_app_iff in Hmem.
    destruct Hmem as [Hold|[<-|[]]].
    + exfalso. apply (has_message_false messageId d Hfree).
      rewrite <- Hrow. apply in_map, Hold.
    + apply fetch_where_true in Hw. rewrite <- Hav. tauto.
  - intro Hvisible. rewrite fetchMessages_eq. do 2 eexists.
    split; [reflexivity|].
    rewrite map_map. apply in_map_iff. exists r. split; [exact Hid|].
    unfold fetch_select, Sql.limit. simpl.
    apply order_by_In, filter_In. split.
    + apply in_or_app. right. left. reflexivity.
    + unfold fetch_where. rewrite Hrq, Hrs, Hav, String.eqb_refl. simpl.
      apply Z.leb_le, Hvisible.
Qed.

Lemma delay_gates_by_seconds_witness :
  exists d' d'' batch,
    send QueueOptions.default "m1" 1000 "orders" (Data "{}")
         (SendOptions.mk (Some 200%Z) None None None None None) Sample.empty
    = (d', Ok "m1")
    /\ fetchMessages 1000 "orders" (-1) d' = (d'', Ok batch)
    /\ In "m1" (map Message.id batch).
Proof.
  destruct (send QueueOptions.default "m1" 1000 "orders" (Data "{}")
                 (SendOptions.mk (Some 200%Z) None None None None None)
                 Sample.empty) as [d' r] eqn:Hsend.
  assert (Hr : r = Ok "m1") by (vm_compute in Hsend; congruence).
  subst r. exists d'.
  assert (Hdate : Call.valid_Date (1000 + 200))
    by (unfold Call.valid_Date; lia).
  destruct (proj2 (delay_gates_by_seconds QueueOptions.default "m1" 1000
                     "orders" (Data "{}")
                     (SendOptions.mk (Some 200%Z) None None None None None)
                     Sample.empty d' Hdate Hsend 1000))
    as (d'' & batch & Hf & Hin).
  - vm_compute. discriminate.
  - exists d'', batch. split; [reflexivity|]. split; assumption.
Defined.

End Deduplication.

Section BatchSends.

Import MessageQueue.




End BatchSends.

(** ** More on the claim transaction *)

Section ClaimOrder.

Import MessageQueue.

Lemma StronglySorted_app_between (A : Type) (R : A -> A -> Prop)
    (front back : list A) :
  StronglySorted R (front ++ back) ->
  forall a b, In a front -> In b back -> R a b.
Proof.
  induction front as [|x front IH]; simpl; intros Hs a b Ha Hb;
    [contradiction|].
  inversion Hs as [|? ? Hrest Hall]; subst.
  destruct Ha as [<-|Ha].
  - rewrite Forall_forall in Hall. apply Hall, in_or_app. right. exact Hb.
  - apply (IH Hrest a b Ha Hb).
Qed.

(** X11. A claim takes the head of the queue. A pending, visible row of
    the queue is either in the batch, or the batch is full (it has
    exactly [limit] messages, [limit] not negative) and every message of
    it is served no later than that row: higher priority, or the same
    priority and not created later. A claim with a negative limit takes
    every such row. *)
Theorem fetchMessages_takes_the_head
    (now : Z) (queueName : string) (limit : Z) (d : DB) (r : Row.t) :
  In r (messages d) ->
  fetch_where queueName now r = true ->
  exists d' batch,
    fetchMessages now queueName limit d = (d', Ok batch)
    /\ (In (rowToMessage r) batch
        \/ ((0 <= limit)%Z
            /\ Z.of_nat (List.length batch) = limit
            /\ forall m, In m batch -> served_before m (rowToMessage r)))
    /\ ((limit < 0)%Z -> In (rowToMessage r) batch).
Proof.
  intros Hin Hw. rewrite fetchMessages_eq. do 2 eexists.
  split; [reflexivity|].
  unfold fetch_select, Sql.limit.
  set (sorted := Sql.order_by fetch_order
                   (filter (fetch_where queueName now) (messages d))).
  assert (Hr : In r sorted)
    by (apply order_by_In, filter_In; tauto).
  assert (Hsorted : StronglySorted (fun a b => fetch_order a b = true) sorted)
    by (apply order_by_sorted;
        [apply fetch_order_total|apply fetch_order_trans]).
  destruct (Z.ltb_spec limit 0) as [Hneg|Hpos].
  - split; [left|intros _]; apply in_map, Hr.
  - split; [|lia].
    rewrite <- (firstn_skipn (Z.to_nat limit) sorted) in Hr, Hsorted.
    apply in_app_iff in Hr. destruct Hr as [Hr|Hr].
    + left. apply in_map, Hr.
    + right. split; [exact Hpos|]. split.
      * rewrite length_map, length_firstn.
        assert (Hlen : (Z.to_nat limit < List.length sorted)%nat).
        { destruct (Nat.lt_ge_cases (Z.to_nat limit) (List.length sorted))
            as [H|H]; [exact H|].
          rewrite skipn_all2 in Hr by exact H. contradiction. }
        lia.
      * intros m Hm. apply in_map_iff in Hm. destruct Hm as [r' [<- Hr']].
        apply rowToMessage_served.
        apply (StronglySorted_app_between _ _ _ _ Hsorted r' r Hr' Hr).
Qed.

Lemma fetchMessages_takes_the_head_witness :
  exists d' batch,
    fetchMessages 9000 "orders" 1 Sample.priorities_db = (d', Ok batch)
    /\ forall m, In m batch ->
         served_before m
           (rowToMessage (Sample.row "low" pending 1 0 3 1 1 None None)).
Proof.
  destruct (fetchMessages_takes_the_head 9000 "orders" 1
              Sample.priorities_db
              (Sample.row "low" pending 1 0 3 1 1 None None))
    as (d' & batch & Hf & Hhead & _).
  - simpl. left. reflexivity.
  - reflexivity.
  - exists d', batch. split; [exact Hf|].
    destruct Hhead as [Hin|(_ & _ & Hall)]; [|exact Hall].
    vm_compute in Hf. inversion Hf; subst batch.
    destruct Hin as [Hin|[]]. discriminate Hin.
Defined.

(** X12. A message that a claim has returned is not returned by the next
    claim, whatever its queue, time and limit: the two batches share no
    id. And right after an unlimited claim, a claim of the same queue at
    the same time returns nothing. *)
Theorem fetchMessages_twice
    (t1 t2 : Z) (q1 q2 : string) (l1 l2 : Z) (d d1 d2 : DB)
    (b1 b2 : list Message.t) :
  fetchMessages t1 q1 l1 d = (d1, Ok b1) ->
  fetchMessages t2 q2 l2 d1 = (d2, Ok b2) ->
  (forall m1 m2, In m1 b1 -> In m2 b2 -> Message.id m1 <> Message.id m2)
  /\ ((l1 < 0)%Z -> q2 = q1 -> t2 = t1 -> b2 = []).
Proof.
  intros H1 H2. rewrite fetchMessages_eq in H1, H2.
  inversion H1; subst d1 b1; clear H1.
  inversion H2; subst d2 b2; clear H2.
  set (rows1 := fetch_select q1 l1 t1 d) in *.
  assert (Hsecond : forall r2,
             In r2 (fetch_select q2 l2 t2
                      (mkDB (queues d)
                            (map (claim_row (map Row.id rows1) t1)
                                 (messages d))
                            (dead_letter_messages d))) ->
             exists r0,
               In r0 (messages d) /\ r2 = r0
               /\ ~ In (Row.id r0) (map Row.id rows1)
               /\ fetch_where q2 t2 r0 = true).
  { intros r2 Hr2. apply fetch_select_In in Hr2. destruct Hr2 as [Hin Hw].
    simpl in Hin. apply in_map_iff in Hin. destruct Hin as [r0 [Hclaim Hr0]].
    exists r0. split; [exact Hr0|].
    destruct (in_dec string_dec (Row.id r0) (map Row.id rows1)) as [Hi|Hi].
    - exfalso. rewrite claim_row_In in Hclaim by exact Hi. subst r2.
      apply fetch_where_true in Hw. destruct Hw as (_ & Hs & _).
      discriminate Hs.
    - rewrite claim_row_not_In in Hclaim by exact Hi. subst r2. tauto. }
  split.
  - intros m1 m2 Hm1 Hm2 Heq.
    apply in_map_iff in Hm1. destruct Hm1 as [r1 [<- Hr1]].
    apply in_map_iff in Hm2. destruct Hm2 as [r2 [<- Hr2]].
    destruct (Hsecond r2 Hr2) as (r0 & _ & -> & Hnot & _).
    apply Hnot. simpl in Heq. rewrite <- Heq. apply in_map, Hr1.
  - intros Hl -> ->.
    destruct (fetch_select q1 l2 t1 _) as [|r2 rest] eqn:Hsel; [reflexivity|].
    exfalso.
    destruct (Hsecond r2) as (r0 & Hr0 & -> & Hnot & Hw).
    { left. reflexivity. }
    apply Hnot, in_map. unfold rows1, fetch_select, Sql.limit.
    destruct (Z.ltb_spec l1 0) as [_|]; [|lia].
    apply order_by_In, filter_In. tauto.
Qed.

Lemma fetchMessages_twice_witness :
  exists d1 b1 d2 b2,
    fetchMessages 9000 "orders" 2 Sample.priorities_db = (d1, Ok b1)
    /\ fetchMessages 9500 "orders" 2 d1 = (d2, Ok b2)
    /\ map Message.id b1 = ["high"; "older"]
    /\ forall m1 m2, In m1 b1 -> In m2 b2 -> Message.id m1 <> Message.id m2.
Proof.
  destruct (fetchMessages 9000 "orders" 2 Sample.priorities_db)
    as [d1 r1] eqn:H1.
  destruct r1 as [b1|e]; [|vm_compute in H1; discriminate H1].
  destruct (fetchMessages 9500 "orders" 2 d1) as [d2 r2] eqn:H2.
  destruct r2 as [b2|e];
    [|rewrite fetchMessages_eq in H2; discriminate H2].
  exists d1, b1, d2, b2. split; [reflexivity|]. split; [exact H2|].
  split; [vm_compute in H1; inversion H1; reflexivity|].
  apply (proj1 (fetchMessages_twice 9000 9500 "orders" "orders" 2 2
                  Sample.priorities_db d1 d2 b1 b2 H1 H2)).
Defined.

Lemma update_absent (i : string) (set : Row.t -> Row.t) (d : DB) :
  Sql.has_message i d = false ->
  Tx.executeTransaction (Sql.update_message i set) d = (d, Ok tt).
Proof.
  intro Hno. unfold Tx.executeTransaction, Sql.update_message.
  assert (E : map (fun r => if String.eqb (Row.id r) i then set r else r)
                  (messages d)
              = messages d).
  { unfold Sql.has_message in Hno.
    induction (messages d) as [|x l IH]; simpl in *; [reflexivity|].
    apply orb_false_elim in Hno. destruct Hno as [Hx Hl].
    rewrite Hx, IH by exact Hl. reflexivity. }
  rewrite E, DB_eta. reflexivity.
Qed.

(** X13. The three status updates do not look for their row: on an id
    that has no row in [messages] (never sent, dead-lettered, or purged
    while its handler ran) [markMessageCompleted], [markMessageFailed]
    and [retryMessage] succeed and change nothing. *)
Theorem updates_ignore_missing_rows
    (now : Z) (messageId : string) (processingTime : Z) (error : Thrown)
    (d : DB) :
  Sql.has_message messageId d = false ->
  markMessageCompleted now messageId processingTime d = (d, Ok tt)
  /\ markMessageFailed now messageId error d = (d, Ok tt)
  /\ retryMessage now messageId error d = (d, Ok tt).
Proof.
  intro Hno. repeat split; apply update_absent, Hno.
Qed.

Lemma updates_ignore_missing_rows_witness :
  retryMessage 9000 "gone" (Error "boom") Sample.failed_db
  = (Sample.failed_db, Ok tt).
Proof.
  apply (updates_ignore_missing_rows 9000 "gone" 0 (Error "boom")
           Sample.failed_db eq_refl).
Defined.

End ClaimOrder.

(** ** The dead-letter table: listing, requeue and purge *)

Section DeadLetterListing.

Import MessageQueue.

Lemma JSON_stringify_parse (text : string) :
  JSON_stringify (JSON_parse text) = text.
Proof.
  unfold JSON_parse. destruct (String.eqb_spec text "null") as [->|_];
    reflexivity.
Qed.

Lemma seconds_of_date (s : Z) : seconds (date_of_seconds s) = s.
Proof. unfold seconds, date_of_seconds. apply Z.div_mul. discriminate. Qed.

Lemma oldest_last_total (a b : DeadRow.t) :
  Z.leb (DeadRow.created_at b) (DeadRow.created_at a) = true
  \/ Z.leb (DeadRow.created_at a) (DeadRow.created_at b) = true.
Proof. rewrite !Z.leb_le. lia. Qed.

Lemma oldest_last_trans (a b c : DeadRow.t) :
  Z.leb (DeadRow.created_at b) (DeadRow.created_at a) = true ->
  Z.leb (DeadRow.created_at c) (DeadRow.created_at b) = true ->
  Z.leb (DeadRow.created_at c) (DeadRow.created_at a) = true.
Proof. rewrite !Z.leb_le. lia. Qed.

(** X14. [getDeadLetterMessages] lists the dead letters of the queue and
    only those, each row once, newest first. *)
Theorem getDeadLetterMessages_lists (queueName : string) (d : DB) :
  Permutation
    (DeadLetterQueue.getDeadLetterMessages queueName d)
    (map DeadLetterQueue.rowToDeadLetter
         (filter (fun r => String.eqb (DeadRow.queue_name r) queueName)
                 (dead_letter_messages d)))
  /\ Forall (fun entry => DeadLetterMessage.queueName entry = queueName)
            (DeadLetterQueue.getDeadLetterMessages queueName d)
  /\ StronglySorted
       (fun a b => (DeadLetterMessage.createdAt b
                    <= DeadLetterMessage.createdAt a)%Z)
       (DeadLetterQueue.getDeadLetterMessages queueName d).
Proof.
  unfold DeadLetterQueue.getDeadLetterMessages, DeadLetterQueue.select.
  split; [|split].
  - apply Permutation_map, Permutation_sym, order_by_perm.
  - rewrite Forall_forall. intros entry He.
    apply in_map_iff in He. destruct He as [r [<- Hr]].
    apply order_by_In, filter_In in Hr. destruct Hr as [_ Hq].
    apply String.eqb_eq in Hq. exact Hq.
  - eapply StronglySorted_map;
      [|apply order_by_sorted;
        [apply oldest_last_total|apply oldest_last_trans]].
    intros a b Hab. apply Z.leb_le in Hab. simpl.
    unfold date_of_seconds. lia.
Qed.

(** X15. Moving a claimed message to the dead-letter table, with a free
    dead-letter id, goes through and is visible at once: the message has
    no row in [messages] any longer, no claim returns it, and the listing
    of its queue shows an entry under the new id with the id of the
    message as [originalId], its payload, creation time and retry count,
    and the message of the error. *)
Theorem moveToDeadLetter_is_listed
    (dlqId : string) (now : Z) (row : Row.t) (error : Thrown) (d : DB) :
  Sql.has_dead_letter dlqId d = false ->
  Sql.has_queue (Row.queue_name row) d = true ->
  exists d',
    moveToDeadLetter dlqId now (rowToMessage row) error d = (d', Ok tt)
    /\ Sql.has_message (Row.id row) d' = false
    /\ (forall t q limit,
          ~ In (Row.id row)
               (map Row.id (fetch_select q limit t d')))
    /\ exists entry,
         In entry (DeadLetterQueue.getDeadLetterMessages
                     (Row.queue_name row) d')
         /\ DeadLetterMessage.id entry = dlqId
         /\ DeadLetterMessage.originalId entry = Row.id row
         /\ DeadLetterMessage.payload entry
            = Message.payload (rowToMessage row)
         /\ DeadLetterMessage.errorMessage entry = error_message error
         /\ DeadLetterMessage.retries entry = Row.retries row
         /\ DeadLetterMessage.createdAt entry = date_of_seconds (seconds now)
         /\ DeadLetterMessage.originalCreatedAt entry
            = Message.createdAt (rowToMessage row).
Proof.
  intros Hfree Hqueue.
  unfold moveToDeadLetter, Tx.executeTransaction, Tx.bind,
    Sql.insert_dead_letter.
  cbn [DeadRow.id DeadRow.queue_name Message.queueName Message.id
       rowToMessage].
  rewrite Hfree, Hqueue. simpl negb. cbv iota. cbv beta.
  eexists. split; [reflexivity|].
  assert (Hgone : forall l,
             existsb (fun r => String.eqb (Row.id r) (Row.id row))
                     (filter (fun r => negb (String.eqb (Row.id r)
                                                        (Row.id row))) l)
             = false).
  { induction l as [|x l IH]; simpl; [reflexivity|].
    destruct (String.eqb (Row.id x) (Row.id row)) eqn:E; simpl;
      [exact IH|]. rewrite E. exact IH. }
  split; [apply Hgone|]. split.
  - intros t q limit Hin. apply in_map_iff in Hin.
    destruct Hin as [r [Hid Hsel]].
    apply fetch_select_In in Hsel. destruct Hsel as [Hmem _].
    simpl in Hmem.
    assert (X : existsb (fun r0 => String.eqb (Row.id r0) (Row.id row))
                        (filter (fun r0 => negb (String.eqb (Row.id r0)
                                                            (Row.id row)))
                                (messages d)) = true).
    { apply existsb_exists. exists r. split; [exact Hmem|].
      rewrite Hid. apply String.eqb_refl. }
    rewrite Hgone in X. discriminate.
  - eexists. split.
    + unfold DeadLetterQueue.getDeadLetterMessages, DeadLetterQueue.select.
      apply in_map. apply order_by_In, filter_In. split.
      * simpl. apply in_or_app. right. left. reflexivity.
      * simpl. apply String.eqb_refl.
    + simpl. rewrite JSON_stringify_parse, seconds_of_date.
      repeat split.
Qed.

Lemma moveToDeadLetter_is_listed_witness :
  exists d' entry,
    moveToDeadLetter "d1" 9000 Sample.claimed_message (Error "boom")
                     (db Sample.claimed_store)
    = (d', Ok tt)
    /\ In entry (DeadLetterQueue.getDeadLetterMessages "orders" d')
    /\ DeadLetterMessage.originalId entry = "m1".
Proof.
  destruct (moveToDeadLetter_is_listed "d1" 9000 Sample.selected_row
              (Error "boom") (db Sample.claimed_store) eq_refl eq_refl)
    as (d' & Hmove & _ & _ & entry & Hin & _ & Horig & _).
  exists d', entry. repeat split; assumption.
Defined.



Lemma has_message_kept (i : string) (p : Row.t -> bool) (d : DB)
    (dead : list DeadRow.t) :
  Sql.has_message i d = false ->
  Sql.has_message i (mkDB (queues d) (filter p (messages d)) dead) = false.
Proof.
  unfold Sql.has_message. simpl.
  induction (messages d) as [|x l IH]; simpl; [reflexivity|].
  intro H. apply orb_false_elim in H. destruct H as [Hx Hl].
  destruct (p x); simpl; [rewrite Hx|]; apply IH, Hl.
Qed.

Lemma has_message_moved (i : string) (l : list Row.t) :
  existsb (fun r => String.eqb (Row.id r) i)
          (filter (fun r => negb (String.eqb (Row.id r) i)) l)
  = false.
Proof.
  induction l as [|x l IH]; simpl; [reflexivity|].
  destruct (String.eqb (Row.id x) i) eqn:E; simpl; [exact IH|].
  rewrite E. exact IH.
Qed.

Lemma get_dead_letter_appended (dlqId : string) (d : DB) (kept : list Row.t)
    (copy : DeadRow.t) :
  Sql.has_dead_letter dlqId d = false ->
  DeadRow.id copy = dlqId ->
  get_dead_letter dlqId
    (mkDB (queues d) kept (dead_letter_messages d ++ [copy]))
  = Some copy.
Proof.
  unfold get_dead_letter, Sql.has_dead_letter. simpl. intros Hfree Hid.
  induction (dead_letter_messages d) as [|x l IH]; simpl in *.
  - rewrite Hid, String.eqb_refl. reflexivity.
  - apply orb_false_elim in Hfree. destruct Hfree as [Hx Hl].
    rewrite Hx. apply IH, Hl.
Qed.

Lemma requeue_success (newMessageId : string) (now : Z) (messageId : string)
    (d : DB) (dlq : DeadRow.t) :
  get_dead_letter messageId d = Some dlq ->
  Sql.has_message newMessageId d = false ->
  Sql.has_queue (DeadRow.queue_name dlq) d = true ->
  requeueDeadLetterMessage newMessageId now messageId d
  = (mkDB (queues d)
          (messages d
           ++ [Row.mk newMessageId (DeadRow.queue_name dlq)
                      (DeadRow.payload dlq) pending 5 0 3
                      (seconds now) (seconds now) None None None None
                      (DeadRow.metadata dlq) None None])
          (filter (fun r => negb (String.eqb (DeadRow.id r) messageId))
                  (dead_letter_messages d)),
     Ok tt).
Proof.
  intros Hget Hfree Hqueue.
  unfold requeueDeadLetterMessage, Tx.executeTransaction, Tx.bind, Tx.read.
  rewrite Hget. unfold Sql.insert_message. cbn [Row.id Row.queue_name].
  rewrite Hfree, Hqueue. reflexivity.
Qed.

(** X17. Dead-lettering a claimed message, requeueing the dead letter
    under a free message id and claiming again brings the work back: the
    claim returns a message under the new id with the queue and the
    payload of the original and a retry count of zero, the dead letter is
    no longer listed, and the original id has no row. *)
Theorem dead_letter_requeue_round_trip
    (dlqId newMessageId : string) (t1 t2 t3 : Z) (row : Row.t)
    (error : Thrown) (d : DB) :
  Sql.has_dead_letter dlqId d = false ->
  Sql.has_queue (Row.queue_name row) d = true ->
  Sql.has_message newMessageId d = false ->
  (seconds t2 <= seconds t3)%Z ->
  exists d1 d2 d3 batch m,
    moveToDeadLetter dlqId t1 (rowToMessage row) error d = (d1, Ok tt)
    /\ requeueDeadLetterMessage newMessageId t2 dlqId d1 = (d2, Ok tt)
    /\ fetchMessages t3 (Row.queue_name row) (-1) d2 = (d3, Ok batch)
    /\ In m batch
    /\ Message.id m = newMessageId
    /\ Message.queueName m = Row.queue_name row
    /\ Message.payload m = Message.payload (rowToMessage row)
    /\ Message.retries m = 0%Z
    /\ get_dead_letter dlqId d2 = None
    /\ (newMessageId <> Row.id row ->
        Sql.has_message (Row.id row) d2 = false).
Proof.
  intros Hfree Hqueue Hnew Hlate.
  unfold moveToDeadLetter, Tx.executeTransaction, Tx.bind,
    Sql.insert_dead_letter.
  cbn [DeadRow.id DeadRow.queue_name Message.queueName Message.id
       rowToMessage].
  rewrite Hfree, Hqueue. simpl negb. cbv iota. cbv beta.
  eexists. 
  set (kept := filter (fun r => negb (String.eqb (Row.id r) (Row.id row)))
                      (messages d)).
  set (copy := DeadRow.mk dlqId (Row.id row) (Row.queue_name row)
                 (JSON_stringify (JSON_parse (Row.payload row)))
                 (error_message error) (Row.retries row) (seconds t1)
                 (seconds (date_of_seconds (Row.created_at row)))
                 (metadata_text
                    (option_map JSON_parse
                                (truthy_string (Row.metadata row))))).
  assert (Hget : get_dead_letter dlqId
                   (mkDB (queues d) kept (dead_letter_messages d ++ [copy]))
                 = Some copy)
    by (apply get_dead_letter_appended; [exact Hfree|reflexivity]).
  assert (Hkept : Sql.has_message newMessageId
                    (mkDB (queues d) kept (dead_letter_messages d ++ [copy]))
                  = false)
    by (apply has_message_kept, Hnew).
  set (fresh_row := Row.mk newMessageId (Row.queue_name row)
                      (JSON_stringify (JSON_parse (Row.payload row)))
                      pending 5 0 3 (seconds t2) (seconds t2)
                      None None None None (DeadRow.metadata copy) None None).
  eexists. eexists. eexists. exists (rowToMessage fresh_row).
  split; [reflexivity|].
  split; [apply (requeue_success newMessageId t2 dlqId _ copy Hget Hkept
                                 Hqueue)|].
  split; [apply fetchMessages_eq|].
  split.
  - apply in_map. unfold fetch_select, Sql.limit. simpl.
    apply order_by_In, filter_In. split.
    + apply in_or_app. right. left. reflexivity.
    + unfold fetch_where. simpl. rewrite String.eqb_refl. simpl.
      apply Z.leb_le, Hlate.
  - simpl. rewrite JSON_stringify_parse.
    repeat split.
    + unfold get_dead_letter. simpl.
      set (l := dead_letter_messages d ++ [copy]). clearbody l.
      induction l as [|x l IH]; simpl; [reflexivity|].
      destruct (String.eqb (DeadRow.id x) dlqId) eqn:E; simpl; [exact IH|].
      rewrite E. exact IH.
    + intro Hne. unfold Sql.has_message. simpl. rewrite existsb_app. simpl.
      destruct (String.eqb_spec newMessageId (Row.id row)) as [E|_];
        [contradiction|].
      rewrite orb_false_r. apply has_message_moved.
Qed.

Lemma dead_letter_requeue_round_trip_witness :
  exists d1 d2 d3 batch m,
    moveToDeadLetter "d1" 9000 Sample.claimed_message (Error "boom")
                     (db Sample.claimed_store)
    = (d1, Ok tt)
    /\ requeueDeadLetterMessage "m2" 10000 "d1" d1 = (d2, Ok tt)
    /\ fetchMessages 11000 "orders" (-1) d2 = (d3, Ok batch)
    /\ In m batch
    /\ Message.id m = "m2"
    /\ Message.payload m = Data "{}".
Proof.
  destruct (dead_letter_requeue_round_trip "d1" "m2" 9000 10000 11000
              Sample.selected_row (Error "boom") (db Sample.claimed_store)
              eq_refl eq_refl eq_refl)
    as (d1 & d2 & d3 & batch & m & H1 & H2 & H3 & Hin & Hid & _ & Hp & _).
  - vm_compute. discriminate.
  - exists d1, d2, d3, batch, m. repeat split; assumption.
Defined.

End DeadLetterListing.

Section Purge.

Import MessageQueue.

Lemma expired_spec (now : Z) (r : Row.t) :
  expired now r = false
  <-> (Row.expires_at r = None
       \/ exists e, Row.expires_at r = Some e /\ (seconds now <= e)%Z).
Proof.
  unfold expired. destruct (Row.expires_at r) as [e|].
  - rewrite Z.ltb_ge. split.
    + intro H. right. exists e. split; [reflexivity|exact H].
    + intros [H|[e' [H Hle]]]; [discriminate|]. inversion H; subst. exact Hle.
  - split; [left; reflexivity|reflexivity].
Qed.

Lemma filter_twice (A : Type) (p : A -> bool) (l : list A) :
  filter p (filter p l) = filter p l.
Proof.
  induction l as [|x l IH]; simpl; [reflexivity|].
  destruct (p x) eqn:E; simpl; [rewrite E, IH|]; auto.
Qed.

Lemma filter_none (A : Type) (p : A -> bool) (l : list A) :
  filter p (filter (fun x => negb (p x)) l) = [].
Proof.
  induction l as [|x l IH]; simpl; [reflexivity|].
  destruct (p x) eqn:E; simpl; [exact IH|]. rewrite E. exact IH.
Qed.

Lemma filter_split_length (A : Type) (p : A -> bool) (l : list A) :
  (List.length (filter p l) + List.length (filter (fun x => negb (p x)) l)
   = List.length l)%nat.
Proof.
  induction l as [|x l IH]; simpl; [reflexivity|].
  destruct (p x); simpl; lia.
Qed.

(** X18. [cleanupExpiredMessages] with a queue name always fails and
    deletes nothing: the statement it builds is rejected. Without one
    (or with the empty name) it deletes, in every queue and whatever
    their status, exactly the rows whose deadline lies before the current
    second, reports how many it deleted, and touches no other table; run
    again at the same time it deletes nothing and reports 0. *)
Theorem cleanup_purges (now : Z) (queueName : option string) (d : DB) :
  match truthy_string queueName with
  | Some _ =>
      cleanupExpiredMessages now queueName d = (d, Throw SqliteSyntaxError)
  | None =>
      exists d',
        cleanupExpiredMessages now queueName d
        = (d', Ok (Z.of_nat (List.length (messages d))
                   - Z.of_nat (List.length (messages d')))%Z)
        /\ queues d' = queues d
        /\ dead_letter_messages d' = dead_letter_messages d
        /\ (forall r,
              In r (messages d')
              <-> In r (messages d)
                  /\ (Row.expires_at r = None
                      \/ exists e, Row.expires_at r = Some e
                                   /\ (seconds now <= e)%Z))
        /\ cleanupExpiredMessages now queueName d' = (d', Ok 0%Z)
  end.
Proof.
  unfold cleanupExpiredMessages, Tx.executeTransaction.
  destruct (truthy_string queueName) as [name|]; [reflexivity|].
  unfold Sql.delete_messages.
  change (fun r : Row.t =>
            match Row.expires_at r with
            | Some e => Z.ltb e (seconds now)
            | None => false
            end)
    with (expired now).
  exists (mkDB (queues d)
               (filter (fun r => negb (expired now r)) (messages d))
               (dead_letter_messages d)).
  split; [|split; [reflexivity|split; [reflexivity|split]]].
  - simpl. do 3 f_equal.
    pose proof (filter_split_length Row.t (expired now) (messages d)). lia.
  - intro r. simpl. rewrite filter_In, negb_true_iff, expired_spec.
    reflexivity.
  - simpl. rewrite filter_twice, filter_none. reflexivity.
Qed.

End Purge.

(** ** The accounting of deliveries *)

Section Accounting.

Import MessageQueue.

Lemma count_id_app (i : string) (l1 l2 : list (string * string)) :
  count_id i (l1 ++ l2) = (count_id i l1 + count_id i l2)%nat.
Proof. unfold count_id. rewrite filter_app, length_app. reflexivity. Qed.

(** A poll adds one invocation for each message it claims. *)
Lemma count_id_claimed (c i : string) (rows : list Row.t) :
  NoDup (map Row.id rows) ->
  count_id i (map (fun m => (c, Message.id m)) (map rowToMessage rows))
  = if existsb (String.eqb i) (map Row.id rows) then 1%nat else 0%nat.
Proof.
  induction rows as [|r rows IH]; intro Hn; [reflexivity|].
  inversion Hn as [|? ? Hr Hrest]; subst.
  specialize (IH Hrest). unfold count_id in *. simpl.
  rewrite (String.eqb_sym i (Row.id r)).
  destruct (String.eqb_spec (Row.id r) i) as [E|E]; simpl.
  - rewrite IH. subst i.
    destruct (existsb (String.eqb (Row.id r)) (map Row.id rows)) eqn:Hex;
      [|reflexivity].
    exfalso. apply Hr. apply existsb_eqb_In. exact Hex.
  - exact IH.
Qed.

(** With one row per id, the row of a selected id is the selected row. *)
Lemma selected_row (queueName : string) (limit now : Z) (d : DB)
    (r : Row.t) :
  NoDup (System.message_ids d) ->
  In r (messages d) ->
  In (Row.id r) (map Row.id (fetch_select queueName limit now d)) ->
  In r (fetch_select queueName limit now d).
Proof.
  intros Hn Hr Hin. apply in_map_iff in Hin. destruct Hin as [r2 [E Hsel]].
  assert (Hr2 : In r2 (messages d)) by (apply fetch_select_In in Hsel; tauto).
  rewrite <- (same_key_same_row _ _ Row.id (messages d) r2 r Hn Hr2 Hr E).
  exact Hsel.
Qed.

Lemma selected_pending (queueName : string) (limit now : Z) (d : DB)
    (r : Row.t) :
  In r (fetch_select queueName limit now d) -> is_pending r = true.
Proof.
  intro H. apply fetch_select_In in H. destruct H as [_ H].
  apply fetch_where_true in H. apply is_pending_true. tauto.
Qed.

Lemma budgeted_poll (c : Z) (s : System.t) (consumerId : string) (now : Z)
    (queueName : string) (batchSize : Z) (s' : System.t) :
  owned_once s ->
  budgeted c s ->
  System.step (System.Poll consumerId now queueName batchSize) s = Some s' ->
  budgeted c s'.
Proof.
  intros Hinv Hb Hstep. simpl in Hstep.
  rewrite fetchMessages_eq in Hstep. inversion Hstep; subst s'; clear Hstep.
  pose proof (rows_once Hinv) as Hrows.
  assert (Hmsgs : NoDup (System.message_ids (db (System.store s))))
    by (eapply NoDup_app_remove_r, Hrows).
  set (rows := fetch_select queueName batchSize now (db (System.store s))).
  assert (Hdel : forall i st fl,
            deliveries i
              (System.mk st fl
                 (System.handled s
                  ++ map (fun m => (consumerId, Message.id m))
                         (map rowToMessage rows)))
            = (deliveries i s
               + if existsb (String.eqb i) (map Row.id rows)
                 then 1 else 0)%nat).
  { intros i st fl. unfold deliveries; simpl.
    rewrite count_id_app, count_id_claimed; [reflexivity|].
    apply fetch_select_ids_NoDup, Hmsgs. }
  assert (Hold : forall f, In f (System.inflight s) ->
            existsb (String.eqb (System.flight_id f)) (map Row.id rows)
            = false).
  { intros f Hf.
    destruct (existsb _ (map Row.id rows)) eqn:Hex; [|reflexivity].
    exfalso. apply existsb_eqb_In in Hex. apply in_map_iff in Hex.
    destruct Hex as [r [E Hr]].
    pose proof (selected_pending _ _ _ _ _ Hr) as Hp.
    apply is_pending_true in Hp. apply fetch_select_In in Hr.
    exact (flights_hidden Hinv f r Hf (proj1 Hr) E Hp). }
  constructor.
  - intros r' Hr'. rewrite Hdel. simpl in Hr'.
    apply in_map_iff in Hr'. destruct Hr' as [r [<- Hr]].
    rewrite claim_row_id. destruct (budget_rows Hb r Hr) as [Hc Hbound].
    unfold claim_row, budget in *.
    destruct (existsb (String.eqb (Row.id r)) (map Row.id rows)) eqn:Hex.
    + apply existsb_eqb_In in Hex.
      apply (selected_row _ _ _ _ _ Hmsgs Hr) in Hex.
      apply selected_pending in Hex. rewrite Hex in Hc.
      simpl. split; [lia|exact Hbound].
    + split; [lia|exact Hbound].
  - intros f Hf. rewrite Hdel. simpl in Hf.
    apply in_app_iff in Hf. destruct Hf as [Hf|Hf].
    + rewrite (Hold f Hf). pose proof (budget_flights Hb f Hf). lia.
    + apply in_map_iff in Hf. destruct Hf as [m [<- Hm]].
      apply in_map_iff in Hm. destruct Hm as [r [<- Hr]].
      unfold System.flight_id; simpl.
      assert (Hex : existsb (String.eqb (Row.id r)) (map Row.id rows) = true)
        by (apply existsb_eqb_In, in_map, Hr).
      rewrite Hex.
      pose proof (selected_pending _ _ _ _ _ Hr) as Hp.
      apply fetch_select_In in Hr.
      destruct (budget_rows Hb r (proj1 Hr)) as [Hc _].
      rewrite Hp in Hc. lia.
  - intros f r' Hf Hr' E. simpl in Hf, Hr'.
    apply in_map_iff in Hr'. destruct Hr' as [r [<- Hr]].
    rewrite claim_row_id in E.
    assert (Hsame : Row.retries (claim_row (map Row.id rows) now r)
                    = Row.retries r
                    /\ Row.max_retries (claim_row (map Row.id rows) now r)
                       = Row.max_retries r).
    { unfold claim_row. destruct (existsb _ _); split; reflexivity. }
    destruct Hsame as [-> ->].
    apply in_app_iff in Hf. destruct Hf as [Hf|Hf].
    + exact (budget_snapshot Hb f r Hf Hr E).
    + apply in_map_iff in Hf. destruct Hf as [m [<- Hm]].
      apply in_map_iff in Hm. destruct Hm as [r2 [<- Hr2]].
      unfold System.flight_id in E; simpl in E.
      assert (Hin2 : In r2 (messages (db (System.store s))))
        by (apply fetch_select_In in Hr2; tauto).
      rewrite (same_key_same_row _ _ Row.id _ r r2 Hmsgs Hr Hin2 E).
      split; reflexivity.
  - intros q Hq. rewrite Hdel. simpl in Hq.
    assert (Hex : existsb (String.eqb (DeadRow.original_id q))
                          (map Row.id rows) = false).
    { destruct (existsb _ (map Row.id rows)) eqn:Hex; [|reflexivity].
      exfalso. apply existsb_eqb_In in Hex. apply in_map_iff in Hex.
      destruct Hex as [r [E Hr]]. apply fetch_select_In in Hr.
      apply (NoDup_app_disjoint _ _ _ (DeadRow.original_id q) Hrows).
      - rewrite <- E. apply in_map, Hr.
      - apply in_map, Hq. }
    rewrite Hex. pose proof (budget_dead Hb q Hq). lia.
Qed.

Lemma deliveries_handled (i : string) (st : Store)
    (fl : list System.Flight) (s : System.t) :
  deliveries i (System.mk st fl (System.handled s)) = deliveries i s.
Proof. reflexivity. Qed.

(** An update of the rows of [i] keeps the accounting when the updated
    rows fit it and the flights that stay carry the messages they had. *)
Lemma budgeted_update (c : Z) (s : System.t) (d' : DB) (c' : list StoreCall)
    (fl' : list System.Flight) (i : string) (set : Row.t -> Row.t) :
  budgeted c s ->
  updated_by i set (db (System.store s)) d' ->
  (forall r, Row.id (set r) = Row.id r
             /\ Row.max_retries (set r) = Row.max_retries r) ->
  (forall g, In g fl' ->
     exists f, In f (System.inflight s)
               /\ System.message f = System.message g) ->
  (forall r, In r (messages (db (System.store s))) ->
     Row.id r = i ->
     Z.of_nat (deliveries i s)
     = (Row.retries (set r) + (if is_pending (set r) then 0 else 1))%Z
     /\ (0 <= Row.retries (set r) <= budget c r)%Z
     /\ forall g, In g fl' -> System.flight_id g = i ->
                  Message.retries (System.message g) = Row.retries (set r)) ->
  budgeted c (System.mk (mkStore d' c') fl' (System.handled s)).
Proof.
  intros Hb (_ & Hd & Hm) Hset Hsub Hrow.
  assert (Hid : forall f g, System.message f = System.message g ->
                            System.flight_id f = System.flight_id g).
  { intros f g E. unfold System.flight_id. rewrite E. reflexivity. }
  constructor.
  - intros r' Hr'. rewrite deliveries_handled. simpl in Hr'.
    rewrite Hm in Hr'. apply in_map_iff in Hr'. destruct Hr' as [r [<- Hr]].
    destruct (String.eqb_spec (Row.id r) i) as [E|E].
    + destruct (Hset r) as [Hi Hmax]. rewrite Hi, E.
      destruct (Hrow r Hr E) as (Hc & Hbound & _).
      split; [exact Hc|]. unfold budget in *. rewrite Hmax. exact Hbound.
    + exact (budget_rows Hb r Hr).
  - intros g Hg. rewrite deliveries_handled. simpl in Hg.
    destruct (Hsub g Hg) as (f & Hf & E).
    rewrite <- (Hid f g E), <- E. exact (budget_flights Hb f Hf).
  - intros g r' Hg Hr' E. simpl in Hg, Hr'.
    rewrite Hm in Hr'. apply in_map_iff in Hr'. destruct Hr' as [r [<- Hr]].
    destruct (Hsub g Hg) as (f & Hf & Ef).
    destruct (String.eqb_spec (Row.id r) i) as [Ei|Ei].
    + destruct (Hset r) as [Hi Hmax]. rewrite Hi in E.
      destruct (Hrow r Hr Ei) as (_ & _ & Hg').
      split; [apply Hg'; [exact Hg|congruence]|].
      rewrite Hmax, <- Ef.
      apply (budget_snapshot Hb f r Hf Hr). rewrite (Hid f g Ef). exact E.
    + rewrite <- Ef. apply (budget_snapshot Hb f r Hf Hr).
      rewrite (Hid f g Ef). exact E.
  - intros q Hq. rewrite deliveries_handled. simpl in Hq. rewrite Hd in Hq.
    exact (budget_dead Hb q Hq).
Qed.

(** What [processMessage] does to the rows of its message: it keeps
    their retries and budget, and leaves none pending. *)
Lemma processMessage_keeps (startTime now : Z) (message : Message.t)
    (outcome : HandlerOutcome) (s : Store) :
  exists set,
    (forall r, Row.id (set r) = Row.id r
               /\ Row.retries (set r) = Row.retries r
               /\ Row.max_retries (set r) = Row.max_retries r
               /\ is_pending (set r) = false)
    /\ updated_by (Message.id message) set (db s)
         (db (fst (processMessage startTime now message outcome s))).
Proof.
  destruct outcome as [|msg|].
  - exists (set_completed now (now - startTime)).
    split; [intro r|]; repeat split.
  - exists (set_failed now msg).
    split; [intro r|]; repeat split.
  - exists (set_failed now "Message processing timeout").
    split; [intro r|]; repeat split.
Qed.

Lemma not_pending (r : Row.t) :
  Row.status r <> pending -> is_pending r = false.
Proof.
  intro H. destruct (is_pending r) eqn:E; [|reflexivity].
  apply is_pending_true in E. contradiction.
Qed.

Lemma budgeted_settle (c : Z) (s : System.t) (consumerId i : string)
    (startTime now : Z) (outcome : HandlerOutcome) (s' : System.t) :
  owned_once s ->
  budgeted c s ->
  System.step (System.Settle consumerId i startTime now outcome) s
  = Some s' ->
  budgeted c s'.
Proof.
  intros Hinv Hb Hstep. simpl in Hstep.
  destruct (System.take_flight System.is_running consumerId i
              (System.inflight s)) as [[f rest]|] eqn:Ht; [|discriminate].
  apply take_flight_Some in Ht. destruct Ht as (Hi & _ & Hp).
  destruct (flights_after_take s f rest Hinv Hp) as (Hf & Hn & Hrest).
  destruct (processMessage_keeps startTime now (System.message f) outcome
              (System.store s)) as (set & Hset & Hup).
  assert (Hrow : forall fl' r,
            In r (messages (db (System.store s))) ->
            Row.id r = Message.id (System.message f) ->
            Z.of_nat (deliveries (Message.id (System.message f)) s)
            = (Row.retries (set r) + (if is_pending (set r) then 0 else 1))%Z
            /\ (0 <= Row.retries (set r) <= budget c r)%Z
            /\ forall g : System.Flight,
                 In g fl' ->
                 System.message g = System.message f
                 \/ (In g rest) ->
                 System.flight_id g = Message.id (System.message f) ->
                 Message.retries (System.message g) = Row.retries (set r)).
  { intros fl' r Hr E. destruct (Hset r) as (_ & Hret & _ & Hpen).
    rewrite Hret, Hpen. destruct (budget_rows Hb r Hr) as [Hc Hbound].
    rewrite (not_pending r (flights_hidden Hinv f r Hf Hr E)) in Hc.
    rewrite <- E. split; [exact Hc|]. split; [exact Hbound|].
    intros g _ [Eg|Hg] Hid.
    - rewrite Eg. apply (budget_snapshot Hb f r Hf Hr E).
    - exfalso. apply (proj2 (Hrest g Hg)). rewrite Hid. exact E. }
  destruct (processMessage startTime now (System.message f) outcome
              (System.store s)) as [st r]. simpl in Hup.
  destruct r as [v|error]; inversion Hstep; subst s'; clear Hstep;
    rewrite <- (Store_eta st).
  - eapply budgeted_update; try eassumption.
    + intro r. destruct (Hset r) as (H1 & _ & H3 & _). split; assumption.
    + intros g Hg. exists g. split; [apply Hrest, Hg|reflexivity].
    + intros r Hr E. destruct (Hrow rest r Hr E) as (H1 & H2 & H3).
      split; [exact H1|]. split; [exact H2|].
      intros g Hg. apply H3; [exact Hg|right; exact Hg].
  - eapply budgeted_update; try eassumption.
    + intro r. destruct (Hset r) as (H1 & _ & H3 & _). split; assumption.
    + intros g [<-|Hg].
      * exists f. split; [exact Hf|reflexivity].
      * exists g. split; [apply Hrest, Hg|reflexivity].
    + intros r Hr E.
      destruct (Hrow (System.mkFlight consumerId (System.message f)
                        (System.Failing error) :: rest) r Hr E)
        as (H1 & H2 & H3).
      split; [exact H1|]. split; [exact H2|].
      intros g Hg. apply H3; [exact Hg|].
      destruct Hg as [<-|Hg]; [left; reflexivity|right; exact Hg].
Qed.

(** Dropping rows, dead letters and flights keeps the accounting. *)
Lemma budgeted_shrink (c : Z) (s : System.t) (d' : DB) (c' : list StoreCall)
    (fl' : list System.Flight) (p : Row.t -> bool) (q : DeadRow.t -> bool) :
  budgeted c s ->
  messages d' = filter p (messages (db (System.store s))) ->
  dead_letter_messages d'
  = filter q (dead_letter_messages (db (System.store s))) ->
  (forall g, In g fl' -> In g (System.inflight s)) ->
  budgeted c (System.mk (mkStore d' c') fl' (System.handled s)).
Proof.
  intros Hb Hm Hd Hsub. constructor.
  - intros r Hr. rewrite deliveries_handled. simpl in Hr. rewrite Hm in Hr.
    apply filter_In in Hr. exact (budget_rows Hb r (proj1 Hr)).
  - intros g Hg. rewrite deliveries_handled.
    exact (budget_flights Hb g (Hsub g Hg)).
  - intros g r Hg Hr. simpl in Hr. rewrite Hm in Hr. apply filter_In in Hr.
    exact (budget_snapshot Hb g r (Hsub g Hg) (proj1 Hr)).
  - intros q0 Hq. rewrite deliveries_handled. simpl in Hq. rewrite Hd in Hq.
    apply filter_In in Hq. exact (budget_dead Hb q0 (proj1 Hq)).
Qed.

(** A row inserted under an id that is not in use and has never been
    delivered opens a new account. *)
Lemma budgeted_insert (c : Z) (s : System.t) (r : Row.t)
    (q : DeadRow.t -> bool) :
  budgeted c s ->
  System.fresh (Row.id r) s = true ->
  deliveries (Row.id r) s = 0%nat ->
  is_pending r = true ->
  Row.retries r = 0%Z ->
  budgeted c
    (System.with_db
       (mkDB (queues (db (System.store s)))
             (messages (db (System.store s)) ++ [r])
             (filter q (dead_letter_messages (db (System.store s)))))
       s).
Proof.
  intros Hb Hfresh Hzero Hpen Hret.
  assert (Hnot : ~ In (Row.id r) (System.used_ids s)).
  { intro Hin. apply existsb_eqb_In in Hin. unfold System.fresh in Hfresh.
    rewrite Hin in Hfresh. discriminate. }
  unfold System.used_ids in Hnot. rewrite !in_app_iff in Hnot.
  unfold System.with_db. constructor.
  - intros r' Hr'. rewrite deliveries_handled. simpl in Hr'.
    apply in_app_iff in Hr'. destruct Hr' as [Hr'|[<-|[]]].
    + exact (budget_rows Hb r' Hr').
    + rewrite Hzero, Hpen, Hret. unfold budget. lia.
  - intros g Hg. rewrite deliveries_handled.
    exact (budget_flights Hb g Hg).
  - intros g r' Hg Hr' E. simpl in Hg, Hr'.
    apply in_app_iff in Hr'. destruct Hr' as [Hr'|[<-|[]]].
    + exact (budget_snapshot Hb g r' Hg Hr' E).
    + exfalso. apply Hnot. right. right. rewrite E. apply in_map, Hg.
  - intros q0 Hq. rewrite deliveries_handled. simpl in Hq.
    apply filter_In in Hq. exact (budget_dead Hb q0 (proj1 Hq)).
Qed.

(** The copy that [moveToDeadLetter] inserts records the retries of the
    message it was called on. *)
Lemma moveToDeadLetter_copy (dlqId : string) (now : Z) (message : Message.t)
    (error : Thrown) (d : DB) :
  (exists e, moveToDeadLetter dlqId now message error d = (d, Throw e))
  \/ exists copy,
       DeadRow.original_id copy = Message.id message
       /\ DeadRow.retries copy = Message.retries message
       /\ moveToDeadLetter dlqId now message error d
          = (mkDB (queues d)
                  (filter (fun r => negb (String.eqb (Row.id r)
                                                     (Message.id message)))
                          (messages d))
                  (dead_letter_messages d ++ [copy]),
             Ok tt).
Proof.
  unfold moveToDeadLetter, Tx.executeTransaction, Tx.bind,
    Sql.insert_dead_letter; simpl.
  destruct (Sql.has_dead_letter dlqId d); [left; eexists; reflexivity|].
  destruct (negb (Sql.has_queue (Message.queueName message) d));
    [left; eexists; reflexivity|].
  right. eexists. split; [|split; [|reflexivity]]; reflexivity.
Qed.

Lemma budgeted_move (c : Z) (s : System.t) (f : System.Flight)
    (rest : list System.Flight) (copy : DeadRow.t) (c' : list StoreCall) :
  budgeted c s ->
  In f (System.inflight s) ->
  (forall g, In g rest -> In g (System.inflight s)) ->
  DeadRow.original_id copy = System.flight_id f ->
  DeadRow.retries copy = Message.retries (System.message f) ->
  budgeted c
    (System.mk
       (mkStore
          (mkDB (queues (db (System.store s)))
                (filter (fun r => negb (String.eqb (Row.id r)
                                                   (System.flight_id f)))
                        (messages (db (System.store s))))
                (dead_letter_messages (db (System.store s)) ++ [copy]))
          c')
       rest (System.handled s)).
Proof.
  intros Hb Hf Hsub Hid Hret. constructor.
  - intros r Hr. rewrite deliveries_handled. simpl in Hr.
    apply filter_In in Hr. exact (budget_rows Hb r (proj1 Hr)).
  - intros g Hg. rewrite deliveries_handled.
    exact (budget_flights Hb g (Hsub g Hg)).
  - intros g r Hg Hr. simpl in Hr. apply filter_In in Hr.
    exact (budget_snapshot Hb g r (Hsub g Hg) (proj1 Hr)).
  - intros q Hq. rewrite deliveries_handled. simpl in Hq.
    apply in_app_iff in Hq. destruct Hq as [Hq|[<-|[]]].
    + exact (budget_dead Hb q Hq).
    + rewrite Hid, Hret. exact (budget_flights Hb f Hf).
Qed.

Lemma budgeted_handle (c : Z) (s : System.t) (consumerId i dlqId : string)
    (now : Z) (cfg : DeadLetterConfig.t) (s' : System.t) :
  owned_once s ->
  budgeted c s ->
  (DeadLetterConfig.maxRetries cfg <= c)%Z ->
  System.step (System.HandleError consumerId i dlqId now cfg) s = Some s' ->
  budgeted c s'.
Proof.
  intros Hinv Hb Hcap Hstep. simpl in Hstep.
  destruct (System.take_flight _ consumerId i (System.inflight s))
    as [[f rest]|] eqn:Ht; [|discriminate].
  apply take_flight_Some in Ht. destruct Ht as (Hi & _ & Hp).
  destruct (flights_after_take s f rest Hinv Hp) as (Hf & Hn & Hrest).
  destruct (System.phase f) as [|error]; [discriminate|].
  inversion Hstep; subst s'; clear Hstep.
  assert (Hkeep : forall g, In g rest ->
            exists f0, In f0 (System.inflight s)
                       /\ System.message f0 = System.message g).
  { intros g Hg. exists g. split; [apply Hrest, Hg|reflexivity]. }
  assert (Hsub : forall g, In g rest -> In g (System.inflight s)).
  { intros g Hg. apply Hrest, Hg. }
  pose proof (budget_flights Hb f Hf) as Hcount.
  unfold handleMessageError.
  destruct (Z.ltb _ _) eqn:Hlt.
  - apply Z.ltb_lt in Hlt.
    rewrite <- (Store_eta (fst (call _ _ _))). rewrite call_db.
    eapply budgeted_update with (i := Message.id (System.message f))
                                (set := set_retry now);
      try eassumption.
    + repeat split.
    + intro r. split; reflexivity.
    + intros r Hr E.
      destruct (budget_snapshot Hb f r Hf Hr E) as [Hret Hmax].
      destruct (budget_rows Hb r Hr) as [_ Hbound].
      unfold System.flight_id in Hcount. simpl. unfold budget in *.
      split; [lia|]. split; [lia|].
      intros g Hg Hid. exfalso. exact (proj2 (Hrest g Hg) Hid).
  - destruct (DeadLetterConfig.enabled cfg).
    + rewrite <- (Store_eta (fst (call _ _ _))). rewrite call_db.
      destruct (moveToDeadLetter_copy dlqId now (System.message f) error
                  (db (System.store s))) as [[e He]|[copy (Hc & Hr & He)]];
        rewrite He; simpl.
      * apply (budgeted_shrink c s _ _ rest (fun _ => true) (fun _ => true));
          try assumption; rewrite filter_true; reflexivity.
      * apply budgeted_move; assumption.
    + rewrite <- (Store_eta (fst (call _ _ _))). rewrite call_db.
      eapply budgeted_update with (i := Message.id (System.message f))
                                  (set := set_failed now
                                            (error_message error));
        try eassumption.
      * repeat split.
      * intro r. split; reflexivity.
      * intros r Hr E.
        destruct (budget_snapshot Hb f r Hf Hr E) as [Hret Hmax].
        destruct (budget_rows Hb r Hr) as [_ Hbound].
        unfold System.flight_id in Hcount. simpl.
        split; [lia|]. split; [exact Hbound|].
        intros g Hg Hid. exfalso. exact (proj2 (Hrest g Hg) Hid).
Qed.

(** The row that a successful [send] appends. *)
Lemma send_row (self : QueueOptions.t) (messageId : string) (now : Z)
    (queueName : string) (payload : Value) (options : SendOptions.t)
    (d : DB) :
  fst (send self messageId now queueName payload options d) = d
  \/ exists r,
       Row.id r = messageId
       /\ is_pending r = true
       /\ Row.retries r = 0%Z
       /\ fst (send self messageId now queueName payload options d)
          = mkDB (queues d) (messages d ++ [r]) (dead_letter_messages d).
Proof.
  unfold send, Tx.executeTransaction, Tx.bind, Sql.insert_message.
  cbn [Row.id Row.queue_name].
  destruct (Sql.has_message messageId d); [left; reflexivity|].
  destruct (negb (Sql.has_queue queueName d)); [left; reflexivity|].
  cbv beta iota.
  destruct (truthy_string (SendOptions.deduplicationId options)) as [k|].
  - unfold Tx.read. destruct (select_duplicate _ _ _) as [existing|].
    + destruct (negb (String.eqb (Row.id existing) messageId)).
      * left. reflexivity.
      * right. eexists.
        refine (conj _ (conj _ (conj _ _))); [| | |reflexivity]; reflexivity.
    + right. eexists.
        refine (conj _ (conj _ (conj _ _))); [| | |reflexivity]; reflexivity.
  - right. eexists.
        refine (conj _ (conj _ (conj _ _))); [| | |reflexivity]; reflexivity.
Qed.

(** The row that a successful [requeueDeadLetterMessage] appends. *)
Lemma requeue_row (newMessageId : string) (now : Z) (messageId : string)
    (d : DB) :
  fst (requeueDeadLetterMessage newMessageId now messageId d) = d
  \/ exists r,
       Row.id r = newMessageId
       /\ is_pending r = true
       /\ Row.retries r = 0%Z
       /\ fst (requeueDeadLetterMessage newMessageId now messageId d)
          = mkDB (queues d) (messages d ++ [r])
                 (filter (fun x => negb (String.eqb (DeadRow.id x) messageId))
                         (dead_letter_messages d)).
Proof.
  unfold requeueDeadLetterMessage, Tx.executeTransaction, Tx.bind, Tx.read.
  destruct (get_dead_letter messageId d) as [dlq|]; [|left; reflexivity].
  unfold Sql.insert_message; simpl.
  destruct (Sql.has_message newMessageId d); [left; reflexivity|].
  destruct (negb (Sql.has_queue (DeadRow.queue_name dlq) d));
    [left; reflexivity|].
  right. eexists.
        refine (conj _ (conj _ (conj _ _))); [| | |reflexivity]; reflexivity.
Qed.

Lemma budgeted_same (c : Z) (s : System.t) :
  budgeted c s -> budgeted c (System.with_db (db (System.store s)) s).
Proof.
  intro Hb. unfold System.with_db.
  apply (budgeted_shrink c s _ _ _ (fun _ => true) (fun _ => true));
    try assumption; try (rewrite filter_true; reflexivity).
  intros g Hg. exact Hg.
Qed.

Lemma budgeted_step (c : Z) (e : System.Event) (s s' : System.t) :
  owned_once s ->
  budgeted c s ->
  retries_capped c e ->
  (forall i, In i (issued_ids [e]) -> deliveries i s = 0%nat) ->
  System.step e s = Some s' ->
  budgeted c s'.
Proof.
  intros Hinv Hb Hcap Hnew Hstep. destruct e.
  - simpl in Hstep.
    destruct (System.fresh messageId s) eqn:Hfresh; [|discriminate].
    inversion Hstep; subst s'; clear Hstep.
    destruct (send_row self messageId now queueName payload options
                (db (System.store s))) as [E|(r & Hid & Hpen & Hret & E)];
      rewrite E.
    + apply budgeted_same, Hb.
    + subst messageId.
      pose proof (budgeted_insert c s r (fun _ => true) Hb Hfresh) as H.
      rewrite filter_true in H. apply H; try assumption.
      apply Hnew. left. reflexivity.
  - eapply budgeted_poll; eassumption.
  - eapply budgeted_settle; eassumption.
  - eapply budgeted_handle; eassumption.
  - simpl in Hstep.
    destruct (System.fresh newMessageId s) eqn:Hfresh; [|discriminate].
    inversion Hstep; subst s'; clear Hstep.
    destruct (requeue_row newMessageId now messageId (db (System.store s)))
      as [E|(r & Hid & Hpen & Hret & E)]; rewrite E.
    + apply budgeted_same, Hb.
    + subst newMessageId. apply budgeted_insert; try assumption.
      apply Hnew. left. reflexivity.
  - simpl in Hstep. inversion Hstep; subst s'; clear Hstep.
    destruct (cleanup_effect now queueName (db (System.store s)))
      as [p E]. rewrite E. unfold System.with_db.
    apply (budgeted_shrink c s _ _ _ p (fun _ => true)); try assumption.
    + reflexivity.
    + simpl. rewrite filter_true. reflexivity.
    + intros g Hg. exact Hg.
Qed.

(** The ids of [messages] after a step are those before it and the id
    the step has drawn. *)
Lemma step_message_ids (e : System.Event) (s s' : System.t) (i : string) :
  System.step e s = Some s' ->
  In i (System.message_ids (db (System.store s'))) ->
  In i (System.message_ids (db (System.store s)))
  \/ In i (issued_ids [e]).
Proof.
  intros Hstep Hi. destruct e.
  - simpl in Hstep.
    destruct (System.fresh messageId s); [|discriminate].
    inversion Hstep; subst s'; clear Hstep. simpl in Hi.
    destruct (send_row self messageId now queueName payload options
                (db (System.store s))) as [E|(r & Hid & _ & _ & E)];
      rewrite E in Hi; [left; exact Hi|].
    unfold System.message_ids in Hi. simpl in Hi.
    rewrite map_app, in_app_iff in Hi. simpl in Hi.
    destruct Hi as [Hi|[Hi|[]]]; [left; exact Hi|right; left; congruence].
  - simpl in Hstep. rewrite fetchMessages_eq in Hstep.
    inversion Hstep; subst s'; clear Hstep. left.
    unfold System.message_ids in *. simpl in Hi. rewrite map_map in Hi.
    rewrite (map_ext _ Row.id) in Hi by (intro; apply claim_row_id).
    exact Hi.
  - simpl in Hstep.
    destruct (System.take_flight _ consumerId messageId (System.inflight s))
      as [[f rest]|]; [|discriminate].
    destruct (processMessage_effect startTime now (System.message f) outcome
                (System.store s)) as (set & Hset & _ & _ & Hm).
    assert (Hdb : messages (db (System.store s')) = _) by
      (destruct (processMessage startTime now (System.message f) outcome
                   (System.store s)) as [st [v|error]];
       inversion Hstep; subst s'; exact Hm).
    left. unfold System.message_ids in *. rewrite Hdb in Hi.
    rewrite update_ids in Hi by (intro r; apply Hset). exact Hi.
  - simpl in Hstep.
    destruct (System.take_flight _ consumerId messageId (System.inflight s))
      as [[f rest]|]; [|discriminate].
    destruct (System.phase f) as [|error]; [discriminate|].
    inversion Hstep; subst s'; clear Hstep. left. simpl in Hi.
    unfold handleMessageError in Hi.
    destruct (Z.ltb _ _); [|destruct (DeadLetterConfig.enabled deadLetterQueue)];
      rewrite call_db in Hi.
    + unfold System.message_ids in *. simpl in Hi.
      rewrite update_ids in Hi by reflexivity. exact Hi.
    + destruct (moveToDeadLetter_effect dlqId now (System.message f) error
                  (db (System.store s))) as [[e He]|[copy [_ He]]];
        rewrite He in Hi; [exact Hi|].
      unfold System.message_ids in *. simpl in Hi.
      apply In_map_filter in Hi. exact Hi.
    + unfold System.message_ids in *. simpl in Hi.
      rewrite update_ids in Hi by reflexivity. exact Hi.
  - simpl in Hstep.
    destruct (System.fresh newMessageId s); [|discriminate].
    inversion Hstep; subst s'; clear Hstep. simpl in Hi.
    destruct (requeue_row newMessageId now messageId (db (System.store s)))
      as [E|(r & Hid & _ & _ & E)]; rewrite E in Hi; [left; exact Hi|].
    unfold System.message_ids in Hi. simpl in Hi.
    rewrite map_app, in_app_iff in Hi. simpl in Hi.
    destruct Hi as [Hi|[Hi|[]]]; [left; exact Hi|right; left; congruence].
  - simpl in Hstep. inversion Hstep; subst s'; clear Hstep. left.
    destruct (cleanup_effect now queueName (db (System.store s)))
      as [p E]. simpl in Hi. rewrite E in Hi.
    unfold System.message_ids in *. simpl in Hi.
    apply In_map_filter in Hi. exact Hi.
Qed.

(** A step delivers only messages that have a row. *)
Lemma step_deliveries (e : System.Event) (s s' : System.t) (i : string) :
  System.step e s = Some s' ->
  ~ In i (System.message_ids (db (System.store s))) ->
  deliveries i s' = deliveries i s.
Proof.
  intros Hstep Hi. destruct e; simpl in Hstep.
  - destruct (System.fresh messageId s); [|discriminate].
    inversion Hstep; reflexivity.
  - rewrite fetchMessages_eq in Hstep.
    inversion Hstep; subst s'; clear Hstep.
    unfold deliveries; simpl. rewrite count_id_app.
    assert (Hzero : forall rows,
              (forall r, In r rows -> Row.id r <> i) ->
              count_id i (map (fun m => (consumerId, Message.id m))
                              (map rowToMessage rows)) = 0%nat).
    { induction rows as [|r rows IH]; intro Hne; [reflexivity|].
      unfold count_id in *. simpl.
      destruct (String.eqb_spec (Row.id r) i) as [E|E].
      - exfalso. exact (Hne r (or_introl eq_refl) E).
      - apply IH. intros r0 Hr0. apply Hne. right. exact Hr0. }
    rewrite Hzero; [lia|].
    intros r Hr E. apply Hi. apply fetch_select_In in Hr.
    rewrite <- E. apply in_map, Hr.
  - destruct (System.take_flight _ consumerId messageId (System.inflight s))
      as [[f rest]|]; [|discriminate].
    destruct (processMessage startTime now (System.message f) outcome
                (System.store s)) as [st [v|error]];
      inversion Hstep; reflexivity.
  - destruct (System.take_flight _ consumerId messageId (System.inflight s))
      as [[f rest]|]; [|discriminate].
    destruct (System.phase f) as [|error]; [discriminate|].
    inversion Hstep; reflexivity.
  - destruct (System.fresh newMessageId s); [|discriminate].
    inversion Hstep; reflexivity.
  - inversion Hstep; reflexivity.
Qed.

Lemma issued_ids_cons (e : System.Event) (events : list System.Event) :
  issued_ids (e :: events) = issued_ids [e] ++ issued_ids events.
Proof. destruct e; reflexivity. Qed.

(** The accounting holds along a run whose ids are drawn once each. *)
Lemma budgeted_run (c : Z) (events : list System.Event) :
  forall s s',
    owned_once s ->
    budgeted c s ->
    NoDup (issued_ids events) ->
    (forall i, In i (issued_ids events) ->
       ~ In i (System.message_ids (db (System.store s)))
       /\ deliveries i s = 0%nat) ->
    Forall (retries_capped c) events ->
    System.run events s = Some s' ->
    budgeted c s'.
Proof.
  induction events as [|e events IH]; intros s s' Hinv Hb Hn Hnew Hcap Hrun.
  - inversion Hrun; subst. exact Hb.
  - simpl in Hrun. destruct (System.step e s) as [s1|] eqn:Hstep;
      [|discriminate].
    rewrite issued_ids_cons in Hn, Hnew.
    inversion Hcap as [|? ? Hc Hrest]; subst.
    apply (IH s1 s').
    + eapply owned_once_step; eassumption.
    + eapply budgeted_step; try eassumption.
      intros i Hi. apply Hnew. apply in_or_app. left. exact Hi.
    + eapply NoDup_app_remove_l, Hn.
    + intros i Hi.
      destruct (Hnew i (in_or_app _ _ _ (or_intror Hi))) as [Hrow Hzero].
      split.
      * intro Hin.
        destruct (step_message_ids e s s1 i Hstep Hin) as [H|H];
          [exact (Hrow H)|].
        exact (NoDup_app_disjoint _ _ _ i Hn H Hi).
      * rewrite (step_deliveries e s s1 i Hstep Hrow). exact Hzero.
    + exact Hrest.
    + exact Hrun.
Qed.

Lemma budgeted_initial (c : Z) (names : list string) :
  budgeted c (System.initial names).
Proof. constructor; simpl; intros; contradiction. Qed.

(** X19. Along every run of the engine in which [uuidv4()] never
    repeats an id and every consumer allows at most [c] retries: a message
    has been handed to a handler once for each retry its row records, and
    once more when the row is not pending; its retries are at most
    [max 0 (min max_retries c)], so it is handed out at most that many
    times plus one; and a dead letter has been handed out once more than
    the retries it records. *)
Theorem delivery_budget (c : Z) (names : list string)
    (events : list System.Event) (s : System.t) :
  NoDup (issued_ids events) ->
  Forall (retries_capped c) events ->
  System.run events (System.initial names) = Some s ->
  (forall r,
      In r (messages (db (System.store s))) ->
      Z.of_nat (deliveries (Row.id r) s)
      = (Row.retries r + (if is_pending r then 0 else 1))%Z
      /\ (0 <= Row.retries r <= Z.max 0 (Z.min (Row.max_retries r) c))%Z
      /\ (Z.of_nat (deliveries (Row.id r) s)
          <= Z.max 0 (Z.min (Row.max_retries r) c) + 1)%Z)
  /\ (forall q,
        In q (dead_letter_messages (db (System.store s))) ->
        Z.of_nat (deliveries (DeadRow.original_id q) s)
        = (DeadRow.retries q + 1)%Z).
Proof.
  intros Hn Hcap Hrun.
  assert (Hb : budgeted c s).
  { apply (budgeted_run c events (System.initial names) s);
      try assumption.
    - apply owned_once_initial.
    - apply budgeted_initial.
    - intros i _. split; [intros []|reflexivity]. }
  split.
  - intros r Hr. destruct (budget_rows Hb r Hr) as [Hc Hbound].
    unfold budget in Hbound. split; [exact Hc|]. split; [exact Hbound|].
    destruct (is_pending r); lia.
  - intros q Hq. exact (budget_dead Hb q Hq).
Qed.

Lemma delivery_budget_witness :
  exists s,
    System.run (Sample.two_failures ++ Sample.third_failure)
               (System.initial ["orders"]) = Some s
    /\ forall q,
         In q (dead_letter_messages (db (System.store s))) ->
         Z.of_nat (deliveries (DeadRow.original_id q) s)
         = (DeadRow.retries q + 1)%Z.
Proof.
  destruct (System.run (Sample.two_failures ++ Sample.third_failure)
                       (System.initial ["orders"])) as [s|] eqn:Hrun;
    [|discriminate Hrun].
  exists s. split; [reflexivity|].
  refine (proj2 (delivery_budget 3 ["orders"]
                   (Sample.two_failures ++ Sample.third_failure) s
                   _ _ Hrun)).
  - simpl. constructor; [intros []|constructor].
  - repeat constructor; simpl; lia.
Defined.

End Accounting.

(** ** Rows that no handler holds *)

Section SettledRows.

Import MessageQueue.

Lemma cleanup_keeps (now : Z) (queueName : option string) (d : DB)
    (r : Row.t) :
  expired now r = false ->
  In r (messages d) ->
  In r (messages (fst (cleanupExpiredMessages now queueName d))).
Proof.
  intros He Hr. unfold cleanupExpiredMessages, Tx.executeTransaction.
  destruct (truthy_string queueName); [exact Hr|].
  simpl. apply filter_In. split; [exact Hr|].
  unfold expired in He. rewrite He. reflexivity.
Qed.

Lemma update_other (i : string) (set : Row.t -> Row.t) (r : Row.t)
    (l : list Row.t) :
  Row.id r <> i ->
  In r l ->
  In r (map (fun x => if String.eqb (Row.id x) i then set x else x) l).
Proof.
  intros Hne Hr. apply in_map_iff. exists r. split; [|exact Hr].
  destruct (String.eqb_spec (Row.id r) i); [contradiction|reflexivity].
Qed.

Lemma taken_flight_ids (sel : System.Flight -> bool) (c i : string)
    (l : list System.Flight) (f : System.Flight) (rest : list System.Flight)
    (x : string) :
  System.take_flight sel c i l = Some (f, rest) ->
  In x (map System.flight_id (f :: rest)) ->
  In x (map System.flight_id l).
Proof.
  intros Ht Hx. apply take_flight_Some in Ht. destruct Ht as (_ & _ & Hp).
  eapply Permutation_in; [|exact Hx].
  apply Permutation_map, Permutation_sym, Hp.
Qed.

(** One step leaves alone a row that is not pending and that no handler
    holds, unless it is a cleanup that finds the row expired. *)
Lemma settled_step (e : System.Event) (s s' : System.t) (r : Row.t) :
  owned_once s ->
  In r (messages (db (System.store s))) ->
  Row.status r <> pending ->
  ~ In (Row.id r) (map System.flight_id (System.inflight s)) ->
  outlives r e ->
  System.step e s = Some s' ->
  In r (messages (db (System.store s')))
  /\ ~ In (Row.id r) (map System.flight_id (System.inflight s'))
  /\ deliveries (Row.id r) s' = deliveries (Row.id r) s.
Proof.
  intros Hinv Hr Hst Hfree Hout Hstep. destruct e; simpl in Hstep.
  - destruct (System.fresh messageId s); [|discriminate].
    inversion Hstep; subst s'; clear Hstep. simpl.
    split; [|split; [exact Hfree|reflexivity]].
    destruct (send_row self messageId now queueName payload options
                (db (System.store s))) as [E|(r0 & _ & _ & _ & E)];
      rewrite E; [exact Hr|].
    simpl. apply in_or_app. left. exact Hr.
  - rewrite fetchMessages_eq in Hstep.
    inversion Hstep; subst s'; clear Hstep.
    assert (Hmsgs : NoDup (System.message_ids (db (System.store s))))
      by (eapply NoDup_app_remove_r, (rows_once Hinv)).
    assert (Hnot : ~ In (Row.id r)
                        (map Row.id
                           (fetch_select queueName batchSize now
                              (db (System.store s))))).
    { intro Hin. apply (selected_row _ _ _ _ _ Hmsgs Hr) in Hin.
      apply selected_pending, is_pending_true in Hin. contradiction. }
    split; [|split].
    + simpl. apply in_map_iff. exists r. split; [|exact Hr].
      apply claim_row_not_In, Hnot.
    + simpl. rewrite map_app, in_app_iff. intros [Hin|Hin]; [tauto|].
      apply Hnot. rewrite !map_map in Hin. exact Hin.
    + unfold deliveries; simpl.
      rewrite count_id_app, count_id_claimed
        by (apply fetch_select_ids_NoDup, Hmsgs).
      destruct (existsb _ _) eqn:Hex; [|lia].
      exfalso. apply Hnot. apply existsb_eqb_In. exact Hex.
  - destruct (System.take_flight _ consumerId messageId (System.inflight s))
      as [[f rest]|] eqn:Ht; [|discriminate].
    pose proof (taken_flight_ids _ _ _ _ _ _ (Row.id r) Ht) as Hids.
    assert (Hne : Row.id r <> Message.id (System.message f)).
    { intro E. apply Hfree, Hids. left. symmetry. exact E. }
    destruct (processMessage_effect startTime now (System.message f) outcome
                (System.store s)) as (set & _ & _ & _ & Hm).
    destruct (processMessage startTime now (System.message f) outcome
                (System.store s)) as [st [v|error]]; simpl in Hm;
      inversion Hstep; subst s'; clear Hstep; simpl; rewrite Hm;
      (split; [apply update_other; assumption|]);
      (split; [|reflexivity]); intro Hin; apply Hfree, Hids.
    + right. exact Hin.
    + exact Hin.
  - destruct (System.take_flight _ consumerId messageId (System.inflight s))
      as [[f rest]|] eqn:Ht; [|discriminate].
    pose proof (taken_flight_ids _ _ _ _ _ _ (Row.id r) Ht) as Hids.
    assert (Hne : Row.id r <> Message.id (System.message f)).
    { intro E. apply Hfree, Hids. left. symmetry. exact E. }
    destruct (System.phase f) as [|error]; [discriminate|].
    inversion Hstep; subst s'; clear Hstep. simpl.
    split; [|split; [intro Hin; apply Hfree, Hids; right; exact Hin
                    |reflexivity]].
    unfold handleMessageError.
    destruct (Z.ltb _ _);
      [|destruct (DeadLetterConfig.enabled deadLetterQueue)];
      rewrite call_db.
    + simpl. apply update_other; assumption.
    + destruct (moveToDeadLetter_effect dlqId now (System.message f) error
                  (db (System.store s))) as [[e He]|[copy [_ He]]];
        rewrite He; [exact Hr|].
      simpl. apply filter_In. split; [exact Hr|].
      destruct (String.eqb_spec (Row.id r) (Message.id (System.message f)));
        [contradiction|reflexivity].
    + simpl. apply update_other; assumption.
  - destruct (System.fresh newMessageId s); [|discriminate].
    inversion Hstep; subst s'; clear Hstep. simpl.
    split; [|split; [exact Hfree|reflexivity]].
    destruct (requeue_row newMessageId now messageId (db (System.store s)))
      as [E|(r0 & _ & _ & _ & E)]; rewrite E; [exact Hr|].
    simpl. apply in_or_app. left. exact Hr.
  - inversion Hstep; subst s'; clear Hstep. simpl.
    split; [|split; [exact Hfree|reflexivity]].
    apply cleanup_keeps; assumption.
Qed.

(** X20. A row that is not pending and that no handler holds (a
    completed or failed message, or one left [processing] by a consumer
    that is gone) is out of reach of the engine: whatever is sent,
    polled, settled, retried, requeued or cleaned up afterwards, as long
    as no cleanup finds it expired, the row stays in [messages] exactly
    as it is, no handler is invoked on it, and no handler holds it. *)
Theorem settled_rows_stay (events : list System.Event) (s s' : System.t)
    (r : Row.t) :
  owned_once s ->
  In r (messages (db (System.store s))) ->
  Row.status r <> pending ->
  ~ In (Row.id r) (map System.flight_id (System.inflight s)) ->
  Forall (outlives r) events ->
  System.run events s = Some s' ->
  In r (messages (db (System.store s')))
  /\ ~ In (Row.id r) (map System.flight_id (System.inflight s'))
  /\ deliveries (Row.id r) s' = deliveries (Row.id r) s.
Proof.
  revert s. induction events as [|e events IH];
    intros s Hinv Hr Hst Hfree Hout Hrun.
  - inversion Hrun; subst. tauto.
  - simpl in Hrun. destruct (System.step e s) as [s1|] eqn:Hstep;
      [|discriminate].
    inversion Hout as [|? ? He Hrest]; subst.
    destruct (settled_step e s s1 r Hinv Hr Hst Hfree He Hstep)
      as (Hr1 & Hfree1 & Hd1).
    rewrite <- Hd1. apply IH; try assumption.
    eapply owned_once_step; eassumption.
Qed.

Lemma settled_rows_stay_witness :
  exists s',
    System.run later_activity orphaned = Some s'
    /\ In orphaned_row (messages (db (System.store s')))
    /\ deliveries "m1" s' = 0%nat.
Proof.
  destruct (System.run later_activity orphaned) as [s'|] eqn:Hrun;
    [|discriminate Hrun].
  exists s'. split; [reflexivity|].
  assert (Hinv : owned_once orphaned).
  { constructor; simpl.
    - constructor; [intros []|constructor].
    - constructor.
    - intros f r [].
    - intros f []. }
  destruct (settled_rows_stay later_activity orphaned s' orphaned_row Hinv)
    as (Hin & _ & Hd).
  - left. reflexivity.
  - discriminate.
  - intros [].
  - repeat constructor.
  - exact Hrun.
  - split; [exact Hin|exact Hd].
Defined.

End SettledRows.

(** ** What a poll hands out *)

Section Offers.

Import MessageQueue.

Lemma owned_once_run (events : list System.Event) :
  forall s s',
    owned_once s -> System.run events s = Some s' -> owned_once s'.
Proof.
  induction events as [|e events IH]; intros s s' Hinv Hrun.
  - inversion Hrun; subst. exact Hinv.
  - simpl in Hrun. destruct (System.step e s) as [s1|] eqn:Hstep;
      [|discriminate].
    apply (IH s1 s'); [|exact Hrun].
    eapply owned_once_step; eassumption.
Qed.

(** An engine opened on a database with one row per id keeps the
    bookkeeping invariant. *)
Lemma owned_once_opened (d : DB) :
  NoDup (System.message_ids d ++ System.dead_letter_original_ids d) ->
  owned_once (opened d).
Proof.
  intro Hn. constructor; simpl.
  - exact Hn.
  - constructor.
  - intros f r [].
  - intros f [].
Qed.

(** The guarantee of a claim ends with the attempt, not with the
    handler. A timeout settles the race while the handler runs on; the
    first retry is immediate, so the poll that follows the handling of
    the timeout hands the message out again, to a second handler. *)
Remark timed_out_message_is_offered_again :
  exists s d m,
    System.run
      [System.Send QueueOptions.default "m1" 1000 "orders" (Data "{}")
                   SendOptions.none;
       System.Poll "c1" 1050 "orders" 1;
       System.Settle "c1" "m1" 1050 31050 TimedOut;
       System.HandleError "c1" "m1" "d1" 31050 DeadLetterConfig.default]
      (System.initial ["orders"]) = Some s
    /\ System.inflight s = []
    /\ System.handled s = [("c1", "m1")]
    /\ fetchMessages 31050 "orders" 1 (db (System.store s)) = (d, Ok [m])
    /\ Message.id m = "m1".
Proof.
  eexists. eexists. eexists.
  split; [vm_compute; reflexivity|].
  split; [reflexivity|]. split; [reflexivity|].
  split; [vm_compute; reflexivity|reflexivity].
Qed.

(** X21. A poll hands out no message whose attempt is open. Start from
    any state that keeps the bookkeeping invariant (an engine on empty
    tables, or one opened on the database of an earlier run) and let
    anything happen: sends, polls of any number of consumers, handlers
    that resolve, reject or time out, error handling, requeues and
    cleanups. A poll then does not throw, hands out no message twice, and
    hands out no message in flight (one whose [processMessage] still
    waits for the race between handler and timeout, or whose failure
    [handleMessageError] has still to route) nor one that has a
    dead-letter copy. A handler that a timeout has beaten is not in
    flight and is not covered: see
    [timed_out_message_is_offered_again]. *)
Theorem poll_skips_open_attempts (s0 : System.t)
    (events : list System.Event) (s : System.t) (now : Z)
    (queueName : string) (batchSize : Z) :
  owned_once s0 ->
  System.run events s0 = Some s ->
  exists d msgs,
    fetchMessages now queueName batchSize (db (System.store s))
    = (d, Ok msgs)
    /\ NoDup (map Message.id msgs)
    /\ (forall m f,
          In m msgs -> In f (System.inflight s) ->
          Message.id m <> System.flight_id f)
    /\ (forall m q,
          In m msgs ->
          In q (dead_letter_messages (db (System.store s))) ->
          Message.id m <> DeadRow.original_id q).
Proof.
  intros Hinit Hrun.
  pose proof (owned_once_run events s0 s Hinit Hrun) as Hinv.
  pose proof (rows_once Hinv) as Hrows.
  rewrite fetchMessages_eq. eexists. eexists. split; [reflexivity|].
  assert (Hsel : forall m,
            In m (map rowToMessage
                      (fetch_select queueName batchSize now
                         (db (System.store s)))) ->
            exists r, In r (messages (db (System.store s)))
                      /\ Row.status r = pending
                      /\ Row.id r = Message.id m).
  { intros m Hm. apply in_map_iff in Hm. destruct Hm as [r [<- Hr]].
    exists r. pose proof (selected_pending _ _ _ _ _ Hr) as Hp.
    apply is_pending_true in Hp. apply fetch_select_In in Hr.
    split; [tauto|]. split; [exact Hp|reflexivity]. }
  split; [|split].
  - rewrite map_map. simpl.
    apply fetch_select_ids_NoDup. eapply NoDup_app_remove_r, Hrows.
  - intros m f Hm Hf E. destruct (Hsel m Hm) as (r & Hr & Hp & Hid).
    apply (flights_hidden Hinv f r Hf Hr); congruence.
  - intros m q Hm Hq E. destruct (Hsel m Hm) as (r & Hr & _ & Hid).
    apply (NoDup_app_disjoint _ _ _ (Message.id m) Hrows).
    + rewrite <- Hid. apply in_map, Hr.
    + rewrite E. apply in_map, Hq.
Qed.

Lemma poll_skips_open_attempts_witness :
  exists s d msgs,
    System.run (Sample.two_sends ++ [System.Poll "c1" 1050 "orders" 1])
               (System.initial ["orders"]) = Some s
    /\ map System.flight_id (System.inflight s) = ["m1"]
    /\ fetchMessages 2000 "orders" 10 (db (System.store s)) = (d, Ok msgs)
    /\ map Message.id msgs = ["m2"]
    /\ forall m f,
         In m msgs -> In f (System.inflight s) ->
         Message.id m <> System.flight_id f.
Proof.
  destruct (System.run (Sample.two_sends
                        ++ [System.Poll "c1" 1050 "orders" 1])
                       (System.initial ["orders"]))
    as [s|] eqn:Hrun; [|discriminate Hrun].
  destruct (poll_skips_open_attempts (System.initial ["orders"])
              (Sample.two_sends ++ [System.Poll "c1" 1050 "orders" 1])
              s 2000 "orders" 10 (owned_once_initial ["orders"]) Hrun)
    as (d & msgs & Hfetch & _ & Hfree & _).
  exists s, d, msgs. split; [reflexivity|].
  vm_compute in Hrun. inversion Hrun; subst s; clear Hrun.
  split; [reflexivity|]. split; [exact Hfetch|].
  split; [|exact Hfree].
  vm_compute in Hfetch. inversion Hfetch; subst. reflexivity.
Defined.

End Offers.

(** ** Rows follow their attempts *)

Section Tracking.

Import MessageQueue.

(** The update that [processMessage] commits, by its result. *)
Lemma processMessage_outcome (startTime now : Z) (message : Message.t)
    (outcome : HandlerOutcome) (s : Store) :
  match processMessage startTime now message outcome s with
  | (st, Ok _) =>
      updated_by (Message.id message)
                 (set_completed now (now - startTime)) (db s) (db st)
  | (st, Throw e) =>
      updated_by (Message.id message)
                 (set_failed now (error_message e)) (db s) (db st)
  end.
Proof. destruct outcome; repeat split. Qed.

(** An update of the rows of [i] keeps the tracking for flights taken
    among the old ones, when the flights that stay on [i] have the phase
    of the new status and the new status is not [processing]. *)
Lemma tracked_update (d0 : DB) (s : System.t) (d' : DB)
    (c' : list StoreCall)
    (fl' : list System.Flight) (h' : list (string * string))
    (i : string) (set : Row.t -> Row.t) (st : Status) :
  tracked d0 s ->
  updated_by i set (db (System.store s)) d' ->
  (forall r, Row.id (set r) = Row.id r /\ Row.status (set r) = st) ->
  st <> processing ->
  (forall g, In g fl' ->
     System.flight_id g = i /\ phase_status (System.phase g) = st
     \/ System.flight_id g <> i /\ In g (System.inflight s)) ->
  (forall f, In f (System.inflight s) ->
     System.flight_id f <> i -> In f fl') ->
  tracked d0 (System.mk (mkStore d' c') fl' h').
Proof.
  intros Ht (_ & _ & Hm) Hset Hst Hfl Hkeep. constructor; simpl.
  - intros g r' Hg Hr' E. rewrite Hm in Hr'.
    apply in_map_iff in Hr'. destruct Hr' as [r [<- Hr]].
    destruct (String.eqb_spec (Row.id r) i) as [Ei|Ei].
    + destruct (Hset r) as [Hid Hs]. rewrite Hid in E. rewrite Hs.
      destruct (Hfl g Hg) as [[_ Hp]|[Hne _]]; [symmetry; exact Hp|].
      exfalso. apply Hne. congruence.
    + destruct (Hfl g Hg) as [[Hgi _]|[_ Hold]].
      * exfalso. apply Ei. congruence.
      * exact (held_rows Ht g r Hold Hr E).
  - intros r' Hr' Hp. rewrite Hm in Hr'.
    apply in_map_iff in Hr'. destruct Hr' as [r [<- Hr]].
    destruct (String.eqb_spec (Row.id r) i) as [Ei|Ei].
    + destruct (Hset r) as [_ Hs]. congruence.
    + destruct (processing_rows Ht r Hr Hp) as [(f & Hf & Hid & Hph)|Hold];
        [left|right; exact Hold].
      exists f. split; [|split; assumption].
      apply Hkeep; [exact Hf|congruence].
Qed.

(** Dropping rows, and dropping flights that are not running, keeps the
    tracking. *)
Lemma tracked_shrink (d0 : DB) (s : System.t) (d' : DB)
    (c' : list StoreCall)
    (fl' : list System.Flight) (h' : list (string * string))
    (p : Row.t -> bool) :
  tracked d0 s ->
  messages d' = filter p (messages (db (System.store s))) ->
  (forall g, In g fl' -> In g (System.inflight s)) ->
  (forall f, In f (System.inflight s) ->
     System.phase f = System.Running -> In f fl') ->
  tracked d0 (System.mk (mkStore d' c') fl' h').
Proof.
  intros Ht Hm Hsub Hkeep. constructor; simpl.
  - intros g r Hg Hr. rewrite Hm in Hr. apply filter_In in Hr.
    exact (held_rows Ht g r (Hsub g Hg) (proj1 Hr)).
  - intros r Hr Hp. rewrite Hm in Hr. apply filter_In in Hr.
    destruct (processing_rows Ht r (proj1 Hr) Hp)
      as [(f & Hf & Hid & Hph)|Hold]; [left|right; exact Hold].
    exists f. split; [exact (Hkeep f Hf Hph)|split; assumption].
Qed.

Lemma tracked_same (d0 : DB) (s : System.t) :
  tracked d0 s -> tracked d0 (System.with_db (db (System.store s)) s).
Proof.
  intro Ht. unfold System.with_db.
  apply (tracked_shrink d0 s _ _ _ _ (fun _ => true)); try assumption.
  - rewrite filter_true. reflexivity.
  - intros g Hg. exact Hg.
  - intros f Hf _. exact Hf.
Qed.

(** A pending row inserted under an id that is not in use keeps the
    tracking. *)
Lemma tracked_insert (d0 : DB) (s : System.t) (r : Row.t)
    (dead : list DeadRow.t) :
  tracked d0 s ->
  System.fresh (Row.id r) s = true ->
  is_pending r = true ->
  tracked d0
    (System.with_db
       (mkDB (queues (db (System.store s)))
             (messages (db (System.store s)) ++ [r]) dead)
       s).
Proof.
  intros Ht Hfresh Hpen.
  assert (Hnot : ~ In (Row.id r) (System.used_ids s)).
  { intro Hin. apply existsb_eqb_In in Hin. unfold System.fresh in Hfresh.
    rewrite Hin in Hfresh. discriminate. }
  unfold System.used_ids in Hnot. rewrite !in_app_iff in Hnot.
  apply is_pending_true in Hpen.
  unfold System.with_db. constructor; simpl.
  - intros g r' Hg Hr' E. apply in_app_iff in Hr'.
    destruct Hr' as [Hr'|[<-|[]]].
    + exact (held_rows Ht g r' Hg Hr' E).
    + exfalso. apply Hnot. right. right. rewrite E. apply in_map, Hg.
  - intros r' Hr' Hp. apply in_app_iff in Hr'.
    destruct Hr' as [Hr'|[<-|[]]].
    + exact (processing_rows Ht r' Hr' Hp).
    + congruence.
Qed.

Lemma tracked_poll (d0 : DB) (s : System.t) (c : string) (now : Z)
    (queueName : string) (batchSize : Z) (s' : System.t) :
  owned_once s ->
  tracked d0 s ->
  System.step (System.Poll c now queueName batchSize) s = Some s' ->
  tracked d0 s'.
Proof.
  intros Hinv Ht Hstep. simpl in Hstep.
  rewrite fetchMessages_eq in Hstep. inversion Hstep; subst s'; clear Hstep.
  assert (Hmsgs : NoDup (System.message_ids (db (System.store s))))
    by (eapply NoDup_app_remove_r, (rows_once Hinv)).
  set (rows := fetch_select queueName batchSize now (db (System.store s))).
  constructor; simpl.
  - intros g r' Hg Hr' E.
    apply in_map_iff in Hr'. destruct Hr' as [r [<- Hr]].
    rewrite claim_row_id in E.
    apply in_app_iff in Hg. destruct Hg as [Hg|Hg].
    + rewrite claim_row_not_In; [exact (held_rows Ht g r Hg Hr E)|].
      intro Hin. apply (selected_row _ _ _ _ _ Hmsgs Hr) in Hin.
      apply selected_pending, is_pending_true in Hin.
      exact (flights_hidden Hinv g r Hg Hr E Hin).
    + apply in_map_iff in Hg. destruct Hg as [m [<- Hm]].
      apply in_map_iff in Hm. destruct Hm as [r2 [<- Hr2]].
      unfold System.flight_id in E; simpl in E.
      rewrite claim_row_In; [reflexivity|].
      rewrite E. apply in_map, Hr2.
  - intros r' Hr' Hp.
    apply in_map_iff in Hr'. destruct Hr' as [r [<- Hr]].
    rewrite claim_row_id.
    destruct (in_dec string_dec (Row.id r) (map Row.id rows)) as [Hi|Hi].
    + apply (selected_row _ _ _ _ _ Hmsgs Hr) in Hi. left.
      exists (System.mkFlight c (rowToMessage r) System.Running).
      split; [|split; reflexivity].
      apply in_or_app. right.
      apply (in_map (fun m => System.mkFlight c m System.Running)).
      apply in_map, Hi.
    + rewrite claim_row_not_In in Hp |- * by exact Hi.
      destruct (processing_rows Ht r Hr Hp) as [(f & Hf & Hid & Hph)|Hold];
        [left|right; exact Hold].
      exists f. split; [apply in_or_app; left; exact Hf|split; assumption].
Qed.

Lemma tracked_settle (d0 : DB) (s : System.t) (c i : string)
    (startTime now : Z) (outcome : HandlerOutcome) (s' : System.t) :
  owned_once s ->
  tracked d0 s ->
  System.step (System.Settle c i startTime now outcome) s = Some s' ->
  tracked d0 s'.
Proof.
  intros Hinv Ht Hstep. simpl in Hstep.
  destruct (System.take_flight System.is_running c i (System.inflight s))
    as [[f rest]|] eqn:Htake; [|discriminate].
  apply take_flight_Some in Htake. destruct Htake as (Hi & _ & Hp).
  destruct (flights_after_take s f rest Hinv Hp) as (Hf & Hn & Hrest).
  assert (Hkeep : forall f0, In f0 (System.inflight s) ->
            System.flight_id f0 <> Message.id (System.message f) ->
            In f0 rest).
  { intros f0 Hf0 Hne.
    apply (Permutation_in _ Hp) in Hf0. destruct Hf0 as [<-|H]; [|exact H].
    exfalso. apply Hne. reflexivity. }
  pose proof (processMessage_outcome startTime now (System.message f)
                outcome (System.store s)) as Hup.
  destruct (processMessage startTime now (System.message f) outcome
              (System.store s)) as [st [v|error]];
    inversion Hstep; subst s'; clear Hstep; rewrite <- (Store_eta st).
  - eapply tracked_update with (st := completed); try eassumption.
    + intro r. split; reflexivity.
    + discriminate.
    + intros g Hg. right. split; [apply Hrest, Hg|apply Hrest, Hg].
  - eapply tracked_update with (st := failed); try eassumption.
    + intro r. split; reflexivity.
    + discriminate.
    + intros g [<-|Hg].
      * left. split; reflexivity.
      * right. split; [apply Hrest, Hg|apply Hrest, Hg].
    + intros f0 Hf0 Hne. right. exact (Hkeep f0 Hf0 Hne).
Qed.

Lemma tracked_handle (d0 : DB) (s : System.t) (c i dlqId : string)
    (now : Z) (cfg : DeadLetterConfig.t) (s' : System.t) :
  owned_once s ->
  tracked d0 s ->
  System.step (System.HandleError c i dlqId now cfg) s = Some s' ->
  tracked d0 s'.
Proof.
  intros Hinv Ht Hstep. simpl in Hstep.
  destruct (System.take_flight _ c i (System.inflight s))
    as [[f rest]|] eqn:Htake; [|discriminate].
  apply take_flight_Some in Htake. destruct Htake as (Hi & _ & Hp).
  destruct (flights_after_take s f rest Hinv Hp) as (Hf & Hn & Hrest).
  destruct (System.phase f) as [|error] eqn:Hphase; [discriminate|].
  inversion Hstep; subst s'; clear Hstep.
  assert (Hkeep : forall f0, In f0 (System.inflight s) ->
            System.flight_id f0 <> Message.id (System.message f) ->
            In f0 rest).
  { intros f0 Hf0 Hne.
    apply (Permutation_in _ Hp) in Hf0. destruct Hf0 as [<-|H]; [|exact H].
    exfalso. apply Hne. reflexivity. }
  assert (Hrun : forall f0, In f0 (System.inflight s) ->
            System.phase f0 = System.Running -> In f0 rest).
  { intros f0 Hf0 Hph.
    apply (Permutation_in _ Hp) in Hf0. destruct Hf0 as [<-|H]; [|exact H].
    congruence. }
  assert (Hold : forall g, In g rest ->
            System.flight_id g = Message.id (System.message f)
            /\ phase_status (System.phase g) = pending
            \/ System.flight_id g <> Message.id (System.message f)
               /\ In g (System.inflight s)).
  { intros g Hg. right. split; [apply Hrest, Hg|apply Hrest, Hg]. }
  unfold handleMessageError.
  destruct (Z.ltb _ _).
  - rewrite <- (Store_eta (fst (call _ _ _))). rewrite call_db.
    eapply tracked_update with (i := Message.id (System.message f))
                               (set := set_retry now) (st := pending);
      try eassumption.
    + repeat split.
    + intro r. split; reflexivity.
    + discriminate.
  - destruct (DeadLetterConfig.enabled cfg).
    + rewrite <- (Store_eta (fst (call _ _ _))). rewrite call_db.
      destruct (moveToDeadLetter_effect dlqId now (System.message f) error
                  (db (System.store s))) as [[e He]|[copy [Hc He]]];
        rewrite He; simpl.
      * apply (tracked_shrink d0 s _ _ _ _ (fun _ => true));
          try assumption.
        -- rewrite filter_true. reflexivity.
        -- intros g Hg. apply Hrest, Hg.
      * eapply tracked_shrink; try eassumption.
        -- reflexivity.
        -- intros g Hg. apply Hrest, Hg.
    + rewrite <- (Store_eta (fst (call _ _ _))). rewrite call_db.
      eapply tracked_update with (i := Message.id (System.message f))
                                 (set := set_failed now
                                           (error_message error))
                                 (st := failed);
        try eassumption.
      * repeat split.
      * intro r. split; reflexivity.
      * discriminate.
      * intros g Hg. right. split; [apply Hrest, Hg|apply Hrest, Hg].
Qed.

Lemma tracked_step (d0 : DB) (e : System.Event) (s s' : System.t) :
  owned_once s ->
  tracked d0 s ->
  System.step e s = Some s' ->
  tracked d0 s'.
Proof.
  intros Hinv Ht Hstep. destruct e.
  - simpl in Hstep.
    destruct (System.fresh messageId s) eqn:Hfresh; [|discriminate].
    inversion Hstep; subst s'; clear Hstep.
    destruct (send_row self messageId now queueName payload options
                (db (System.store s))) as [E|(r & Hid & Hpen & _ & E)];
      rewrite E.
    + apply tracked_same, Ht.
    + subst messageId. apply tracked_insert; assumption.
  - eapply tracked_poll; eassumption.
  - eapply tracked_settle; eassumption.
  - eapply tracked_handle; eassumption.
  - simpl in Hstep.
    destruct (System.fresh newMessageId s) eqn:Hfresh; [|discriminate].
    inversion Hstep; subst s'; clear Hstep.
    destruct (requeue_row newMessageId now messageId (db (System.store s)))
      as [E|(r & Hid & Hpen & _ & E)]; rewrite E.
    + apply tracked_same, Ht.
    + subst newMessageId. apply tracked_insert; assumption.
  - simpl in Hstep. inversion Hstep; subst s'; clear Hstep.
    destruct (cleanup_effect now queueName (db (System.store s)))
      as [p E]. rewrite E. unfold System.with_db.
    apply (tracked_shrink d0 s _ _ _ _ p); try assumption.
    + reflexivity.
    + intros g Hg. exact Hg.
    + intros f Hf _. exact Hf.
Qed.

Lemma tracked_run (d0 : DB) (events : list System.Event) :
  forall s s',
    owned_once s ->
    tracked d0 s ->
    System.run events s = Some s' ->
    tracked d0 s'.
Proof.
  induction events as [|e events IH]; intros s s' Hinv Ht Hrun.
  - inversion Hrun; subst. exact Ht.
  - simpl in Hrun. destruct (System.step e s) as [s1|] eqn:Hstep;
      [|discriminate].
    apply (IH s1 s'); [| |exact Hrun].
    + eapply owned_once_step; eassumption.
    + eapply tracked_step; eassumption.
Qed.

(** X22. The status of a row follows the attempts of the engine. Open
    an engine on any database with one row per id, whatever an earlier
    process has left in it, and let anything happen. Then the row of a
    message in flight is [processing] as long as its [processMessage]
    waits for the race between handler and timeout, and [failed] from
    the failure or timeout of the attempt until [handleMessageError] has
    routed it; and a row that is [processing] either has such an open
    attempt or was in the database, as it is now, when the engine was
    opened: left by a consumer of an earlier process, it has no attempt
    and gets none. The statement is about attempts: a handler that a
    timeout has beaten runs on while its row is [failed] or [pending]
    again. *)
Theorem rows_follow_attempts (d0 : DB) (events : list System.Event)
    (s : System.t) :
  NoDup (System.message_ids d0 ++ System.dead_letter_original_ids d0) ->
  System.run events (opened d0) = Some s ->
  (forall f r,
      In f (System.inflight s) ->
      In r (messages (db (System.store s))) ->
      Row.id r = System.flight_id f ->
      Row.status r = match System.phase f with
                     | System.Running => processing
                     | System.Failing _ => failed
                     end)
  /\ (forall r,
        In r (messages (db (System.store s))) ->
        Row.status r = processing ->
        (exists f,
            In f (System.inflight s)
            /\ System.flight_id f = Row.id r
            /\ System.phase f = System.Running)
        \/ In r (messages d0)).
Proof.
  intros Hn Hrun.
  assert (Ht : tracked d0 s).
  { apply (tracked_run d0 events (opened d0) s); [| |exact Hrun].
    - apply owned_once_opened, Hn.
    - constructor; simpl.
      + intros f r [].
      + intros r Hr _. right. exact Hr. }
  split.
  - intros f r Hf Hr E. exact (held_rows Ht f r Hf Hr E).
  - exact (processing_rows Ht).
Qed.

Lemma rows_follow_attempts_witness :
  exists s,
    System.run
      [System.Poll "c1" 5000 "orders" 10;
       System.Send QueueOptions.default "m2" 6000 "orders" (Data "{}")
                   SendOptions.none;
       System.Poll "c2" 7000 "orders" (-1)]
      (opened (mkDB ["orders"] [orphaned_row] [])) = Some s
    /\ map Row.id (messages (db (System.store s))) = ["m1"; "m2"]
    /\ map Row.status (messages (db (System.store s)))
       = [processing; processing]
    /\ map System.flight_id (System.inflight s) = ["m2"]
    /\ forall r,
         In r (messages (db (System.store s))) ->
         Row.status r = processing ->
         (exists f,
             In f (System.inflight s)
             /\ System.flight_id f = Row.id r
             /\ System.phase f = System.Running)
         \/ In r [orphaned_row].
Proof.
  destruct (System.run
              [System.Poll "c1" 5000 "orders" 10;
               System.Send QueueOptions.default "m2" 6000 "orders"
                           (Data "{}") SendOptions.none;
               System.Poll "c2" 7000 "orders" (-1)]
              (opened (mkDB ["orders"] [orphaned_row] [])))
    as [s|] eqn:Hrun; [|discriminate Hrun].
  exists s. split; [reflexivity|].
  assert (Hn : NoDup (System.message_ids (mkDB ["orders"] [orphaned_row] [])
                      ++ System.dead_letter_original_ids
                           (mkDB ["orders"] [orphaned_row] []))).
  { simpl. constructor; [intros []|constructor]. }
  pose proof (proj2 (rows_follow_attempts
                       (mkDB ["orders"] [orphaned_row] []) _ s Hn Hrun))
    as Hrows.
  vm_compute in Hrun. inversion Hrun; subst s; clear Hrun.
  split; [reflexivity|]. split; [reflexivity|]. split; [reflexivity|].
  exact Hrows.
Defined.

End Tracking.

(** ** Queue statistics *)

Section Statistics.

(** What every row of [message_stats] looks like: one row per queue,
    never a dead letter or a processing time counted, and at least one
    message counted in total. *)
Lemma written_rows (stats : list Stats.t) :
  written_by_triggers stats ->
  NoDup (map Stats.queue_name stats)
  /\ forall s, In s stats ->
       Stats.dead_letter_messages s = 0%Z
       /\ Stats.avg_processing_time s = 0%Z
       /\ (1 <= Stats.total_messages s)%Z.
Proof.
  induction 1 as [|now new stats _ [Hn IH]|now new rows stats _ [Hn IH]].
  - split; [constructor|intros s []].
  - unfold Stats.insert_message_stats.
    set (bump := fun s : Stats.t => if String.eqb _ _ then _ else s).
    assert (Hname : forall s, Stats.queue_name (bump s) = Stats.queue_name s).
    { intro s. unfold bump. destruct (String.eqb _ _); reflexivity. }
    rewrite map_map, (map_ext _ Stats.queue_name) by exact Hname.
    destruct (existsb _ stats) eqn:Hex.
    + split; [exact Hn|]. intros s' Hs'.
      apply in_map_iff in Hs'. destruct Hs' as [s [<- Hs]].
      destruct (IH s Hs) as (Hd & Ha & Ht). unfold bump.
      destruct (String.eqb _ _); simpl; repeat split; try assumption; lia.
    + split.
      * rewrite map_app. simpl. apply NoDup_snoc; [exact Hn|].
        intro Hin. apply in_map_iff in Hin. destruct Hin as [s [E Hs]].
        assert (X : existsb (fun s0 => String.eqb (Stats.queue_name s0)
                                                  (Row.queue_name new))
                            stats = true).
        { apply existsb_exists. exists s. split; [exact Hs|].
          rewrite E. apply String.eqb_refl. }
        congruence.
      * intros s' Hs'. apply in_map_iff in Hs'. destruct Hs' as [s [<- Hs]].
        apply in_app_iff in Hs. destruct Hs as [Hs|[<-|[]]].
        -- destruct (IH s Hs) as (Hd & Ha & Ht). unfold bump.
           destruct (String.eqb _ _); simpl; repeat split;
             try assumption; lia.
        -- unfold bump. simpl. rewrite String.eqb_refl. simpl.
           repeat split. lia.
  - unfold Stats.update_message_stats.
    set (recount := fun s : Stats.t => if String.eqb _ _ then _ else s).
    assert (Hname : forall s,
              Stats.queue_name (recount s) = Stats.queue_name s).
    { intro s. unfold recount. destruct (String.eqb _ _); reflexivity. }
    rewrite map_map, (map_ext _ Stats.queue_name) by exact Hname.
    split; [exact Hn|]. intros s' Hs'.
    apply in_map_iff in Hs'. destruct Hs' as [s [<- Hs]].
    destruct (IH s Hs) as (Hd & Ha & Ht). unfold recount.
    destruct (String.eqb _ _); simpl; repeat split; assumption.
Qed.

(** X23. Whatever the triggers have written to [message_stats],
    [getQueueStats] reports no dead letter, no processing time and no
    throughput for any queue: it answers under the name it was asked
    with, and the three figures are 0, for a queue that has statistics as
    for one that has none. *)
Theorem getQueueStats_blind_spots (now : Z) (queueName : string)
    (stats : list Stats.t) :
  written_by_triggers stats ->
  QueueMetrics.queueName (getQueueStats now queueName stats) = queueName
  /\ QueueMetrics.deadLetterMessages (getQueueStats now queueName stats)
     = 0%Z
  /\ QueueMetrics.averageProcessingTime (getQueueStats now queueName stats)
     = 0%Z
  /\ QueueMetrics.throughput (getQueueStats now queueName stats) = 0%Z.
Proof.
  intro Hw. destruct (written_rows stats Hw) as [_ Hrows].
  unfold getQueueStats.
  destruct (find _ stats) as [s|] eqn:Hfind; simpl.
  - apply find_some in Hfind. destruct (Hrows s (proj1 Hfind)) as (Hd & Ha & _).
    repeat split; assumption.
  - repeat split.
Qed.

Lemma getQueueStats_blind_spots_witness :
  QueueMetrics.totalMessages
    (getQueueStats 9000 "orders"
       (Stats.insert_message_stats 1000 Sample.selected_row [])) = 1%Z
  /\ QueueMetrics.deadLetterMessages
       (getQueueStats 9000 "orders"
          (Stats.insert_message_stats 1000 Sample.selected_row [])) = 0%Z.
Proof.
  split; [reflexivity|].
  apply (getQueueStats_blind_spots 9000 "orders"
           (Stats.insert_message_stats 1000 Sample.selected_row [])).
  apply stats_after_insert, stats_created.
Defined.

End Statistics.
